(** * metrics-viz: the dataset stager and the metrics aggregator

    A shallow embedding of [object_detection/utils/data_processor.py]
    (class [DataProcessor]) and [object_detection/utils/metrics_calculator.py]
    (class [MetricsCalculator]), and the properties of the specification
    that concern them; then of their callers, [evaluate] and
    [create_yaml_config] of [scripts/evaluate_yolo.py] and the
    normalisation of [plot_radar_chart] in [scripts/visualize_results.py],
    with further properties read off the code.

    Conventions of the embedding.
    - A Python [float] that is stored, copied, compared or printed is
      the rational it denotes ([Qc]); [==] on such numbers is Leibniz
      equality.  Where a property depends on how the arithmetic rounds,
      the function is given over binary64 as well (module [Double]) and
      the property is proved there.
    - A [Dict[str, float]] is a [gmap string Qc]; a dictionary that is
      mutated through a reference lives in a store indexed by locations.
    - The file system is a finite map from absolute paths (lists of
      components) to nodes: regular files, directories and symbolic links
      with absolute targets.  Paths are resolved component by component,
      following links, under a bound on the number of steps.
    - A Python exception is the [Raise] branch of [res]; effects that
      happened before the exception stay in the returned state.
    - Console output is modelled where a property speaks about it
      ([extract_yolo_metrics], [print_comparison_table]).
    - pandas and numpy are not part of the code: [sort_values] is an
      interface with the two properties its documentation gives, and
      the reductions of numpy are the functions of their names. *)

From Stdlib Require Import Ascii String QArith Qcanon Qround Lqa Floats Sorted
  Permutation.
From stdpp Require Import gmap strings list fin_maps numbers sorting.

Open Scope Qc_scope.

(** ** Exceptions and results *)

Inductive exn :=
| FileNotFoundError
| FileExistsError
| NotADirectoryError
| IsADirectoryError
| TooManyLinks          (* OSError, errno ELOOP *)
| SameFileError
| JSONDecodeError
| AttributeError
| TypeError
| RuntimeError.

Inductive res (A : Type) :=
| Ok (a : A)
| Raise (e : exn).
Arguments Ok {A} a.
Arguments Raise {A} e.

#[global] Instance exn_eq_dec : EqDecision exn.
Proof. solve_decision. Defined.

#[global] Instance res_ret : MRet res := @Ok.
#[global] Instance res_bind : MBind res :=
  λ A B f m, match m with Ok a => f a | Raise e => Raise e end.

(** ** Stored data *)

(** [metrics.json] as [json.load] returns it: an object whose three
    fields may each be absent; the metric values are numbers. *)
Record json_result := JsonResult {
  j_model : option string;
  j_method : option string;
  j_metrics : option (gmap string Qc)
}.

(** A line of [metrics_summary.txt]: a name, or a number that the source
    prints with four decimals. *)
Inductive report_line :=
| Label (k v : string)
| Value (k : string) (v : Qc).

(** What a regular file holds: a JSON document of the above shape, the
    text report, or other bytes (an image, a label file). *)
Inductive content :=
| CJson (j : json_result)
| CReport (l : list report_line)
| CBytes (b : string).

(** ** Paths (pathlib.PurePath) *)

Abbreviation path := (list string).

Definition parent (p : path) : path := removelast p.
Definition name (p : path) : string := List.last p EmptyString.

(** [str.rfind]: the index of the last occurrence of a character. *)
Fixpoint rfind (c : Ascii.ascii) (s : string) : option nat :=
  match s with
  | EmptyString => None
  | String a s' =>
      match rfind c s' with
      | Some i => Some (S i)
      | None => if Ascii.eqb a c then Some 0%nat else None
      end
  end.

(** [PurePath.suffix] and [PurePath.stem], on the final component:
    the split is at the last dot [i], when [0 < i < len(name) - 1]. *)
Definition split_dot (n : string) : option nat :=
  match rfind "."%char n with
  | Some i =>
      if (0 <? i)%nat && (i <? String.length n - 1)%nat then Some i else None
  | None => None
  end.

Definition suffix (p : path) : string :=
  let n := name p in
  match split_dot n with
  | Some i => String.substring i (String.length n - i) n
  | None => EmptyString
  end.

Definition stem (p : path) : string :=
  let n := name p in
  match split_dot n with
  | Some i => String.substring 0 i n
  | None => n
  end.

(** [str.lower] on the ASCII letters. *)
Definition lower_ascii (c : Ascii.ascii) : ascii :=
  let n := Ascii.nat_of_ascii c in
  if (65 <=? n)%nat && (n <=? 90)%nat then Ascii.ascii_of_nat (n + 32) else c.

Fixpoint lower (s : string) : string :=
  match s with
  | EmptyString => EmptyString
  | String c s' => String (lower_ascii c) (lower s')
  end.

(** [fnmatch] against the pattern [*.txt]: the name ends in [.txt]. *)
Definition matches_star_txt (n : string) : bool :=
  let k := String.length n in
  (4 <=? k)%nat && String.eqb (String.substring (k - 4) 4 n) ".txt".

(** ** The file system *)

Inductive node :=
| File (c : content)
| Dir
| Link (target : path).

Abbreviation fs := (gmap path node).

(** The root is a directory that is not stored in the map. *)
Definition node_at (t : fs) (q : path) : option node :=
  match q with
  | [] => Some Dir
  | _ => t !! q
  end.

(** Path resolution.  [cur] is the directory reached so far, [todo] the
    components still to walk.  A link in the middle of a path is always
    followed; a link in final position is followed when [follow] is set
    ([stat]) and returned as it is otherwise ([lstat]).  A missing final
    component resolves to the place where it would be created. *)
Fixpoint walk (fuel : nat) (t : fs) (follow : bool) (cur todo : path)
    {struct fuel} : res path :=
  match todo with
  | [] => Ok cur
  | c :: rest =>
      match fuel with
      | O => Raise TooManyLinks
      | S fuel' =>
          let p := cur ++ [c] in
          match t !! p with
          | None =>
              match rest with [] => Ok p | _ => Raise FileNotFoundError end
          | Some Dir => walk fuel' t follow p rest
          | Some (File _) =>
              match rest with [] => Ok p | _ => Raise NotADirectoryError end
          | Some (Link tgt) =>
              match rest, follow with
              | [], false => Ok p
              | _, _ => walk fuel' t follow [] (tgt ++ rest)
              end
          end
      end
  end.

(** The bound on the steps of a resolution: one per component of the
    path, and [walk_fuel] more for the components that links bring in. *)
Definition walk_fuel : nat := 256.

Definition resolve (t : fs) (follow : bool) (p : path) : res path :=
  walk (length p + walk_fuel) t follow [] p.

Definition lstat (t : fs) (p : path) : res (path * option node) :=
  q ← resolve t false p; Ok (q, node_at t q).

Definition stat (t : fs) (p : path) : res (path * option node) :=
  q ← resolve t true p; Ok (q, node_at t q).

(** [Path.exists], [Path.is_dir], [Path.is_file]: they follow links and
    answer [False] when the path cannot be resolved. *)
Definition exists_ (t : fs) (p : path) : bool :=
  match stat t p with Ok (_, Some _) => true | _ => false end.

Definition is_dir (t : fs) (p : path) : bool :=
  match stat t p with Ok (_, Some Dir) => true | _ => false end.

Definition is_file (t : fs) (p : path) : bool :=
  match stat t p with Ok (_, Some (File _)) => true | _ => false end.

(** [os.mkdir]. *)
Definition os_mkdir (t : fs) (p : path) : res fs :=
  '(q, n) ← lstat t p;
  match n with
  | Some _ => Raise FileExistsError
  | None => Ok (<[q := Dir]> t)
  end.

(** [Path.mkdir(parents=False, exist_ok=True)]. *)
Definition mkdir_exist_ok (t : fs) (p : path) : res fs :=
  match os_mkdir t p with
  | Ok t' => Ok t'
  | Raise FileNotFoundError => Raise FileNotFoundError
  | Raise e => if is_dir t p then Ok t else Raise e
  end.

(** [Path.mkdir(parents=True, exist_ok=True)]: on [FileNotFoundError] the
    parent is made first, unless the path is its own parent. *)
Fixpoint mkdir_parents (k : nat) (t : fs) (p : path) : res fs :=
  match os_mkdir t p with
  | Ok t' => Ok t'
  | Raise FileNotFoundError =>
      match k, p with
      | S k', _ :: _ =>
          t1 ← mkdir_parents k' t (parent p); mkdir_exist_ok t1 p
      | _, _ => Raise FileNotFoundError
      end
  | Raise e => if is_dir t p then Ok t else Raise e
  end.

Definition mkdir (t : fs) (p : path) : res fs :=
  mkdir_parents (length p) t p.

(** [Path.unlink]: removes a file or a link, never a directory. *)
Definition unlink (t : fs) (p : path) : res fs :=
  '(q, n) ← lstat t p;
  match n with
  | Some (File _) | Some (Link _) => Ok (delete q t)
  | Some Dir => Raise IsADirectoryError
  | None => Raise FileNotFoundError
  end.

(** [os.symlink(target, p)]: fails when anything, even a link whose
    target is gone, is already at [p]. *)
Definition symlink (t : fs) (target p : path) : res fs :=
  '(q, n) ← lstat t p;
  match n with
  | Some _ => Raise FileExistsError
  | None => Ok (<[q := Link target]> t)
  end.

(** [open(p, 'r')] and reading all of it. *)
Definition read_file (t : fs) (p : path) : res content :=
  '(_, n) ← stat t p;
  match n with
  | Some (File c) => Ok c
  | Some Dir => Raise IsADirectoryError
  | Some (Link _) => Raise TooManyLinks
  | None => Raise FileNotFoundError
  end.

(** [open(p, 'w')], writing [c] and closing: through a link, it is the
    link's target that is created or overwritten. *)
Definition write_file (t : fs) (p : path) (c : content) : res fs :=
  '(q, n) ← stat t p;
  match n with
  | Some (File _) | None => Ok (<[q := File c]> t)
  | Some Dir => Raise IsADirectoryError
  | Some (Link _) => Raise TooManyLinks
  end.

(** [os.path.samefile] as [shutil] uses it: false when either is missing. *)
Definition samefile (t : fs) (a b : path) : bool :=
  match stat t a, stat t b with
  | Ok (qa, Some _), Ok (qb, Some _) => bool_decide (qa = qb)
  | _, _ => false
  end.

(** [shutil.copy2(src, dst)].  The copied metadata is not modelled, and
    neither are permission bits: the model writes where the program may
    be refused ([PermissionError], as when [dst] is an earlier copy of a
    read-only file).  What is proved of a call that returns is proved of
    the runs in which every copy is allowed. *)
Definition copy2 (t : fs) (src dst : path) : res fs :=
  let dst := if is_dir t dst then dst ++ [name src] else dst in
  if samefile t src dst then Raise SameFileError
  else c ← read_file t src; write_file t dst c.

(** The entries of the directory stored at [q], by name. *)
Definition child_of (q k : path) : option string :=
  match k with
  | [] => None
  | _ => if decide (parent k = q) then Some (name k) else None
  end.

Definition children (t : fs) (q : path) : list string :=
  omap (child_of q) (map_to_list t).*1.

(** [Path.iterdir]. *)
Definition iterdir (t : fs) (p : path) : res (list path) :=
  '(q, n) ← stat t p;
  match n with
  | Some Dir => Ok ((λ c, p ++ [c]) <$> children t q)
  | Some _ => Raise NotADirectoryError
  | None => Raise FileNotFoundError
  end.

(** [Path.glob('*.txt')]: nothing when [p] is not a directory. *)
Definition glob_txt (t : fs) (p : path) : list path :=
  match stat t p with
  | Ok (q, Some Dir) =>
      (λ c, p ++ [c]) <$> filter (λ c, matches_star_txt c = true) (children t q)
  | _ => []
  end.

(** [k] lies strictly below [q]: the rest of the path. *)
Fixpoint below (q k : path) : option path :=
  match q, k with
  | [], [] => None
  | [], _ => Some k
  | a :: q', b :: k' => if decide (a = b) then below q' k' else None
  | _ :: _, [] => None
  end.

(** Every directory between [q] and the entry [q ++ rel] is a real one:
    the recursive walk does not descend through links. *)
Definition reachable (t : fs) (q rel : path) : bool :=
  forallb (λ i, match t !! (q ++ take i rel) with Some Dir => true | _ => false end)
          (seq 1 (length rel - 1)).

(** [Path.rglob('*')]: nothing when [p] is not a directory. *)
Definition rglob (t : fs) (p : path) : list path :=
  match stat t p with
  | Ok (q, Some Dir) =>
      (λ rel, p ++ rel) <$>
        filter (λ rel, reachable t q rel = true)
               (omap (below q) (map_to_list t).*1)
  | _ => []
  end.

(** ** data_processor.py: class DataProcessor *)

Record DataProcessor := {
  data_root : path
}.

Definition images_dir (self : DataProcessor) : path := data_root self ++ ["images"].
Definition labels_dir (self : DataProcessor) : path := data_root self ++ ["labels"].

Definition image_extensions : gset string :=
  {[ ".jpg"; ".jpeg"; ".png"; ".bmp"; ".tiff"; ".tif" ]}.

(** [_get_image_files]: every entry below [directory] whose lower-cased
    suffix is an image extension and that is (or links to) a regular file. *)
Definition _get_image_files (t : fs) (directory : path) : list path :=
  filter (λ f, bool_decide (lower (suffix f) ∈ image_extensions) && is_file t f = true)
         (rglob t directory).

(** One turn of the staging loop of [prepare_dataset]. *)
Definition stage_file (copy_mode : bool) (target_dir : path) (t : fs)
    (img_file : path) : fs * res unit :=
  let target_file := target_dir ++ [name img_file] in
  if copy_mode then
    match copy2 t img_file target_file with
    | Ok t' => (t', Ok ())
    | Raise e => (t, Raise e)
    end
  else
    let r := if exists_ t target_file then unlink t target_file else Ok t in
    match r with
    | Raise e => (t, Raise e)
    | Ok t1 =>
        match symlink t1 img_file target_file with
        | Ok t2 => (t2, Ok ())
        | Raise e => (t1, Raise e)
        end
    end.

(** The loop itself: it stops at the first exception. *)
Fixpoint stage_all (copy_mode : bool) (target_dir : path) (t : fs)
    (image_files : list path) : fs * res unit :=
  match image_files with
  | [] => (t, Ok ())
  | img_file :: more =>
      match stage_file copy_mode target_dir t img_file with
      | (t', Ok _) => stage_all copy_mode target_dir t' more
      | (t', Raise e) => (t', Raise e)
      end
  end.

Definition prepare_dataset (self : DataProcessor) (t : fs)
    (source_images : path) (method_name : string) (copy_mode : bool)
    : fs * res bool :=
  let target_dir := images_dir self ++ [method_name] in
  match mkdir t target_dir with
  | Raise e => (t, Raise e)
  | Ok t1 =>
      let source_path := source_images in
      if negb (exists_ t1 source_path) then (t1, Ok false)
      else
        let image_files := _get_image_files t1 source_path in
        match image_files with
        | [] => (t1, Ok false)
        | _ =>
            match stage_all copy_mode target_dir t1 image_files with
            | (t2, Ok _) => (t2, Ok true)
            | (t2, Raise e) => (t2, Raise e)
            end
        end
  end.

(** The entries of [result['issues']]; each stands for the message the
    source formats, with the number or path it carries. *)
Inductive issue :=
| ImagesDirMissing (d : path)
| LabelsDirMissing (d : path)
| UnmatchedImages (n : nat)
| UnmatchedLabels (n : nat).

Record verify_result := VerifyResult {
  v_method : string;
  images_exist : bool;
  labels_exist : bool;
  image_count : nat;
  label_count : nat;
  matched_count : nat;
  issues : list issue
}.

Definition stems (files : list path) : gset string :=
  list_to_set (stem <$> files).

(** The issues appended after the pairing: one per non-empty difference. *)
Definition pairing_issues (image_stems label_stems : gset string) : list issue :=
  let unmatched_images := image_stems ∖ label_stems in
  let unmatched_labels := label_stems ∖ image_stems in
  (if decide (unmatched_images = ∅) then []
   else [UnmatchedImages (size unmatched_images)]) ++
  (if decide (unmatched_labels = ∅) then []
   else [UnmatchedLabels (size unmatched_labels)]).

Definition verify_dataset (self : DataProcessor) (t : fs)
    (method_name : string) : verify_result :=
  let images_dir := images_dir self ++ [method_name] in
  if negb (exists_ t images_dir) then
    VerifyResult method_name false false 0 0 0 [ImagesDirMissing images_dir]
  else
    let image_files := _get_image_files t images_dir in
    let labels_val_dir := labels_dir self ++ ["val"] in
    if negb (exists_ t labels_val_dir) then
      VerifyResult method_name true false (length image_files) 0 0
        [LabelsDirMissing labels_val_dir]
    else
      let label_files := glob_txt t labels_val_dir in
      let image_stems := stems image_files in
      let label_stems := stems label_files in
      let matched := image_stems ∩ label_stems in
      VerifyResult method_name true true (length image_files)
        (length label_files) (size matched)
        (pairing_issues image_stems label_stems).

(** ** metrics_calculator.py: class MetricsCalculator *)

(** *** The metrics object handed back by the detection engine

    It is probed by attribute; an attribute may be absent, its access may
    raise something else, and what it holds may or may not convert with
    [float()]. *)

Inductive pyval :=
| PyNum (q : Qc)
| PyOther.            (* None, a string, an object without __float__ *)

Inductive attr (A : Type) :=
| Absent
| Faulty (e : exn)
| Present (a : A).
Arguments Absent {A}.
Arguments Faulty {A} e.
Arguments Present {A} a.

Module YoloBox.
Record t := Make {
  map50 : attr pyval;
  map : attr pyval;
  map75 : attr pyval;
  mp : attr pyval;
  mr : attr pyval
}.
End YoloBox.

Record metrics_object := {
  box : attr YoloBox.t
}.

Definition getattr {A} (a : attr A) : res A :=
  match a with
  | Absent => Raise AttributeError
  | Faulty e => Raise e
  | Present v => Ok v
  end.

(** [hasattr] answers [False] on [AttributeError] only. *)
Definition hasattr {A} (a : attr A) : res bool :=
  match a with
  | Absent | Faulty AttributeError => Ok false
  | Faulty e => Raise e
  | Present _ => Ok true
  end.

Definition float (v : pyval) : res Qc :=
  match v with
  | PyNum q => Ok q
  | PyOther => Raise TypeError
  end.

(** Lines on the console. *)
Inductive percent :=
| Finite (q : Qc)
| NotFinite.

Record row := Row {
  Method : string;
  Model : string;
  mAP_50 : Qc;
  mAP_50_95 : Qc;
  mAP_75 : Qc;
  Precision : Qc;
  Recall : Qc;
  F1_Score : Qc
}.

Abbreviation DataFrame := (list row).

Inductive line :=
| ExtractWarning (e : exn)         (* the warning of extract_yolo_metrics *)
| NoData
| Rule
| Title
| Table (df : DataFrame)           (* df.to_string(index=False) *)
| ImprovementHeader
| Improvement (method : string) (delta : percent)
| Blank.

Definition zero_metrics : gmap string Qc :=
  <["mAP@0.5" := 0]> (<["mAP@0.5:0.95" := 0]> (<["mAP@0.75" := 0]>
    (<["precision" := 0]> (<["recall" := 0]> ∅)))).

(** [float(metrics_obj.box.a)]. *)
Definition required_metric (metrics_obj : metrics_object)
    (a : YoloBox.t → attr pyval) : res Qc :=
  b ← getattr (box metrics_obj); v ← getattr (a b); float v.

(** [float(metrics_obj.box.a) if hasattr(metrics_obj.box, 'a') else 0.0]. *)
Definition optional_metric (metrics_obj : metrics_object)
    (a : YoloBox.t → attr pyval) : res Qc :=
  b ← getattr (box metrics_obj);
  h ← hasattr (a b);
  if h : bool then required_metric metrics_obj a else Ok 0.

(** The body of the [try]. *)
Definition extract_body (metrics_obj : metrics_object) : res (gmap string Qc) :=
  v50 ← required_metric metrics_obj YoloBox.map50;
  v ← required_metric metrics_obj YoloBox.map;
  v75 ← optional_metric metrics_obj YoloBox.map75;
  p ← optional_metric metrics_obj YoloBox.mp;
  r ← optional_metric metrics_obj YoloBox.mr;
  Ok (<["mAP@0.5" := v50]> (<["mAP@0.5:0.95" := v]> (<["mAP@0.75" := v75]>
        (<["precision" := p]> (<["recall" := r]> ∅))))).

(** [extract_yolo_metrics]: the dictionary returned and the lines printed. *)
Definition extract_yolo_metrics (metrics_obj : metrics_object)
    : gmap string Qc * list line :=
  match extract_body metrics_obj with
  | Ok d => (d, [])
  | Raise e => (zero_metrics, [ExtractWarning e])
  end.

(** [calculate_f1_score] on the numbers the floats denote, before any
    rounding.  It is the F1 that the other functions store, copy and
    print; what the arithmetic gives in doubles is
    [Double.calculate_f1_score] below. *)
Definition calculate_f1_score (precision recall : Qc) : Qc :=
  if decide (precision + recall = 0) then 0
  else 2 * (precision * recall) / (precision + recall).

(** The same function over binary64, the [float] of Python, where every
    operation rounds to the nearest double. *)
Module Double.
Definition calculate_f1_score (precision recall : PrimFloat.float)
    : PrimFloat.float :=
  if (precision + recall =? 0)%float then 0%float
  else (2 * (precision * recall) / (precision + recall))%float.
End Double.

(** [d.get(k, v)]. *)
Definition get (d : gmap string Qc) (k : string) (v : Qc) : Qc :=
  default v (d !! k).

(** *** Persistence

    The dictionary [metrics] reaches [save_metrics] by reference: it is a
    location of a store, and the history keeps that same reference. *)

Abbreviation loc := nat.

Record result_object := ResultObject {
  r_model : string;
  r_method : string;
  r_metrics : loc
}.

Record MetricsCalculator := {
  metrics_history : list result_object
}.

Record world := World {
  w_fs : fs;
  w_store : gmap loc (gmap string Qc)
}.

(** [json.dump(result)] followed by [json.load]: the document read back. *)
Definition json_of (model method : string) (d : gmap string Qc) : json_result :=
  JsonResult (Some model) (Some method) (Some d).

Definition save_metrics (self : MetricsCalculator) (w : world)
    (metrics : loc) (method_name model_name : string) (output_path : path)
    : MetricsCalculator * world * res unit :=
  match mkdir (w_fs w) (parent output_path) with
  | Raise e => (self, w, Raise e)
  | Ok t1 =>
      match w_store w !! metrics with
      | None => (self, World t1 (w_store w), Raise RuntimeError)
      | Some d =>
          let f1 := calculate_f1_score (get d "precision" 0) (get d "recall" 0) in
          let d' := <["f1_score" := f1]> d in
          let store' := <[metrics := d']> (w_store w) in
          let result := ResultObject model_name method_name metrics in
          match write_file t1 output_path (CJson (json_of model_name method_name d')) with
          | Raise e => (self, World t1 store', Raise e)
          | Ok t2 =>
              ({| metrics_history := metrics_history self ++ [result] |},
               World t2 store', Ok ())
          end
      end
  end.

(** The integer nearest to [q], a tie going to the even one. *)
Definition round_half_even (q : Q) : Z :=
  let n := Qfloor q in
  match Qcompare (q - inject_Z n) (1 # 2) with
  | Lt => n
  | Gt => (n + 1)%Z
  | Eq => if Z.even n then n else (n + 1)%Z
  end.

(** [f'{v:.4f}']: the number is printed with four decimal places, so
    what the file holds is the nearest multiple of [1/10000]. *)
Definition fixed4 (v : Qc) : Qc :=
  Q2Qc (inject_Z (round_half_even (v * 10000)) / 10000)%Q.

(** The lines of the report that carry data; every number goes through
    [:.4f]. *)
Definition summary_text (model method : string) (d : gmap string Qc) (f1 : Qc)
    : list report_line :=
  [ Label "Model" model; Label "Method" method;
    Value "mAP@0.5:0.95" (fixed4 (get d "mAP@0.5:0.95" 0));
    Value "mAP@0.5" (fixed4 (get d "mAP@0.5" 0));
    Value "mAP@0.75" (fixed4 (get d "mAP@0.75" 0));
    Value "Precision" (fixed4 (get d "precision" 0));
    Value "Recall" (fixed4 (get d "recall" 0));
    Value "F1-Score" (fixed4 f1) ].

Definition save_metrics_summary (self : MetricsCalculator) (w : world)
    (metrics : loc) (method_name model_name : string) (output_path : path)
    : MetricsCalculator * world * res unit :=
  match mkdir (w_fs w) (parent output_path) with
  | Raise e => (self, w, Raise e)
  | Ok t1 =>
      match w_store w !! metrics with
      | None => (self, World t1 (w_store w), Raise RuntimeError)
      | Some d =>
          let f1 := calculate_f1_score (get d "precision" 0) (get d "recall" 0) in
          match write_file t1 output_path
                  (CReport (summary_text model_name method_name d f1)) with
          | Raise e => (self, World t1 (w_store w), Raise e)
          | Ok t2 => (self, World t2 (w_store w), Ok ())
          end
      end
  end.

(** *** Aggregation *)

(** [DataFrame.sort_values(by, ascending=False)] with the default [kind]
    ('quicksort'): the rows come back rearranged so that the column
    descends.  Of the kinds pandas offers, only 'mergesort' and 'stable'
    are documented to keep equal keys in their original order, so the
    interface promises nothing about ties. *)
Class Pandas := {
  sort_values_descending : (row → Qc) → DataFrame → DataFrame;
  sort_values_perm : ∀ by_ df, Permutation (sort_values_descending by_ df) df;
  sort_values_sorted : ∀ by_ df,
    StronglySorted (λ a b, by_ b ≤ by_ a) (sort_values_descending by_ df)
}.

(** One turn of the scan: the row read from [method_dir], if it is a
    directory that holds a [metrics.json]. *)
Definition load_row (t : fs) (method_dir : path) : res (option row) :=
  if negb (is_dir t method_dir) then Ok None
  else
    let metrics_file := method_dir ++ ["metrics.json"] in
    if negb (exists_ t metrics_file) then Ok None
    else
      c ← read_file t metrics_file;
      match c with
      | CJson result =>
          let metrics := default ∅ (j_metrics result) in
          let f1 := calculate_f1_score (get metrics "precision" 0)
                                       (get metrics "recall" 0) in
          Ok (Some {|
            Method := default (name method_dir) (j_method result);
            Model := default "Unknown" (j_model result);
            mAP_50 := get metrics "mAP@0.5" 0;
            mAP_50_95 := get metrics "mAP@0.5:0.95" 0;
            mAP_75 := get metrics "mAP@0.75" 0;
            Precision := get metrics "precision" 0;
            Recall := get metrics "recall" 0;
            F1_Score := f1 |})
      | _ => Raise JSONDecodeError
      end.

(** The scan over the directories in the order of their discovery. *)
Fixpoint scan (t : fs) (dirs : list path) : res DataFrame :=
  match dirs with
  | [] => Ok []
  | method_dir :: more =>
      r ← load_row t method_dir;
      data ← scan t more;
      Ok (match r with Some x => x :: data | None => data end)
  end.

(** The list [data] when the loop of [create_comparison_table] ends. *)
Definition collect_rows (t : fs) (results_dir : path) : res DataFrame :=
  dirs ← iterdir t results_dir; scan t dirs.

Definition create_comparison_table `{Pandas} (t : fs) (results_dir : path)
    : res DataFrame :=
  data ← collect_rows t results_dir;
  Ok (match data with
      | [] => data
      | _ => sort_values_descending mAP_50_95 data
      end).

(** [(x - baseline) / baseline * 100]; with a zero baseline the quotient
    has no finite value.  (In doubles a quotient too large for the format
    has none either; the model keeps its exact value, so what is proved
    of a finite percentage is its sign and its value in exact cases.) *)
Definition improvement (x baseline : Qc) : percent :=
  if decide (baseline = 0) then NotFinite
  else Finite ((x - baseline) / baseline * Q2Qc 100).

Definition improvement_lines (baseline_map : Qc) (df : DataFrame) : list line :=
  flat_map (λ r,
    if decide (mAP_50_95 r ≠ baseline_map)
    then [Improvement (Method r) (improvement (mAP_50_95 r) baseline_map)]
    else []) df.

(** [print_comparison_table]: the lines printed. *)
Definition print_comparison_table (df : DataFrame) : list line :=
  match df with
  | [] => [NoData]
  | first :: _ =>
      [Blank; Rule; Title; Rule; Table df; Rule] ++
      (if decide (1 < length df)%nat then
         let baseline_map := mAP_50_95 (List.last df first) in
         [Blank; ImprovementHeader] ++ improvement_lines baseline_map df ++ [Blank]
       else [])
  end.

(** A sorting routine that meets the interface: it inserts the rows one
    by one from the right, a row going in front of the rows of equal
    key.  The examples are run with it. *)
Fixpoint insert_by (goes_first : row → row → bool) (x : row) (l : DataFrame)
    : DataFrame :=
  match l with
  | [] => [x]
  | y :: l' =>
      if goes_first x y then x :: l
      else y :: insert_by goes_first x l'
  end.

Definition before_ties (by_ : row → Qc) (x y : row) : bool :=
  bool_decide (by_ y ≤ by_ x).

Definition stable_sort (by_ : row → Qc) (df : DataFrame) : DataFrame :=
  foldr (insert_by (before_ties by_)) [] df.

Definition five_keys : gset string :=
  {[ "mAP@0.5"; "mAP@0.5:0.95"; "mAP@0.75"; "precision"; "recall" ]}.

(** *** Statistics over several runs ([calculate_statistics]) *)

(** The value of [stats[name]]: a dictionary with the four keys
    ['mean'], ['std'], ['min'] and ['max']. *)
Record statistics := Statistics {
  s_mean : Qc;
  s_std : Qc;
  s_min : Qc;
  s_max : Qc
}.

Definition Qc_of_nat (n : nat) : Qc := Q2Qc (inject_Z (Z.of_nat n)).

Definition Qc_min (a b : Qc) : Qc := if decide (a ≤ b) then a else b.
Definition Qc_max (a b : Qc) : Qc := if decide (a ≤ b) then b else a.

Definition np_sum (values : list Qc) : Qc := foldr Qcplus 0 values.

(** The reductions of numpy have no number to give for an empty
    sequence ([np.min] and [np.max] raise, [np.mean] is not a number):
    that is [None].  [np.min] and [np.max] pick one of the values;
    [np.mean] and [np.std] round, and the model gives their exact
    values, so nothing is proved of them beyond a single run. *)
Definition np_mean (values : list Qc) : option Qc :=
  match values with
  | [] => None
  | _ => Some (np_sum values / Qc_of_nat (length values))
  end.

Definition np_min (values : list Qc) : option Qc :=
  match values with
  | [] => None
  | x :: l => Some (foldr Qc_min x l)
  end.

Definition np_max (values : list Qc) : option Qc :=
  match values with
  | [] => None
  | x :: l => Some (foldr Qc_max x l)
  end.

Section Statistics.

(** The square root of the floating-point unit; it is the one step of
    [np.std] that leaves the rationals. *)
Variable sqrt : Qc → Qc.

(** [np.std]: the root of the mean squared deviation from the mean. *)
Definition np_std (values : list Qc) : option Qc :=
  m ← np_mean values;
  v ← np_mean ((λ x, (x - m) * (x - m)) <$> values);
  Some (sqrt v).

Definition statistics_of (values : list Qc) : option statistics :=
  mean ← np_mean values;
  std ← np_std values;
  min ← np_min values;
  max ← np_max values;
  Some (Statistics mean std min max).

(** One turn of the loop over [metric_names]. *)
Definition add_statistics (metrics_list : list (gmap string Qc))
    (stats : option (gmap string statistics)) (name : string)
    : option (gmap string statistics) :=
  stats ← stats;
  let values := (λ m, get m name 0) <$> metrics_list in
  s ← statistics_of values;
  Some (<[name := s]> stats).

Definition calculate_statistics (metrics_list : list (gmap string Qc))
    : option (gmap string statistics) :=
  match metrics_list with
  | [] => Some ∅
  | first :: _ =>
      let metric_names := (map_to_list first).*1 in
      foldl (add_statistics metrics_list) (Some ∅) metric_names
  end.

End Statistics.

(** ** evaluate_yolo.py: class YOLOEvaluator *)

Module YOLOEvaluator.
Record t := Make {
  model_path : path;
  data_root : path;      (* already absolute *)
  output_root : path
}.
End YOLOEvaluator.

(** The dictionary [config] that [create_yaml_config] dumps. *)
Record yaml_config := YamlConfig {
  y_path : path;
  y_train : option path;
  y_val : path;
  y_test : option path;
  y_names : list (nat * string)
}.

Definition bdd100k_names : list (nat * string) :=
  [ (0, "pedestrian"); (1, "rider"); (2, "car"); (3, "truck"); (4, "bus");
    (5, "train"); (6, "motorcycle"); (7, "bicycle"); (8, "traffic light");
    (9, "traffic sign") ]%nat.

Section Evaluator.

(** The directory of the package, [Path(__file__).parent.parent]. *)
Variable package_dir : path.

(** [yaml.dump(config, default_flow_style=False, allow_unicode=True)]. *)
Variable yaml_dump : yaml_config → string.

(** [self.model.val(data=yaml_path, ..., project=str(output_dir))]: the
    detection engine.  It may write below the project directory, and it
    hands back a metrics object or raises. *)
Variable val : fs → path → path → fs * res metrics_object.

Definition create_yaml_config (self : YOLOEvaluator.t) (t : fs)
    (method_name : string) : fs * res path :=
  let config_dir := package_dir ++ ["config"; "yolo_configs"] in
  match mkdir t config_dir with
  | Raise e => (t, Raise e)
  | Ok t1 =>
      let config_path := config_dir ++ ["bdd100k_" +:+ method_name +:+ ".yaml"] in
      let data_root_abs := YOLOEvaluator.data_root self in
      let images_path := data_root_abs ++ ["images"; method_name] in
      let config := {|
        y_path := data_root_abs;
        y_train := None;
        y_val := if exists_ t1 (images_path ++ ["val"])
                 then images_path ++ ["val"] else images_path;
        y_test := None;
        y_names := bdd100k_names |} in
      match write_file t1 config_path (CBytes (yaml_dump config)) with
      | Raise e => (t1, Raise e)
      | Ok t2 => (t2, Ok config_path)
      end
  end.

(** [return {}] in the handler: a new, empty dictionary. *)
Definition evaluation_failed (calc : MetricsCalculator) (w : world)
    : MetricsCalculator * world * res loc :=
  let empty := fresh (dom (w_store w)) in
  (calc, World (w_fs w) (<[empty := ∅]> (w_store w)), Ok empty).

(** [evaluate]: the state of [self.metrics_calculator] and of the world
    afterwards, and the dictionary returned.  What is raised before the
    [try] is raised by [evaluate]; what is raised inside is caught. *)
Definition evaluate (self : YOLOEvaluator.t) (calc : MetricsCalculator)
    (w : world) (method_name : string)
    : MetricsCalculator * world * res loc :=
  match create_yaml_config self (w_fs w) method_name with
  | (t1, Raise e) => (calc, World t1 (w_store w), Raise e)
  | (t1, Ok yaml_path) =>
      let output_dir := YOLOEvaluator.output_root self ++ [method_name] in
      match mkdir t1 output_dir with
      | Raise e => (calc, World t1 (w_store w), Raise e)
      | Ok t2 =>
          match val t2 yaml_path output_dir with
          | (t3, Raise e) => evaluation_failed calc (World t3 (w_store w))
          | (t3, Ok metrics) =>
              let extracted_metrics := fresh (dom (w_store w)) in
              let w3 := World t3 (<[extracted_metrics :=
                                     (extract_yolo_metrics metrics).1]> (w_store w)) in
              let model_name := stem (YOLOEvaluator.model_path self) in
              match save_metrics calc w3 extracted_metrics method_name model_name
                      (output_dir ++ ["metrics.json"]) with
              | (calc4, w4, Raise e) => evaluation_failed calc4 w4
              | (calc4, w4, Ok _) =>
                  match save_metrics_summary calc4 w4 extracted_metrics
                          method_name model_name
                          (output_dir ++ ["metrics_summary.txt"]) with
                  | (calc5, w5, Raise e) => evaluation_failed calc5 w5
                  | (calc5, w5, Ok _) => (calc5, w5, Ok extracted_metrics)
                  end
              end
          end
      end
  end.

End Evaluator.

(** ** visualize_results.py: the values of the radar chart *)

(** The columns that [plot_radar_chart] draws. *)
Definition radar_metrics : list (row → Qc) :=
  [mAP_50; mAP_50_95; Precision; Recall; F1_Score].

(** [df_norm[col].max()]. *)
Definition column_max (df : DataFrame) (col : row → Qc) : option Qc :=
  np_max (col <$> df).

(** The entry of [df_norm] for a row and a column: the column is divided
    by its maximum when that is positive, and left alone otherwise. *)
Definition normalised (df : DataFrame) (col : row → Qc) (r : row) : Qc :=
  match column_max df col with
  | Some max_val => if decide (0 < max_val) then col r / max_val else col r
  | None => col r
  end.

(** What is handed to [ax.plot] for each row: the label and the closed
    polygon of the normalised values; nothing for fewer than two rows. *)
Definition radar_polygons (df : DataFrame) : option (list (string * list Qc)) :=
  if decide (length df < 2)%nat then None
  else Some ((λ r,
         let values := (λ col, normalised df col r) <$> radar_metrics in
         (Method r, values ++ take 1 values)) <$> df).

(** * Properties *)

(** ** Exact arithmetic *)

Lemma Qc_le_of_not_le (a b : Qc) : ¬ a ≤ b → b ≤ a.
Proof. intros H. apply Qclt_le_weak, Qcnot_le_lt, H. Qed.

Lemma Qc_le_of_not_lt (a b : Qc) : ¬ a < b → b ≤ a.
Proof. apply Qcnot_lt_le. Qed.

(** ** The sorting routine meets the interface *)

Section InsertionSort.
Variable by_ : row → Qc.
Variable goes_first : row → row → bool.
Hypothesis first_ok : ∀ x y, goes_first x y = true → by_ y ≤ by_ x.
Hypothesis second_ok : ∀ x y, goes_first x y = false → by_ x ≤ by_ y.

Let desc (a b : row) : Prop := by_ b ≤ by_ a.

Lemma insert_by_perm x l : Permutation (insert_by goes_first x l) (x :: l).
Proof using Type.
  induction l as [|y l IH]; simpl; [done|].
  destruct (goes_first x y); [done|].
  rewrite IH. apply perm_swap.
Qed.

Lemma insert_by_sorted x l :
  StronglySorted desc l → StronglySorted desc (insert_by goes_first x l).
Proof using first_ok second_ok.
  induction 1 as [|y l Hl IH Hy]; simpl.
  - repeat constructor.
  - destruct (goes_first x y) eqn:E.
    + constructor; [by constructor|].
      constructor; [by apply first_ok|].
      eapply Forall_impl; [exact Hy|].
      intros z Hz. unfold desc in *. eapply Qcle_trans; [exact Hz|].
      by apply first_ok.
    + constructor; [exact IH|].
      rewrite (insert_by_perm x l).
      constructor; [by apply second_ok|exact Hy].
Qed.

Lemma foldr_insert_perm df :
  Permutation (foldr (insert_by goes_first) [] df) df.
Proof using Type.
  induction df as [|x df IH]; simpl; [done|].
  rewrite insert_by_perm. by constructor.
Qed.

Lemma foldr_insert_sorted df :
  StronglySorted desc (foldr (insert_by goes_first) [] df).
Proof using first_ok second_ok.
  induction df as [|x df IH]; simpl; [constructor|].
  by apply insert_by_sorted.
Qed.
End InsertionSort.

Lemma before_ties_first by_ x y : before_ties by_ x y = true → by_ y ≤ by_ x.
Proof. unfold before_ties. by intros ?%bool_decide_eq_true. Qed.

Lemma before_ties_second by_ x y : before_ties by_ x y = false → by_ x ≤ by_ y.
Proof. unfold before_ties. intros ?%bool_decide_eq_false. by apply Qc_le_of_not_le. Qed.

(** A pandas to run the examples with. *)
Definition stable_pandas : Pandas := {|
  sort_values_descending := stable_sort;
  sort_values_perm := λ by_ df, foldr_insert_perm (before_ties by_) df;
  sort_values_sorted := λ by_ df,
    foldr_insert_sorted by_ (before_ties by_)
      (before_ties_first by_) (before_ties_second by_) df
|}.

(** Closed goals over exact rationals: evaluate, then compare the values
    (two representations of one rational differ only in a proof). *)
Ltac qc_compute :=
  vm_compute;
  repeat first [ reflexivity | apply Qc_is_canon; reflexivity | progress f_equal ].

(** Closed equations between file systems are checked by evaluating both
    sides. *)
Ltac vm_refl :=
  lazymatch goal with |- ?a = ?b => vm_cast_no_check (@eq_refl _ b) end.

(** ** F1 *)

#[local] Set Warnings "-inexact-float".

(** Addition and multiplication of doubles do not depend on the order
    of their arguments. *)
Lemma double_add_comm (x y : PrimFloat.float) : (x + y = y + x)%float.
Proof.
  apply Prim2SF_inj. rewrite !add_spec.
  destruct (Prim2SF x) as [sx|sx| |sx mx ex], (Prim2SF y) as [sy|sy| |sy my ey];
    try reflexivity; try (by destruct sx, sy).
  unfold SF64add, SFadd. by rewrite (Z.min_comm ex ey), Z.add_comm.
Qed.

Lemma double_mul_comm (x y : PrimFloat.float) : (x * y = y * x)%float.
Proof.
  apply Prim2SF_inj. rewrite !mul_spec.
  destruct (Prim2SF x) as [sx|sx| |sx mx ex], (Prim2SF y) as [sy|sy| |sy my ey];
    try reflexivity; try (by destruct sx, sy).
  unfold SF64mul, SFmul.
  by rewrite (Pos.mul_comm mx my), (Z.add_comm ex ey), (xorb_comm sx sy).
Qed.

Lemma double_f1_comm (p r : PrimFloat.float) :
  Double.calculate_f1_score p r = Double.calculate_f1_score r p.
Proof.
  unfold Double.calculate_f1_score.
  by rewrite (double_add_comm r p), (double_mul_comm r p).
Qed.

(** C2, as the code has it.  In double arithmetic
    [calculate_f1_score p r] is [0.0] when [p + r == 0] and otherwise
    the double that [2 * (p * r) / (p + r)] gives when it is evaluated
    in this order, each operation rounded to the nearest binary64 (the
    second conjunct says so in terms of the IEEE 754 operations); the
    two calls [calculate_f1_score p r] and [calculate_f1_score r p]
    return the same double; and [calculate_f1_score 1 1 == 1].  (It
    holds for all doubles, so also for all [p], [r] in [[0,1]].) *)
Theorem calculate_f1_score_in_doubles (p r : PrimFloat.float) :
  Double.calculate_f1_score p r
  = (if (p + r =? 0)%float then 0 else 2 * (p * r) / (p + r))%float
  ∧ Prim2SF (Double.calculate_f1_score p r)
    = (if SFeqb (SF64add (Prim2SF p) (Prim2SF r)) (S754_zero false)
       then S754_zero false
       else SF64div (SF64mul (Prim2SF 2) (SF64mul (Prim2SF p) (Prim2SF r)))
                    (SF64add (Prim2SF p) (Prim2SF r)))
  ∧ Double.calculate_f1_score p r = Double.calculate_f1_score r p
  ∧ Double.calculate_f1_score 1 1 = 1%float.
Proof.
  split_and!.
  - reflexivity.
  - unfold Double.calculate_f1_score.
    rewrite FloatAxioms.eqb_spec, add_spec.
    change (Prim2SF 0) with (S754_zero false).
    destruct (SFeqb _ _); [done|].
    by rewrite div_spec, !mul_spec, add_spec.
  - apply double_f1_comm.
  - reflexivity.
Qed.

(** The module's own test, [precision = 0.723] and [recall = 0.689]. *)
Example f1_of_the_module_test :
  Double.calculate_f1_score 0.723 0.689 = 0.7055906515580737%float.
Proof. reflexivity. Qed.

(** A precision and a recall in [[0,1]] whose product is below the
    smallest normal double. *)
Definition tiny_precision : PrimFloat.float := 0x1.8p-500%float.
Definition tiny_recall : PrimFloat.float := 0x1p-574%float.

(** C2 as stated fails: the code does not return [2*p*r/(p+r)].  With
    the two numbers above, both in [[0,1]], the product [p * r] is
    rounded before it is doubled, and the code returns a third more than
    the expression [2*p*r/(p+r)] evaluated in doubles.  And where nothing
    underflows the result is a rounded quotient: at [(0.5, 1.0)] it is
    [0.6666666666666666], the double [6004799503160661 * 2^-53], which is
    not two thirds. *)
Lemma calculate_f1_score_is_not_the_quotient :
  (0 <=? tiny_precision)%float = true ∧ (tiny_precision <=? 1)%float = true
  ∧ (0 <=? tiny_recall)%float = true ∧ (tiny_recall <=? 1)%float = true
  ∧ (tiny_precision + tiny_recall =? 0)%float = false
  ∧ Double.calculate_f1_score tiny_precision tiny_recall
    = 0x1.5555555555555p-573%float
  ∧ (2 * tiny_precision * tiny_recall / (tiny_precision + tiny_recall))%float
    = 0x1p-573%float
  ∧ Double.calculate_f1_score 0.5 1 = 0.6666666666666666%float
  ∧ Prim2SF (Double.calculate_f1_score 0.5 1)
    = S754_finite false 6004799503160661 (-53)
  ∧ (3 * 6004799503160661 =? 2 * 2 ^ 53)%Z = false.
Proof. split_and!; reflexivity. Qed.

(** ** Extraction *)

Lemma dom_five (a b c d e : Qc) :
  dom (<["mAP@0.5" := a]> (<["mAP@0.5:0.95" := b]> (<["mAP@0.75" := c]>
        (<["precision" := d]> (<["recall" := e]> (∅ : gmap string Qc))))))
  = five_keys.
Proof. rewrite !dom_insert_L, dom_empty_L. unfold five_keys. set_solver. Qed.

Lemma extract_body_dom metrics_obj d :
  extract_body metrics_obj = Ok d → dom d = five_keys.
Proof.
  unfold extract_body. intros H.
  destruct (required_metric metrics_obj YoloBox.map50); [|done].
  destruct (required_metric metrics_obj YoloBox.map); [|done].
  destruct (optional_metric metrics_obj YoloBox.map75); [|done].
  destruct (optional_metric metrics_obj YoloBox.mp); [|done].
  destruct (optional_metric metrics_obj YoloBox.mr); [|done].
  simpl in H. injection H as <-. apply dom_five.
Qed.

Lemma optional_metric_absent metrics_obj b a :
  box metrics_obj = Present b → a b = Absent →
  optional_metric metrics_obj a = Ok 0.
Proof. intros Hb Ha. unfold optional_metric. by rewrite Hb; simpl; rewrite Ha. Qed.

(** What the returned dictionary holds under a key, whichever way the
    extraction went. *)
Lemma extract_lookup metrics_obj k v :
  (∀ d, extract_body metrics_obj = Ok d → d !! k = Some v) →
  zero_metrics !! k = Some v →
  (extract_yolo_metrics metrics_obj).1 !! k = Some v.
Proof.
  intros Hok Hz. unfold extract_yolo_metrics.
  destruct (extract_body metrics_obj) as [d|e]; simpl; [by apply Hok|done].
Qed.

(** C5.  [extract_yolo_metrics] is total: for every metrics object it
    returns a dictionary with exactly the five keys.  An attribute among
    [map75], [mp], [mr] that is absent gives [0.0] under its key; and when
    the body of the [try] raises, the result is the all-zero dictionary
    and one warning line is printed. *)
Theorem extract_yolo_metrics_total (metrics_obj : metrics_object) :
  dom (extract_yolo_metrics metrics_obj).1 = five_keys
  ∧ (∀ e, extract_body metrics_obj = Raise e →
       extract_yolo_metrics metrics_obj = (zero_metrics, [ExtractWarning e]))
  ∧ (∀ k, k ∈ five_keys → zero_metrics !! k = Some 0)
  ∧ (∀ b, box metrics_obj = Present b →
       (YoloBox.map75 b = Absent →
          (extract_yolo_metrics metrics_obj).1 !! "mAP@0.75" = Some 0)
       ∧ (YoloBox.mp b = Absent →
          (extract_yolo_metrics metrics_obj).1 !! "precision" = Some 0)
       ∧ (YoloBox.mr b = Absent →
          (extract_yolo_metrics metrics_obj).1 !! "recall" = Some 0)).
Proof.
  split_and!.
  - unfold extract_yolo_metrics.
    destruct (extract_body metrics_obj) as [d|e] eqn:E; simpl.
    + by eapply extract_body_dom.
    + apply dom_five.
  - intros e E. unfold extract_yolo_metrics. by rewrite E.
  - intros k Hk. unfold five_keys in Hk.
    repeat (apply elem_of_union in Hk as [Hk|Hk]);
      apply elem_of_singleton in Hk; subst k; reflexivity.
  - intros b Hb. split_and!; intros Ha; (apply extract_lookup; [|reflexivity]);
      intros d; unfold extract_body.
    + destruct (required_metric metrics_obj YoloBox.map50); [|done].
      destruct (required_metric metrics_obj YoloBox.map); [|done].
      rewrite (optional_metric_absent metrics_obj b YoloBox.map75 Hb Ha).
      destruct (optional_metric metrics_obj YoloBox.mp); [|done].
      destruct (optional_metric metrics_obj YoloBox.mr); [|done].
      simpl. by intros [= <-].
    + destruct (required_metric metrics_obj YoloBox.map50); [|done].
      destruct (required_metric metrics_obj YoloBox.map); [|done].
      destruct (optional_metric metrics_obj YoloBox.map75); [|done].
      rewrite (optional_metric_absent metrics_obj b YoloBox.mp Hb Ha).
      destruct (optional_metric metrics_obj YoloBox.mr); [|done].
      simpl. by intros [= <-].
    + destruct (required_metric metrics_obj YoloBox.map50); [|done].
      destruct (required_metric metrics_obj YoloBox.map); [|done].
      destruct (optional_metric metrics_obj YoloBox.map75); [|done].
      destruct (optional_metric metrics_obj YoloBox.mp); [|done].
      rewrite (optional_metric_absent metrics_obj b YoloBox.mr Hb Ha).
      simpl. by intros [= <-].
Qed.

(** The three ways the extraction can go, on concrete objects: all
    attributes present; the optional ones absent; no [box] at all. *)
Definition full_box : YoloBox.t :=
  YoloBox.Make (Present (PyNum (Q2Qc 0.654))) (Present (PyNum (Q2Qc 0.432)))
               (Present (PyNum (Q2Qc 0.5))) (Present (PyNum (Q2Qc 0.723)))
               (Present (PyNum (Q2Qc 0.689))).

Definition bare_box : YoloBox.t :=
  YoloBox.Make (Present (PyNum (Q2Qc 0.654))) (Present (PyNum (Q2Qc 0.432)))
               Absent Absent Absent.

Example extract_full :
  extract_yolo_metrics {| box := Present full_box |} =
  (<["mAP@0.5" := Q2Qc 0.654]> (<["mAP@0.5:0.95" := Q2Qc 0.432]>
     (<["mAP@0.75" := Q2Qc 0.5]> (<["precision" := Q2Qc 0.723]>
        (<["recall" := Q2Qc 0.689]> ∅)))), []).
Proof. reflexivity. Qed.

Example extract_bare :
  extract_yolo_metrics {| box := Present bare_box |} =
  (<["mAP@0.5" := Q2Qc 0.654]> (<["mAP@0.5:0.95" := Q2Qc 0.432]>
     (<["mAP@0.75" := 0]> (<["precision" := 0]> (<["recall" := 0]> ∅)))), []).
Proof. reflexivity. Qed.

Example extract_no_box :
  extract_yolo_metrics {| box := Absent |} =
  (zero_metrics, [ExtractWarning AttributeError]).
Proof. reflexivity. Qed.

(** ** The caller's dictionary *)

Lemma save_metrics_summary_store self w metrics method_name model_name output_path :
  w_store (save_metrics_summary self w metrics method_name model_name output_path).1.2
  = w_store w.
Proof.
  unfold save_metrics_summary.
  destruct (mkdir _ _); [|done].
  destruct (w_store w !! metrics); [|done].
  by destruct (write_file _ _ _).
Qed.

(** C8.  After [save_metrics] returns, the dictionary the caller passed
    holds ['f1_score'], computed from its ['precision'] and ['recall']
    entries ([0.0] when absent); its other entries, and the other
    dictionaries, are as before.  [save_metrics_summary] changes no
    dictionary, whatever its outcome. *)
Theorem save_metrics_mutates_argument
    (self self' : MetricsCalculator) (w w' : world) (metrics : loc)
    (d : gmap string Qc) (method_name model_name : string) (output_path : path) :
  w_store w !! metrics = Some d →
  save_metrics self w metrics method_name model_name output_path = (self', w', Ok ()) →
  let f1 := calculate_f1_score (get d "precision" 0) (get d "recall" 0) in
  (∃ d', w_store w' !! metrics = Some d'
     ∧ d' !! "f1_score" = Some f1
     ∧ ∀ k, k ≠ "f1_score" → d' !! k = d !! k)
  ∧ (∀ l, l ≠ metrics → w_store w' !! l = w_store w !! l)
  ∧ (∀ out, w_store (save_metrics_summary self w metrics method_name model_name out).1.2
            = w_store w).
Proof.
  intros Hd Hsave f1. unfold save_metrics in Hsave.
  destruct (mkdir _ _) as [t1|]; [|done].
  rewrite Hd in Hsave.
  destruct (write_file _ _ _) as [t2|]; [|done].
  injection Hsave as _ <-. simpl. split_and!.
  - exists (<["f1_score" := f1]> d). split_and!.
    + apply lookup_insert_eq.
    + apply lookup_insert_eq.
    + intros k Hk. by apply lookup_insert_ne.
  - intros l Hl. by apply lookup_insert_ne.
  - intros out. apply save_metrics_summary_store.
Qed.

(** The driver's use: the dictionary of the module's own test, saved
    under [out/raw]. *)
Definition demo_metrics : gmap string Qc :=
  <["mAP@0.5" := Q2Qc 0.654]> (<["mAP@0.5:0.95" := Q2Qc 0.432]>
    (<["precision" := Q2Qc 0.723]> (<["recall" := Q2Qc 0.689]> ∅))).

Definition demo_world : world := World ∅ {[ 0%nat := demo_metrics ]}.

Definition demo_calculator : MetricsCalculator := {| metrics_history := [] |}.

Definition demo_saved : MetricsCalculator * world * res unit :=
  save_metrics demo_calculator demo_world 0 "raw" "yolov8n"
    ["out"; "raw"; "metrics.json"].

Example demo_saved_ok : demo_saved.2 = Ok ().
Proof. vm_compute. reflexivity. Qed.

Lemma save_metrics_mutates_argument_witness :
  ∃ d', w_store demo_saved.1.2 !! 0%nat = Some d'
        ∧ d' !! "f1_score" =
            Some (calculate_f1_score (get demo_metrics "precision" 0)
                                     (get demo_metrics "recall" 0))
        ∧ ∀ k, k ≠ "f1_score" → d' !! k = demo_metrics !! k.
Proof.
  apply (save_metrics_mutates_argument demo_calculator demo_saved.1.1
           demo_world demo_saved.1.2 0 demo_metrics "raw" "yolov8n"
           ["out"; "raw"; "metrics.json"]).
  - reflexivity.
  - vm_compute. reflexivity.
Defined.

(** ** The pairing report *)

(** C7, as the code has it.  When the image directory and [labels/val]
    exist, [verify_dataset] returns (it raises nothing) a result whose
    [matched_count] is the size of the intersection of the image stems
    and the label stems, and whose issues are: one unmatched-image issue
    carrying the number of stems found only among the images, if there
    is such a stem, and one unmatched-label issue carrying the number of
    stems found only among the labels, if there is such a stem.  A
    difference that is empty is not reported. *)
Theorem verify_dataset_pairing (self : DataProcessor) (t : fs) (method_name : string) :
  exists_ t (images_dir self ++ [method_name]) = true →
  exists_ t (labels_dir self ++ ["val"]) = true →
  let image_stems := stems (_get_image_files t (images_dir self ++ [method_name])) in
  let label_stems := stems (glob_txt t (labels_dir self ++ ["val"])) in
  let result := verify_dataset self t method_name in
  images_exist result = true ∧ labels_exist result = true
  ∧ matched_count result = size (image_stems ∩ label_stems)
  ∧ issues result =
      (if decide (image_stems ∖ label_stems = ∅) then []
       else [UnmatchedImages (size (image_stems ∖ label_stems))]) ++
      (if decide (label_stems ∖ image_stems = ∅) then []
       else [UnmatchedLabels (size (label_stems ∖ image_stems))]).
Proof.
  intros Hi Hl image_stems label_stems result.
  unfold result, verify_dataset. rewrite Hi, Hl. simpl. by split_and!.
Qed.

Definition empty_file : node := File (CBytes "").

Definition demo_processor : DataProcessor := {| data_root := ["data"] |}.

(** Image stems {a,b,c} against label stems {b,c,d}. *)
Definition staged_abc : fs :=
  list_to_map
    [ (["data"], Dir); (["data"; "images"], Dir); (["data"; "images"; "raw"], Dir);
      (["data"; "images"; "raw"; "a.jpg"], empty_file);
      (["data"; "images"; "raw"; "b.jpg"], empty_file);
      (["data"; "images"; "raw"; "c.png"], empty_file);
      (["data"; "labels"], Dir); (["data"; "labels"; "val"], Dir);
      (["data"; "labels"; "val"; "b.txt"], empty_file);
      (["data"; "labels"; "val"; "c.txt"], empty_file);
      (["data"; "labels"; "val"; "d.txt"], empty_file) ].

(** Image stems {a} against label stems {a}. *)
Definition staged_a : fs :=
  list_to_map
    [ (["data"], Dir); (["data"; "images"], Dir); (["data"; "images"; "raw"], Dir);
      (["data"; "images"; "raw"; "a.jpg"], empty_file);
      (["data"; "labels"], Dir); (["data"; "labels"; "val"], Dir);
      (["data"; "labels"; "val"; "a.txt"], empty_file) ].

Example verify_abc :
  verify_dataset demo_processor staged_abc "raw" =
  VerifyResult "raw" true true 3 3 2 [UnmatchedImages 1; UnmatchedLabels 1].
Proof. vm_compute. reflexivity. Qed.

Lemma verify_dataset_pairing_witness :
  matched_count (verify_dataset demo_processor staged_abc "raw") =
    size (stems (_get_image_files staged_abc ["data"; "images"; "raw"])
          ∩ stems (glob_txt staged_abc ["data"; "labels"; "val"]))
  ∧ matched_count (verify_dataset demo_processor staged_abc "raw") = 2%nat.
Proof.
  split.
  - apply (verify_dataset_pairing demo_processor staged_abc "raw");
      vm_compute; reflexivity.
  - vm_compute. reflexivity.
Defined.

(** C7 as stated fails when a difference is empty: with the same stem on
    both sides, the pairing matches one stem and reports no issue at all,
    so there is no unmatched-image issue and no unmatched-label issue. *)
Lemma verify_dataset_no_issue_when_all_match :
  verify_dataset demo_processor staged_a "raw" =
    VerifyResult "raw" true true 1 1 1 []
  ∧ ¬ (∃ n, UnmatchedImages n ∈ issues (verify_dataset demo_processor staged_a "raw"))
  ∧ ¬ (∃ n, UnmatchedLabels n ∈ issues (verify_dataset demo_processor staged_a "raw")).
Proof.
  assert (verify_dataset demo_processor staged_a "raw" =
          VerifyResult "raw" true true 1 1 1 []) as E by (vm_compute; reflexivity).
  rewrite E. simpl. split_and!; [done| |]; intros [n H]; by apply elem_of_nil in H.
Qed.

(** ** The relative-improvement report *)

Lemma last_default_irrelevant {A} (l : list A) (d1 d2 : A) :
  l ≠ [] → List.last l d1 = List.last l d2.
Proof.
  induction l as [|x [|y l] IH]; intros Hne; [done|done|].
  change (List.last (y :: l) d1 = List.last (y :: l) d2). by apply IH.
Qed.

Lemma last_elem_of {A} (l : list A) (d : A) : l ≠ [] → List.last l d ∈ l.
Proof.
  induction l as [|x [|y l] IH]; intros Hne; [done|by left|].
  right. change (List.last (y :: l) d ∈ y :: l). by apply IH.
Qed.

(** In a descending table the last row has the smallest key. *)
Lemma last_is_smallest (by_ : row → Qc) (df : DataFrame) (d r : row) :
  StronglySorted (λ a b, by_ b ≤ by_ a) df → r ∈ df →
  by_ (List.last df d) ≤ by_ r.
Proof.
  induction 1 as [|x l Hl IH Hx]; intros Hr; [by apply elem_of_nil in Hr|].
  destruct l as [|y l].
  - apply list_elem_of_singleton in Hr as ->. apply Qcle_refl.
  - change (by_ (List.last (y :: l) d) ≤ by_ r).
    apply elem_of_cons in Hr as [->|Hr]; [|by apply IH].
    rewrite Forall_forall in Hx. by apply Hx, last_elem_of.
Qed.

Lemma improvement_lines_spec (b : Qc) (df : DataFrame) (l : line) :
  l ∈ improvement_lines b df ↔
  ∃ r, r ∈ df ∧ mAP_50_95 r ≠ b
       ∧ l = Improvement (Method r) (improvement (mAP_50_95 r) b).
Proof.
  unfold improvement_lines. rewrite list_elem_of_In, in_flat_map. split.
  - intros (r & Hr & Hl). exists r. apply list_elem_of_In in Hr.
    destruct (decide (mAP_50_95 r ≠ b)); [|done].
    destruct Hl as [<-|[]]. done.
  - intros (r & Hr & Hne & ->). exists r. split; [by apply list_elem_of_In|].
    destruct (decide (mAP_50_95 r ≠ b)); [by left|done].
Qed.

(** C3, as the code has it.  For a table of more than one row sorted
    descending by mAP@0.5:0.95, the baseline is the last row, whose
    mAP@0.5:0.95 is the smallest.  The report has one line for each row
    whose mAP@0.5:0.95 differs from the baseline's, and no line for the
    baseline row or a row that ties with it.  With a non-zero baseline the
    delta of a line is [(x - baseline) / baseline * 100], so the baseline
    is the denominator of every delta, and a row with twice the
    baseline's value reports exactly [+100]. *)
Theorem relative_improvement_baseline (df : DataFrame) (d : row) :
  (1 < length df)%nat →
  StronglySorted (λ a b, mAP_50_95 b ≤ mAP_50_95 a) df →
  let baseline := mAP_50_95 (List.last df d) in
  (∀ r, r ∈ df → baseline ≤ mAP_50_95 r)
  ∧ (∀ m delta, Improvement m delta ∈ print_comparison_table df ↔
       ∃ r, r ∈ df ∧ mAP_50_95 r ≠ baseline ∧ m = Method r
            ∧ delta = improvement (mAP_50_95 r) baseline)
  ∧ (∀ x, baseline ≠ 0 →
       improvement x baseline = Finite ((x - baseline) / baseline * Q2Qc 100))
  ∧ (∀ x, baseline ≠ 0 → x = 2 * baseline →
       improvement x baseline = Finite (Q2Qc 100)).
Proof.
  intros Hlen Hsorted baseline. split_and!.
  - intros r Hr. by apply last_is_smallest.
  - intros m delta. unfold print_comparison_table.
    destruct df as [|first rest]; [simpl in Hlen; lia|].
    destruct (decide (1 < length (first :: rest))%nat); [|done].
    rewrite (last_default_irrelevant (first :: rest) first d) by done.
    fold baseline.
    rewrite !elem_of_app, !elem_of_cons, !elem_of_nil, improvement_lines_spec.
    split.
    + intros H. repeat (destruct H as [H|H]; try discriminate H); try done.
      destruct H as (r & Hr & Hne & [= -> ->]). by exists r.
    + intros (r & Hr & Hne & -> & ->). right. right. left. by exists r.
  - intros x Hb. unfold improvement. by destruct (decide (baseline = 0)).
  - intros x Hb ->. unfold improvement. destruct (decide (baseline = 0)); [done|].
    f_equal. by field.
Qed.

(** The end-to-end scenario of the specification, already sorted: 0.50,
    0.40, 0.30. *)
Definition row_of (method : string) (v : Qc) : row :=
  Row method "yolov8n" 0 v 0 0 0 0.

Definition table_543 : DataFrame :=
  [row_of "raw" (Q2Qc 0.5); row_of "hsv" (Q2Qc 0.4); row_of "pwgcm" (Q2Qc 0.3)].

Lemma table_543_sorted :
  StronglySorted (λ a b, mAP_50_95 b ≤ mAP_50_95 a) table_543.
Proof.
  unfold table_543. repeat constructor; by vm_compute.
Qed.


Lemma relative_improvement_baseline_witness :
  improvement (2 * mAP_50_95 (List.last table_543 (row_of "" 0)))
              (mAP_50_95 (List.last table_543 (row_of "" 0)))
  = Finite (Q2Qc 100).
Proof.
  apply (relative_improvement_baseline table_543 (row_of "" 0)).
  - simpl. lia.
  - apply table_543_sorted.
  - by vm_compute.
  - reflexivity.
Defined.

Definition table_53 : DataFrame :=
  [row_of "raw" (Q2Qc 0.5); row_of "hsv" (Q2Qc 0.3)].

(** C3 as stated fails: the baseline row reports no delta for itself.  In
    a table of two rows the report has a line for the first row only;
    there is no line, with [0] or with anything else, for the last. *)
Lemma baseline_row_reports_nothing :
  print_comparison_table table_53 =
    [Blank; Rule; Title; Rule; Table table_53; Rule; Blank; ImprovementHeader;
     Improvement "raw" (Finite (Q2Qc (200 # 3))); Blank]
  ∧ ¬ (∃ delta, Improvement "hsv" delta ∈ print_comparison_table table_53).
Proof.
  assert (print_comparison_table table_53 =
    [Blank; Rule; Title; Rule; Table table_53; Rule; Blank; ImprovementHeader;
     Improvement "raw" (Finite (Q2Qc (200 # 3))); Blank]) as E by qc_compute.
  split; [exact E|]. rewrite E. intros [delta H].
  repeat (apply elem_of_cons in H as [H|H]; [discriminate H|]).
  by apply elem_of_nil in H.
Qed.

(** ** The comparison table *)

(** The end-to-end scenario of the specification: three method
    directories with mAP@0.5:0.95 of 0.50, 0.30 and 0.40. *)
Definition metrics_of (v : Qc) : gmap string Qc :=
  <["mAP@0.5:0.95" := v]> (<["precision" := Q2Qc 0.5]> (<["recall" := Q2Qc 0.5]> ∅)).

Definition metrics_file (method : string) (v : Qc) : node :=
  File (CJson (json_of "yolov8n" method (metrics_of v))).

Definition results_534 : fs :=
  list_to_map
    [ (["out"], Dir);
      (["out"; "raw"], Dir); (["out"; "pwgcm"], Dir); (["out"; "hsv"], Dir);
      (["out"; "raw"; "metrics.json"], metrics_file "raw" (Q2Qc 0.5));
      (["out"; "pwgcm"; "metrics.json"], metrics_file "pwgcm" (Q2Qc 0.3));
      (["out"; "hsv"; "metrics.json"], metrics_file "hsv" (Q2Qc 0.4));
      (["out"; "comparison.csv"], File (CBytes "csv")) ].

Definition scored (method : string) (v : Qc) : row :=
  Row method "yolov8n" 0 v 0 (Q2Qc 0.5) (Q2Qc 0.5) (Q2Qc 0.5).

Example table_534 :
  @create_comparison_table stable_pandas results_534 ["out"] =
  Ok [scored "raw" (Q2Qc 0.5); scored "hsv" (Q2Qc 0.4); scored "pwgcm" (Q2Qc 0.3)].
Proof. qc_compute. Qed.


(** ** Path resolution *)

(** A place where resolution can only end: nothing there, or a file. *)
Definition terminal (o : option node) : Prop :=
  match o with
  | None | Some (File _) => True
  | Some Dir | Some (Link _) => False
  end.

Lemma walk_nil fuel t follow cur : walk fuel t follow cur [] = Ok cur.
Proof. by destruct fuel. Qed.

Lemma node_at_cons (t : fs) q : q ≠ [] → node_at t q = t !! q.
Proof. by destruct q. Qed.

Lemma snoc_not_nil (cur : path) c : cur ++ [c] ≠ [].
Proof. by destruct cur. Qed.

(** Resolution that ends at [q] still ends there after the entry at [q]
    has changed, as long as a link now at [q] is not followed. *)
Lemma walk_update (t t' : fs) (q : path) (f f' : bool) :
  (∀ p, p ≠ q → t' !! p = t !! p) →
  terminal (t !! q) →
  (f = true → f' = true) →
  (∀ tgt, t' !! q = Some (Link tgt) → f' = false) →
  ∀ fuel cur todo,
    walk fuel t f cur todo = Ok q → walk fuel t' f' cur todo = Ok q.
Proof.
  intros Hsame Hterm Hff Hlink.
  induction fuel as [|n IH]; intros cur [|c rest] H; simpl in *; try done.
  destruct (decide (cur ++ [c] = q)) as [Heq|Hne].
  - rewrite Heq in *.
    destruct (t !! q) as [[c'| |tgt]|]; try done;
      (destruct rest; [|done]);
      (destruct (t' !! q) as [[c''| |tgt]|] eqn:E'; try done;
        [apply walk_nil|by rewrite (Hlink tgt)]).
  - rewrite (Hsame _ Hne).
    destruct (t !! (cur ++ [c])) as [[c'| |tgt]|].
    + destruct rest; [|done]. by injection H.
    + by apply IH.
    + destruct rest as [|c2 rest].
      * destruct f; [|by injection H].
        assert (f' = true) as -> by auto. by apply IH.
      * destruct f'; by apply IH.
    + destruct rest; [|done]. by injection H.
Qed.

(** Resolution that ends elsewhere is not affected by a change at [q]. *)
Lemma walk_frame (t t' : fs) (q : path) (f : bool) :
  (∀ p, p ≠ q → t' !! p = t !! p) →
  terminal (t !! q) →
  ∀ fuel cur todo r,
    walk fuel t f cur todo = Ok r → r ≠ q → walk fuel t' f cur todo = Ok r.
Proof.
  intros Hsame Hterm.
  induction fuel as [|n IH]; intros cur [|c rest] r H Hr; simpl in *; try done.
  destruct (decide (cur ++ [c] = q)) as [Heq|Hne].
  - rewrite Heq in *.
    destruct (t !! q) as [[c'| |tgt]|]; try done;
      (destruct rest; [|done]); by injection H.
  - rewrite (Hsame _ Hne).
    destruct (t !! (cur ++ [c])) as [[c'| |tgt]|]; try done.
    + by apply IH.
    + destruct rest as [|c2 rest]; [destruct f; [|done]|]; by apply IH.
Qed.

Lemma walk_S_cons n t f cur c rest :
  walk (S n) t f cur (c :: rest) =
  match t !! (cur ++ [c]) with
  | None => match rest with [] => Ok (cur ++ [c]) | _ => Raise FileNotFoundError end
  | Some Dir => walk n t f (cur ++ [c]) rest
  | Some (File _) =>
      match rest with [] => Ok (cur ++ [c]) | _ => Raise NotADirectoryError end
  | Some (Link tgt) =>
      match rest, f with
      | [], false => Ok (cur ++ [c])
      | _, _ => walk n t f [] (tgt ++ rest)
      end
  end.
Proof. reflexivity. Qed.

Lemma walk_O_snoc t f cur (l : path) d :
  walk 0 t f cur (l ++ [d]) = Raise TooManyLinks.
Proof. by destruct l. Qed.

(** A path that resolves to something that exists has a parent that
    resolves, in one step less, to a directory holding the last component. *)
Lemma walk_split (t : fs) (d : string) :
  ∀ fuel cur todo r,
    walk (S fuel) t true cur (todo ++ [d]) = Ok r →
    is_Some (node_at t r) →
    node_at t cur = Some Dir →
    ∃ q, walk fuel t true cur todo = Ok q ∧ node_at t q = Some Dir
         ∧ is_Some (t !! (q ++ [d])).
Proof.
  induction fuel as [|n IH]; intros cur [|c rest] r H Hr Hcur;
    cbn [app] in H; rewrite walk_S_cons in H.
  1, 3: exists cur; split_and!; [apply walk_nil|done|];
    destruct (t !! (cur ++ [d])) as [x|] eqn:E; [done|];
    injection H as <-; by rewrite node_at_cons, E in Hr by apply snoc_not_nil.
  - destruct (t !! (cur ++ [c])) as [[c'| |tgt]|].
    + by destruct rest.
    + by rewrite walk_O_snoc in H.
    + assert (walk 0 t true [] ((tgt ++ rest) ++ [d]) = Ok r) as H'.
      { rewrite <-(assoc_L (++)). by destruct rest. }
      by rewrite walk_O_snoc in H'.
    + by destruct rest.
  - rewrite walk_S_cons.
    destruct (t !! (cur ++ [c])) as [[c'| |tgt]|] eqn:E.
    + by destruct rest.
    + apply (IH _ _ _ H Hr). by rewrite node_at_cons by apply snoc_not_nil.
    + assert (walk (S n) t true [] ((tgt ++ rest) ++ [d]) = Ok r) as H'.
      { rewrite <-(assoc_L (++)). by destruct rest. }
      destruct (IH _ _ _ H' Hr eq_refl) as (q & Hq & ?).
      exists q. split; [|done]. by destruct rest.
    + by destruct rest.
Qed.

Lemma resolve_split (t : fs) (root : path) (d : string) r :
  resolve t true (root ++ [d]) = Ok r →
  is_Some (node_at t r) →
  ∃ q, resolve t true root = Ok q ∧ node_at t q = Some Dir
       ∧ is_Some (t !! (q ++ [d])).
Proof.
  unfold resolve. rewrite length_app. simpl.
  replace (length root + 1 + walk_fuel)%nat with (S (length root + walk_fuel)) by lia.
  intros H Hr. by eapply walk_split.
Qed.

Lemma stat_Some_inv t p q n :
  stat t p = Ok (q, n) → resolve t true p = Ok q ∧ n = node_at t q.
Proof.
  unfold stat. destruct (resolve _ _ _); simpl; [|done]. by intros [= -> ->].
Qed.

Lemma lstat_Some_inv t p q n :
  lstat t p = Ok (q, n) → resolve t false p = Ok q ∧ n = node_at t q.
Proof.
  unfold lstat. destruct (resolve _ _ _); simpl; [|done]. by intros [= -> ->].
Qed.

Lemma stat_intro t p q :
  resolve t true p = Ok q → stat t p = Ok (q, node_at t q).
Proof. unfold stat. by intros ->. Qed.

Lemma lstat_intro t p q :
  resolve t false p = Ok q → lstat t p = Ok (q, node_at t q).
Proof. unfold lstat. by intros ->. Qed.

(** The same two facts about [resolve]. *)
Lemma resolve_update (t t' : fs) (q : path) (f f' : bool) p :
  (∀ p', p' ≠ q → t' !! p' = t !! p') →
  terminal (t !! q) →
  (f = true → f' = true) →
  (∀ tgt, t' !! q = Some (Link tgt) → f' = false) →
  resolve t f p = Ok q → resolve t' f' p = Ok q.
Proof. intros. unfold resolve in *. by eapply walk_update. Qed.

Lemma resolve_frame (t t' : fs) (q : path) (f : bool) p r :
  (∀ p', p' ≠ q → t' !! p' = t !! p') →
  terminal (t !! q) →
  resolve t f p = Ok r → r ≠ q → resolve t' f p = Ok r.
Proof. intros. unfold resolve in *. by eapply walk_frame. Qed.

Lemma is_dir_stat t p :
  is_dir t p = true ↔ ∃ q, stat t p = Ok (q, Some Dir).
Proof.
  unfold is_dir. split.
  - destruct (stat t p) as [[q [[| |]|]]|]; try done. by exists q.
  - by intros [q ->].
Qed.

(** ** Making directories *)

Lemma os_mkdir_is_dir t p t' : os_mkdir t p = Ok t' → is_dir t' p = true.
Proof.
  unfold os_mkdir. destruct (lstat t p) as [[q n]|] eqn:E; simpl; [|done].
  destruct n; [done|]. intros [= <-].
  apply lstat_Some_inv in E as [Hw Hn].
  assert (q ≠ []) as Hq by (by intros ->).
  rewrite node_at_cons in Hn by done.
  assert (resolve (<[q:=Dir]> t) true p = Ok q) as Hw'.
  { apply (resolve_update t (<[q:=Dir]> t) q false true); [..|exact Hw].
    - intros p' Hp'. by rewrite lookup_insert_ne.
    - by rewrite <-Hn.
    - done.
    - intros tgt. by rewrite lookup_insert_eq. }
  apply is_dir_stat. exists q. rewrite (stat_intro _ _ _ Hw').
  by rewrite node_at_cons, lookup_insert_eq.
Qed.

Lemma mkdir_exist_ok_is_dir t p t' :
  mkdir_exist_ok t p = Ok t' → is_dir t' p = true.
Proof.
  unfold mkdir_exist_ok. destruct (os_mkdir t p) as [t1|e] eqn:E.
  - intros [= <-]. by eapply os_mkdir_is_dir.
  - destruct e; try done; destruct (is_dir t p) eqn:D; try done; by intros [= <-].
Qed.

Lemma mkdir_is_dir t p t' : mkdir t p = Ok t' → is_dir t' p = true.
Proof.
  unfold mkdir. destruct (length p) as [|k]; simpl;
    (destruct (os_mkdir t p) as [t1|e] eqn:E;
      [intros [= <-]; by eapply os_mkdir_is_dir|]).
  - destruct e; try done; destruct (is_dir t p) eqn:D; try done; by intros [= <-].
  - destruct e; try done;
      try (destruct (is_dir t p) eqn:D; try done; by intros [= <-]).
    destruct p; [done|].
    destruct (mkdir_parents k t (parent (s :: p))); simpl; [|done].
    apply mkdir_exist_ok_is_dir.
Qed.


(** ** Staging: the failure path *)

Lemma exists_false_is_dir_false t p : exists_ t p = false → is_dir t p = false.
Proof.
  unfold exists_, is_dir. by destruct (stat t p) as [[q [[| |]|]]|].
Qed.

(** C9.  Whenever [prepare_dataset] returns [False], which it does when
    the source does not exist or holds no image file, the state is the
    one left by [mkdir(parents=True, exist_ok=True)] on the target
    directory: [{data_root}/images/{method}] is a directory after the
    call, and if there was nothing at that path before, the file system
    has changed. *)
Theorem prepare_dataset_false_leaves_target_dir (self : DataProcessor) (t t' : fs)
    (source_images : path) (method_name : string) (copy_mode : bool) :
  prepare_dataset self t source_images method_name copy_mode = (t', Ok false) →
  let target_dir := images_dir self ++ [method_name] in
  mkdir t target_dir = Ok t'
  ∧ (exists_ t' source_images = false ∨ _get_image_files t' source_images = [])
  ∧ is_dir t' target_dir = true
  ∧ (exists_ t target_dir = false → t' ≠ t).
Proof.
  intros H target_dir. unfold prepare_dataset in H. fold target_dir in H.
  destruct (mkdir t target_dir) as [t1|e] eqn:Hmk; [|done].
  assert (t1 = t' ∧ (exists_ t1 source_images = false
                     ∨ _get_image_files t1 source_images = [])) as [<- Hwhy].
  { destruct (exists_ t1 source_images).
    - change (negb true) with false in H. cbv iota in H.
      destruct (_get_image_files t1 source_images) as [|f fs'] eqn:Hfiles.
      + injection H as <-. auto.
      + by destruct (stage_all copy_mode target_dir t1 (f :: fs')) as [t2 [[]|]].
    - change (negb false) with true in H. cbv iota in H.
      injection H as <-. auto. }
  pose proof (mkdir_is_dir _ _ _ Hmk) as Hdir.
  split_and!; [done|done|done|].
  intros Hno ->. apply exists_false_is_dir_false in Hno. congruence.
Qed.

(** A source that does not exist, and one without images, staged into an
    empty file system. *)
Definition only_notes : fs :=
  list_to_map [ (["src"], Dir); (["src"; "notes.txt"], File (CBytes "n")) ].

Example prepare_no_source :
  prepare_dataset demo_processor ∅ ["nosuch"] "raw" false =
  (list_to_map [ (["data"], Dir); (["data"; "images"], Dir);
                 (["data"; "images"; "raw"], Dir) ], Ok false).
Proof. vm_refl. Qed.

Example prepare_no_images :
  prepare_dataset demo_processor only_notes ["src"] "raw" true =
  (list_to_map [ (["src"], Dir); (["src"; "notes.txt"], File (CBytes "n"));
                 (["data"], Dir); (["data"; "images"], Dir);
                 (["data"; "images"; "raw"], Dir) ], Ok false).
Proof. vm_refl. Qed.

Lemma prepare_dataset_false_leaves_target_dir_witness :
  is_dir (prepare_dataset demo_processor ∅ ["nosuch"] "raw" false).1
         ["data"; "images"; "raw"] = true
  ∧ (prepare_dataset demo_processor ∅ ["nosuch"] "raw" false).1 ≠ ∅.
Proof.
  pose proof (prepare_dataset_false_leaves_target_dir demo_processor ∅
    (prepare_dataset demo_processor ∅ ["nosuch"] "raw" false).1
    ["nosuch"] "raw" false) as H.
  destruct H as (_ & _ & Hdir & Hchanged).
  - vm_refl.
  - split; [exact Hdir|]. apply Hchanged. vm_refl.
Defined.


(** ** Writing and reading back *)

Lemma write_file_inv t p c t' :
  write_file t p c = Ok t' →
  ∃ q, resolve t true p = Ok q ∧ q ≠ [] ∧ terminal (t !! q)
       ∧ t' = <[q := File c]> t.
Proof.
  unfold write_file. destruct (stat t p) as [[q n]|] eqn:E; simpl; [|done].
  apply stat_Some_inv in E as [Hw ->]. intros H. exists q.
  destruct q as [|a q]; [done|]. simpl in H.
  destruct (t !! (a :: q)) as [[c'| |tgt]|] eqn:E; try done;
    injection H as <-; by split_and!.
Qed.

Lemma write_file_read t p c t' :
  write_file t p c = Ok t' → read_file t' p = Ok c ∧ exists_ t' p = true.
Proof.
  intros (q & Hw & Hq & Hterm & ->)%write_file_inv.
  assert (resolve (<[q:=File c]> t) true p = Ok q) as Hw'.
  { apply (resolve_update t (<[q:=File c]> t) q true true); [..|exact Hw].
    - intros p' Hp'. by rewrite lookup_insert_ne.
    - done.
    - done.
    - intros tgt. by rewrite lookup_insert_eq. }
  unfold read_file, exists_. rewrite (stat_intro _ _ _ Hw').
  by rewrite node_at_cons, lookup_insert_eq.
Qed.

Lemma write_file_is_dir t p c t' d :
  write_file t p c = Ok t' → is_dir t d = true → is_dir t' d = true.
Proof.
  intros (q & Hw & Hq & Hterm & ->)%write_file_inv [r Hr]%is_dir_stat.
  apply stat_Some_inv in Hr as [Hr Hn].
  assert (r ≠ q) as Hrq.
  { intros ->. rewrite node_at_cons in Hn by done. by rewrite <-Hn in Hterm. }
  assert (resolve (<[q:=File c]> t) true d = Ok r) as Hr'.
  { apply (resolve_frame t (<[q:=File c]> t) q true d r); [|done..].
    intros p' Hp'. by rewrite lookup_insert_ne. }
  apply is_dir_stat. exists r. rewrite (stat_intro _ _ _ Hr').
  destruct r as [|a r]; [done|]. simpl in *.
  rewrite lookup_insert_ne by congruence. by rewrite <-Hn.
Qed.

(** ** Listing a directory *)

Lemma parent_snoc (q : path) c : parent (q ++ [c]) = q.
Proof. apply removelast_last. Qed.

Lemma name_snoc (q : path) c : name (q ++ [c]) = c.
Proof. apply last_last. Qed.

Lemma child_of_Some q k c : child_of q k = Some c ↔ k = q ++ [c].
Proof.
  unfold child_of. split.
  - destruct k as [|a k]; [done|].
    destruct (decide (parent (a :: k) = q)) as [<-|]; [|done].
    intros [= <-]. by apply app_removelast_last.
  - intros ->. destruct (q ++ [c]) eqn:E; [by destruct q|]. rewrite <-E.
    by rewrite parent_snoc, name_snoc, decide_True.
Qed.

Lemma elem_of_children (t : fs) q c :
  c ∈ children t q ↔ is_Some (t !! (q ++ [c])).
Proof.
  unfold children. rewrite list_elem_of_omap. split.
  - intros (k & Hk & ->%child_of_Some).
    apply list_elem_of_fmap in Hk as ([k' n] & -> & Hk).
    apply elem_of_map_to_list in Hk. by exists n.
  - intros [n Hn]. exists (q ++ [c]). split; [|by apply child_of_Some].
    apply list_elem_of_fmap. exists (q ++ [c], n).
    split; [done|by apply elem_of_map_to_list].
Qed.

Lemma iterdir_lists_subdir t root d :
  is_dir t (root ++ [d]) = true →
  ∃ dirs, iterdir t root = Ok dirs ∧ root ++ [d] ∈ dirs.
Proof.
  intros [r Hr]%is_dir_stat. apply stat_Some_inv in Hr as [Hr Hn].
  destruct (resolve_split t root d r Hr) as (q & Hq & Hdir & Hd).
  { by rewrite <-Hn. }
  unfold iterdir. rewrite (stat_intro _ _ _ Hq). simpl. rewrite Hdir.
  eexists. split; [done|].
  apply list_elem_of_fmap. exists d. split; [done|by apply elem_of_children].
Qed.

(** ** The scan *)

Lemma scan_total t dirs :
  (∀ p, p ∈ dirs → ∃ r, load_row t p = Ok r) → ∃ data, scan t dirs = Ok data.
Proof.
  induction dirs as [|p dirs IH]; intros Hall; simpl; [by eexists|].
  destruct (Hall p) as [r ->]; [by left|].
  destruct IH as [data ->]; [intros; apply Hall; by right|].
  simpl. by eexists.
Qed.

Lemma scan_elem_of t dirs data p x :
  scan t dirs = Ok data → p ∈ dirs → load_row t p = Ok (Some x) → x ∈ data.
Proof.
  revert data. induction dirs as [|p' dirs IH]; intros data Hscan Hp Hx; simpl in *.
  - by apply elem_of_nil in Hp.
  - destruct (load_row t p') as [r|] eqn:Hr; simpl in Hscan; [|done].
    destruct (scan t dirs) as [data'|]; simpl in Hscan; [|done].
    injection Hscan as <-.
    apply elem_of_cons in Hp as [<-|Hp].
    + rewrite Hx in Hr. injection Hr as <-. by left.
    + specialize (IH data' eq_refl Hp Hx). destruct r; [by right|done].
Qed.

(** Every row that the loop builds carries the F1 of its own precision
    and recall, whatever the file stores under ['f1_score']. *)
Lemma load_row_f1 t p x :
  load_row t p = Ok (Some x) →
  F1_Score x = calculate_f1_score (Precision x) (Recall x).
Proof.
  unfold load_row. destruct (is_dir t p); simpl; [|done].
  destruct (exists_ t _); simpl; [|done].
  destruct (read_file t _) as [[j| |]|]; simpl; try done.
  by intros [= <-].
Qed.

Lemma scan_f1 t dirs data :
  scan t dirs = Ok data →
  ∀ x, x ∈ data → F1_Score x = calculate_f1_score (Precision x) (Recall x).
Proof.
  revert data. induction dirs as [|p dirs IH]; intros data Hscan x Hx; simpl in *.
  - injection Hscan as <-. by apply elem_of_nil in Hx.
  - destruct (load_row t p) as [r|] eqn:Hr; simpl in Hscan; [|done].
    destruct (scan t dirs) as [data'|]; simpl in Hscan; [|done].
    injection Hscan as <-. destruct r as [y|]; [|by eapply IH].
    apply elem_of_cons in Hx as [->|Hx]; [by eapply load_row_f1|by eapply IH].
Qed.

Lemma table_elem_of `{Pandas} t root data :
  collect_rows t root = Ok data →
  ∃ df, create_comparison_table t root = Ok df ∧ ∀ x, x ∈ df ↔ x ∈ data.
Proof.
  intros Hc. unfold create_comparison_table. rewrite Hc. simpl.
  eexists. split; [done|]. intros x. destruct data as [|y data]; [done|].
  by rewrite (sort_values_perm mAP_50_95 (y :: data)).
Qed.

(** ** Round trip through [metrics.json] *)

Lemma metrics_path (root : path) (d : string) :
  root ++ [d; "metrics.json"] = (root ++ [d]) ++ ["metrics.json"].
Proof. by rewrite <-(assoc_L (++)). Qed.

(** What [save_metrics] leaves on disk when it returns. *)
Lemma save_metrics_on_disk self w metrics m method_name model_name root d self' w' :
  w_store w !! metrics = Some m →
  save_metrics self w metrics method_name model_name
    (root ++ [d; "metrics.json"]) = (self', w', Ok ()) →
  let f1 := calculate_f1_score (get m "precision" 0) (get m "recall" 0) in
  is_dir (w_fs w') (root ++ [d]) = true
  ∧ exists_ (w_fs w') ((root ++ [d]) ++ ["metrics.json"]) = true
  ∧ read_file (w_fs w') ((root ++ [d]) ++ ["metrics.json"])
    = Ok (CJson (json_of model_name method_name (<["f1_score" := f1]> m))).
Proof.
  intros Hm Hsave f1. unfold save_metrics in Hsave.
  rewrite metrics_path, parent_snoc, Hm in Hsave. fold f1 in Hsave.
  destruct (mkdir (w_fs w) (root ++ [d])) as [t1|] eqn:Hmk; [|done].
  destruct (write_file t1 _ _) as [t2|] eqn:Hwr; [|done].
  injection Hsave as _ <-. simpl.
  destruct (write_file_read _ _ _ _ Hwr) as [Hread Hex].
  split_and!; [|done|done].
  eapply write_file_is_dir; [exact Hwr|]. by eapply mkdir_is_dir.
Qed.

(** C6.  After [save_metrics] has written [{root}/{d}/metrics.json],
    and provided every entry of the results root loads,
    [create_comparison_table] over that root returns a table with a row
    for the saved method whose precision and recall are the stored ones
    and whose F1-Score is [calculate_f1_score] of them.  Every row of the
    table has its F1-Score computed from its own precision and recall:
    the value stored under ['f1_score'] is never read. *)
Theorem saved_metrics_reload `{Pandas} (self self' : MetricsCalculator)
    (w w' : world) (metrics : loc) (m : gmap string Qc)
    (method_name model_name : string) (root : path) (d : string) :
  w_store w !! metrics = Some m →
  save_metrics self w metrics method_name model_name
    (root ++ [d; "metrics.json"]) = (self', w', Ok ()) →
  (∀ dirs p, iterdir (w_fs w') root = Ok dirs → p ∈ dirs →
     ∃ r, load_row (w_fs w') p = Ok r) →
  ∃ df x, create_comparison_table (w_fs w') root = Ok df
    ∧ x ∈ df
    ∧ Method x = method_name ∧ Model x = model_name
    ∧ Precision x = get m "precision" 0
    ∧ Recall x = get m "recall" 0
    ∧ F1_Score x = calculate_f1_score (get m "precision" 0) (get m "recall" 0)
    ∧ ∀ y, y ∈ df → F1_Score y = calculate_f1_score (Precision y) (Recall y).
Proof.
  intros Hm Hsave Hloads.
  destruct (save_metrics_on_disk _ _ _ _ _ _ _ _ _ _ Hm Hsave) as (Hdir & Hex & Hread).
  destruct (iterdir_lists_subdir _ _ _ Hdir) as (dirs & Hdirs & Hin).
  destruct (scan_total (w_fs w') dirs) as [data Hscan]; [by eauto|].
  assert (collect_rows (w_fs w') root = Ok data) as Hc.
  { unfold collect_rows. by rewrite Hdirs. }
  destruct (table_elem_of _ _ _ Hc) as (df & Hdf & Hmem).
  set (f1 := calculate_f1_score (get m "precision" 0) (get m "recall" 0)) in *.
  set (m' := <["f1_score" := f1]> m) in *.
  assert (get m' "precision" 0 = get m "precision" 0
          ∧ get m' "recall" 0 = get m "recall" 0) as [Hp Hr].
  { unfold get, m'. by rewrite !lookup_insert_ne. }
  pose (x := {| Method := method_name; Model := model_name;
                mAP_50 := get m' "mAP@0.5" 0;
                mAP_50_95 := get m' "mAP@0.5:0.95" 0;
                mAP_75 := get m' "mAP@0.75" 0;
                Precision := get m' "precision" 0;
                Recall := get m' "recall" 0;
                F1_Score := calculate_f1_score (get m' "precision" 0)
                                               (get m' "recall" 0) |}).
  assert (load_row (w_fs w') (root ++ [d]) = Ok (Some x)) as Hx.
  { unfold load_row. by rewrite Hdir, Hex, Hread. }
  exists df, x. split_and!; try done.
  - apply Hmem. by eapply scan_elem_of.
  - simpl. by rewrite Hp, Hr.
  - intros y Hy. apply Hmem in Hy. by eapply scan_f1.
Qed.

Lemma demo_saved_loads dirs p :
  iterdir (w_fs demo_saved.1.2) ["out"] = Ok dirs → p ∈ dirs →
  ∃ r, load_row (w_fs demo_saved.1.2) p = Ok r.
Proof.
  assert (iterdir (w_fs demo_saved.1.2) ["out"] = Ok [["out"; "raw"]]) as ->
    by vm_refl.
  intros [= <-] ->%list_elem_of_singleton.
  destruct (load_row (w_fs demo_saved.1.2) ["out"; "raw"]) eqn:E;
    [by eexists|]. vm_compute in E. discriminate E.
Qed.

Lemma saved_metrics_reload_witness :
  ∃ df x, @create_comparison_table stable_pandas (w_fs demo_saved.1.2) ["out"] = Ok df
    ∧ x ∈ df
    ∧ Method x = "raw" ∧ Model x = "yolov8n"
    ∧ Precision x = get demo_metrics "precision" 0
    ∧ Recall x = get demo_metrics "recall" 0
    ∧ F1_Score x = calculate_f1_score (get demo_metrics "precision" 0)
                                      (get demo_metrics "recall" 0)
    ∧ ∀ y, y ∈ df → F1_Score y = calculate_f1_score (Precision y) (Recall y).
Proof.
  apply (@saved_metrics_reload stable_pandas demo_calculator demo_saved.1.1
           demo_world demo_saved.1.2 0 demo_metrics "raw" "yolov8n" ["out"] "raw").
  - reflexivity.
  - vm_refl.
  - apply demo_saved_loads.
Defined.

(** A [metrics.json] whose stored ['f1_score'] is wrong: the table shows
    the F1 of the stored precision and recall, not the stored number. *)
Definition results_tampered : fs :=
  list_to_map
    [ (["out"], Dir); (["out"; "raw"], Dir);
      (["out"; "raw"; "metrics.json"],
       File (CJson (json_of "yolov8n" "raw"
         (<["f1_score" := Q2Qc 0.99]> (metrics_of (Q2Qc 0.4)))))) ].

Example table_tampered :
  @create_comparison_table stable_pandas results_tampered ["out"] =
  Ok [Row "raw" "yolov8n" 0 (Q2Qc 0.4) 0 (Q2Qc 0.5) (Q2Qc 0.5) (Q2Qc 0.5)].
Proof. qc_compute. Qed.

(** ** Staging by symbolic links *)

(** What one turn of the loop does, in link mode, to a target path that
    holds a link whose own target is gone: [exists()] follows the link
    and answers [False], so nothing is removed, and [os.symlink] finds
    the path taken. *)
Lemma stage_file_over_dangling_link (target_dir : path) (t : fs)
    (img_file q tgt : path) :
  lstat t (target_dir ++ [name img_file]) = Ok (q, Some (Link tgt)) →
  exists_ t (target_dir ++ [name img_file]) = false →
  stage_file false target_dir t img_file = (t, Raise FileExistsError).
Proof.
  intros Hl He. unfold stage_file. rewrite He. unfold symlink. by rewrite Hl.
Qed.

(** A directory staged earlier from [/old], which is gone since, and a
    new source [/src] with an image of the same name. *)
Definition stale_stage : fs :=
  list_to_map
    [ (["src"], Dir); (["src"; "a.jpg"], File (CBytes "A"));
      (["data"], Dir); (["data"; "images"], Dir); (["data"; "images"; "raw"], Dir);
      (["data"; "images"; "raw"; "a.jpg"], Link ["old"; "a.jpg"]) ].

(** C4, where the code departs from it: with a stale link at a target
    path, [prepare_dataset] in link mode does not remove the link; it
    raises [FileExistsError] and leaves the directory as it was, stale
    link included. *)
Theorem prepare_dataset_keeps_dangling_link :
  lstat stale_stage ["data"; "images"; "raw"; "a.jpg"]
    = Ok (["data"; "images"; "raw"; "a.jpg"], Some (Link ["old"; "a.jpg"]))
  ∧ exists_ stale_stage ["data"; "images"; "raw"; "a.jpg"] = false
  ∧ _get_image_files stale_stage ["src"] = [["src"; "a.jpg"]]
  ∧ prepare_dataset demo_processor stale_stage ["src"] "raw" false
    = (stale_stage, Raise FileExistsError).
Proof. split_and!; vm_refl. Qed.

(** A source with two images, staged twice in a row: the second run
    succeeds and leaves exactly what the first left. *)
Definition two_images : fs :=
  list_to_map
    [ (["src"], Dir); (["src"; "a.jpg"], File (CBytes "A"));
      (["src"; "b.png"], File (CBytes "B")) ].

Definition two_images_staged : fs :=
  list_to_map
    [ (["src"], Dir); (["src"; "a.jpg"], File (CBytes "A"));
      (["src"; "b.png"], File (CBytes "B"));
      (["data"], Dir); (["data"; "images"], Dir); (["data"; "images"; "raw"], Dir);
      (["data"; "images"; "raw"; "a.jpg"], Link ["src"; "a.jpg"]);
      (["data"; "images"; "raw"; "b.png"], Link ["src"; "b.png"]) ].

Example stage_once :
  prepare_dataset demo_processor two_images ["src"] "raw" false
  = (two_images_staged, Ok true).
Proof. vm_refl. Qed.

Example stage_twice :
  prepare_dataset demo_processor two_images_staged ["src"] "raw" false
  = (two_images_staged, Ok true).
Proof. vm_refl. Qed.

(** ** Resolution in a larger file system *)

(** Resolution that ends at something that exists is the same in every
    file system that has all the entries of this one. *)
Lemma walk_mono (t t' : fs) :
  t ⊆ t' →
  ∀ fuel f cur todo r,
    walk fuel t f cur todo = Ok r → is_Some (node_at t r) →
    walk fuel t' f cur todo = Ok r.
Proof.
  intros Hsub. induction fuel as [|n IH]; intros f cur [|c rest] r H Hr;
    try done.
  rewrite walk_S_cons in *.
  destruct (t !! (cur ++ [c])) as [x|] eqn:E.
  - rewrite (lookup_weaken _ _ _ _ E Hsub).
    destruct x as [c'| |tgt]; [done|by apply IH|].
    destruct rest, f; try done; by apply IH.
  - destruct rest; [|done]. injection H as <-.
    rewrite node_at_cons, E in Hr by apply snoc_not_nil. by destruct Hr.
Qed.

Lemma resolve_mono (t t' : fs) f p r :
  t ⊆ t' → resolve t f p = Ok r → is_Some (node_at t r) →
  resolve t' f p = Ok r.
Proof. intros. unfold resolve in *. by eapply walk_mono. Qed.

(** Where a path of at least one component resolves: under the
    directory its parent resolves to, unless its last component is a
    link that is followed. *)
Lemma walk_parent (t : fs) (d : string) :
  ∀ fuel f cur todo r,
    walk (S fuel) t f cur (todo ++ [d]) = Ok r →
    node_at t cur = Some Dir →
    ∃ q, walk fuel t true cur todo = Ok q ∧ node_at t q = Some Dir
         ∧ (r = q ++ [d]
            ∨ (f = true ∧ ∃ tgt, t !! (q ++ [d]) = Some (Link tgt))).
Proof.
  induction fuel as [|n IH]; intros f cur [|c rest] r H Hcur;
    cbn [app] in H; rewrite walk_S_cons in H.
  1, 3: exists cur; split_and!; [apply walk_nil|done|];
    destruct (t !! (cur ++ [d])) as [[c'| |tgt]|] eqn:E;
      [left; by injection H|left; rewrite walk_nil in H; by injection H
      | |left; by injection H];
    destruct f; [right; eauto|left; by injection H].
  - destruct (t !! (cur ++ [c])) as [[c'| |tgt]|].
    + by destruct rest.
    + by rewrite walk_O_snoc in H.
    + assert (walk 0 t f [] ((tgt ++ rest) ++ [d]) = Ok r) as H'.
      { rewrite <-(assoc_L (++)). by destruct rest, f. }
      by rewrite walk_O_snoc in H'.
    + by destruct rest.
  - rewrite walk_S_cons.
    destruct (t !! (cur ++ [c])) as [[c'| |tgt]|] eqn:E.
    + by destruct rest.
    + apply (IH _ _ _ _ H). by rewrite node_at_cons by apply snoc_not_nil.
    + assert (walk (S n) t f [] ((tgt ++ rest) ++ [d]) = Ok r) as H'.
      { rewrite <-(assoc_L (++)). by destruct rest, f. }
      destruct (IH _ _ _ _ H' eq_refl) as (q & Hq & ?).
      exists q. split; [|done]. by destruct rest.
    + by destruct rest.
Qed.

Lemma resolve_parent (t : fs) f (dir : path) (d : string) r :
  resolve t f (dir ++ [d]) = Ok r →
  ∃ q, resolve t true dir = Ok q ∧ node_at t q = Some Dir
       ∧ (r = q ++ [d]
          ∨ (f = true ∧ ∃ tgt, t !! (q ++ [d]) = Some (Link tgt))).
Proof.
  unfold resolve. rewrite length_app. simpl.
  replace (length dir + 1 + walk_fuel)%nat with (S (length dir + walk_fuel)) by lia.
  intros H. by eapply walk_parent.
Qed.

(** The converse: one more component under a directory. *)
Lemma walk_snoc (t : fs) (d : string) (f : bool) :
  ∀ fuel cur todo q,
    walk fuel t true cur todo = Ok q →
    node_at t q = Some Dir →
    (∀ tgt, t !! (q ++ [d]) = Some (Link tgt) → f = false) →
    walk (S fuel) t f cur (todo ++ [d]) = Ok (q ++ [d]).
Proof.
  induction fuel as [|n IH]; intros cur [|c rest] q H Hq Hlink;
    cbn [app]; rewrite walk_S_cons; try done.
  1, 2: rewrite walk_nil in H; injection H as <-;
    destruct (t !! (cur ++ [d])) as [[c'| |tgt]|] eqn:E; try done;
      first [apply walk_nil|by rewrite (Hlink tgt)].
  rewrite walk_S_cons in H.
  destruct (t !! (cur ++ [c])) as [[c'| |tgt]|] eqn:E.
  - destruct rest; [|done]. injection H as <-.
    rewrite node_at_cons, E in Hq by apply snoc_not_nil. done.
  - by apply IH.
  - assert (walk n t true [] (tgt ++ rest) = Ok q) as H' by (by destruct rest).
    apply IH in H'; [|done..]. rewrite <-(assoc_L (++)) in H'.
    by destruct rest, f.
  - destruct rest; [|done]. injection H as <-.
    rewrite node_at_cons, E in Hq by apply snoc_not_nil. done.
Qed.

Lemma resolve_snoc (t : fs) (f : bool) (dir : path) (d : string) q :
  resolve t true dir = Ok q →
  node_at t q = Some Dir →
  (∀ tgt, t !! (q ++ [d]) = Some (Link tgt) → f = false) →
  resolve t f (dir ++ [d]) = Ok (q ++ [d]).
Proof.
  unfold resolve. rewrite length_app. simpl.
  replace (length dir + 1 + walk_fuel)%nat with (S (length dir + walk_fuel)) by lia.
  intros. by apply walk_snoc.
Qed.

(** ** Staging into an empty directory *)

Lemma child_ne (q : path) (a b : string) : a ≠ b → q ++ [b] ≠ q ++ [a].
Proof. intros Hne [= ?]%app_inv_head. by apply Hne. Qed.

Section Staging.
Variable t0 : fs.
Variables target_dir Q : path.
Hypothesis target_resolves : resolve t0 true target_dir = Ok Q.
Hypothesis target_is_dir : node_at t0 Q = Some Dir.
Hypothesis target_empty : ∀ d, t0 !! (Q ++ [d]) = None.

(** The states the loop goes through: everything of the start is still
    there, and what is new lies directly in the target directory. *)
Definition staging (t : fs) : Prop :=
  t0 ⊆ t ∧ ∀ k, is_Some (t !! k) → is_Some (t0 !! k) ∨ ∃ d, k = Q ++ [d].

Definition files_only (t : fs) : Prop := ∀ d, terminal (t !! (Q ++ [d])).

Lemma staging_start : staging t0.
Proof using Type. split; [done|auto]. Qed.

Lemma files_only_start : files_only t0.
Proof using target_empty. intros d. by rewrite target_empty. Qed.

Lemma staging_insert t d x : staging t → staging (<[Q ++ [d] := x]> t).
Proof using target_empty.
  intros [Hsub Hkeys]. split.
  - apply map_subseteq_spec. intros i y Hi.
    rewrite lookup_insert_ne by (intros <-; by rewrite target_empty in Hi).
    by eapply lookup_weaken.
  - intros k. destruct (decide (k = Q ++ [d])) as [->|Hne]; [by eauto|].
    rewrite lookup_insert_ne by done. apply Hkeys.
Qed.

Lemma staging_delete t d : staging t → staging (delete (Q ++ [d]) t).
Proof using target_empty.
  intros [Hsub Hkeys]. split.
  - apply map_subseteq_spec. intros i y Hi.
    rewrite lookup_delete_ne by (intros <-; by rewrite target_empty in Hi).
    by eapply lookup_weaken.
  - intros k. destruct (decide (k = Q ++ [d])) as [->|Hne]; [by eauto|].
    rewrite lookup_delete_ne by done. apply Hkeys.
Qed.

Lemma staging_node_at t r :
  staging t → is_Some (node_at t0 r) → node_at t r = node_at t0 r.
Proof using Type.
  intros [Hsub _] [x Hx]. destruct r as [|a r]; [done|]. simpl in *.
  rewrite Hx. by eapply lookup_weaken.
Qed.

Lemma staging_target t :
  staging t → resolve t true target_dir = Ok Q ∧ node_at t Q = Some Dir.
Proof using target_resolves target_is_dir.
  intros Hst. split.
  - eapply resolve_mono; [apply Hst|done|by rewrite target_is_dir].
  - rewrite staging_node_at; [done|done|by rewrite target_is_dir].
Qed.

Lemma staging_child t f d r :
  staging t → resolve t f (target_dir ++ [d]) = Ok r →
  r = Q ++ [d] ∨ (f = true ∧ ∃ tgt, t !! (Q ++ [d]) = Some (Link tgt)).
Proof using target_resolves target_is_dir.
  intros Hst Hr. destruct (resolve_parent _ _ _ _ _ Hr) as (q & Hq & _ & H).
  destruct (staging_target t Hst) as [HQ _]. rewrite HQ in Hq.
  by injection Hq as <-.
Qed.

Lemma staging_child_back t f d :
  staging t → (∀ tgt, t !! (Q ++ [d]) = Some (Link tgt) → f = false) →
  resolve t f (target_dir ++ [d]) = Ok (Q ++ [d]).
Proof using target_resolves target_is_dir.
  intros Hst Hl. destruct (staging_target t Hst) as [HQ Hdir].
  by apply resolve_snoc.
Qed.

Lemma staging_unlink t d t1 :
  staging t → unlink t (target_dir ++ [d]) = Ok t1 → t1 = delete (Q ++ [d]) t.
Proof using target_resolves target_is_dir.
  intros Hst. unfold unlink.
  destruct (lstat t (target_dir ++ [d])) as [[q n]|] eqn:E; simpl; [|done].
  apply lstat_Some_inv in E as [Hq ->].
  destruct (staging_child _ _ _ _ Hst Hq) as [->|[? _]]; [|done].
  by destruct (node_at t (Q ++ [d])) as [[| |]|]; intros ?; simplify_eq.
Qed.

Lemma staging_symlink t tgt d t' :
  staging t → symlink t tgt (target_dir ++ [d]) = Ok t' →
  t' = <[Q ++ [d] := Link tgt]> t.
Proof using target_resolves target_is_dir.
  intros Hst. unfold symlink.
  destruct (lstat t (target_dir ++ [d])) as [[q n]|] eqn:E; simpl; [|done].
  apply lstat_Some_inv in E as [Hq ->].
  destruct (staging_child _ _ _ _ Hst Hq) as [->|[? _]]; [|done].
  by destruct (node_at t (Q ++ [d])); intros ?; simplify_eq.
Qed.

Lemma staging_stat_child t d :
  staging t → files_only t →
  stat t (target_dir ++ [d]) = Ok (Q ++ [d], t !! (Q ++ [d])).
Proof using target_resolves target_is_dir.
  intros Hst Hfiles.
  rewrite (stat_intro t _ (Q ++ [d])).
  - by rewrite node_at_cons by apply snoc_not_nil.
  - apply staging_child_back; [done|]. intros tgt E.
    specialize (Hfiles d). by rewrite E in Hfiles.
Qed.

Lemma staging_copy2 t src d t' :
  staging t → files_only t → copy2 t src (target_dir ++ [d]) = Ok t' →
  ∃ c, read_file t src = Ok c ∧ t' = <[Q ++ [d] := File c]> t.
Proof using target_resolves target_is_dir.
  intros Hst Hfiles. unfold copy2.
  assert (is_dir t (target_dir ++ [d]) = false) as ->.
  { unfold is_dir. rewrite staging_stat_child by done.
    specialize (Hfiles d). by destruct (t !! (Q ++ [d])) as [[| |]|]. }
  destruct (samefile t src (target_dir ++ [d])); [done|].
  destruct (read_file t src) as [c|]; simpl; [|done].
  unfold write_file. rewrite staging_stat_child by done. simpl.
  intros H. exists c. split; [done|].
  by destruct (t !! (Q ++ [d])) as [[| |]|]; simplify_eq.
Qed.

Lemma staging_read_file t f :
  staging t → is_file t0 f = true → read_file t f = read_file t0 f.
Proof using Type.
  intros Hst. unfold is_file, read_file.
  destruct (stat t0 f) as [[r [[c| |]|]]|] eqn:E; try done. intros _.
  apply stat_Some_inv in E as [Hr Hn].
  rewrite (stat_intro t f r).
  - simpl. by rewrite staging_node_at, <-Hn by (by rewrite <-?Hn).
  - eapply resolve_mono; [apply Hst|done|by rewrite <-Hn].
Qed.

(** What one turn leaves at the target path of [img_file]. *)
Definition staged (copy_mode : bool) (img_file : path) (x : node) : Prop :=
  if copy_mode
  then ∃ c, x = File c ∧ (is_file t0 img_file = true → read_file t0 img_file = Ok c)
  else x = Link img_file.

Lemma stage_file_staging copy_mode t img_file t' :
  staging t → (copy_mode = true → files_only t) →
  stage_file copy_mode target_dir t img_file = (t', Ok ()) →
  ∃ x, t' = <[Q ++ [name img_file] := x]> t ∧ staged copy_mode img_file x.
Proof using target_resolves target_is_dir target_empty.
  intros Hst Hfiles. unfold stage_file, staged. destruct copy_mode.
  - destruct (copy2 t img_file _) as [t1|] eqn:E; [|done]. intros [= <-].
    destruct (staging_copy2 _ _ _ _ Hst (Hfiles eq_refl) E) as (c & Hc & ->).
    exists (File c). split; [done|]. exists c. split; [done|].
    intros Hf. by rewrite <-(staging_read_file t) by done.
  - destruct (exists_ t _).
    + destruct (unlink t _) as [t1|] eqn:E1; [|done].
      destruct (symlink t1 _ _) as [t2|] eqn:E2; [|done]. intros [= <-].
      apply staging_unlink in E1 as ->; [|done].
      apply staging_symlink in E2 as ->; [|by apply staging_delete].
      exists (Link img_file). by rewrite insert_delete_eq.
    + destruct (symlink t _ _) as [t2|] eqn:E2; [|done]. intros [= <-].
      apply staging_symlink in E2 as ->; [|done]. by eexists.
Qed.

(** The whole loop: the entries of the target directory come to be the
    base names of the files, each holding what the last file of that
    name left. *)
Lemma stage_all_staging copy_mode image_files : ∀ t t',
  staging t → (copy_mode = true → files_only t) →
  stage_all copy_mode target_dir t image_files = (t', Ok ()) →
  staging t'
  ∧ (∀ d, is_Some (t' !! (Q ++ [d])) ↔
          is_Some (t !! (Q ++ [d])) ∨ d ∈ name <$> image_files)
  ∧ (∀ d, d ∉ name <$> image_files → t' !! (Q ++ [d]) = t !! (Q ++ [d]))
  ∧ (∀ pre f post, image_files = pre ++ f :: post → name f ∉ name <$> post →
       ∃ x, t' !! (Q ++ [name f]) = Some x ∧ staged copy_mode f x).
Proof using target_resolves target_is_dir target_empty.
  induction image_files as [|g more IH]; intros t t' Hst Hfiles H; simpl in H.
  - injection H as <-. split_and!; [done| |done|].
    + intros d. rewrite fmap_nil, elem_of_nil. tauto.
    + by intros [|??] ???.
  - destruct (stage_file copy_mode target_dir t g) as [t1 [[]|]] eqn:E; [|done].
    destruct (stage_file_staging _ _ _ _ Hst Hfiles E) as (x & -> & Hx).
    assert (copy_mode = true → files_only (<[Q ++ [name g] := x]> t)) as Hfiles'.
    { intros -> d. unfold staged in Hx. destruct Hx as (c & -> & _).
      destruct (decide (d = name g)) as [->|Hne].
      - by rewrite lookup_insert_eq.
      - rewrite lookup_insert_ne by (by apply child_ne). by apply Hfiles. }
    destruct (IH _ _ (staging_insert _ (name g) x Hst) Hfiles' H)
      as (Hst' & Hkeys & Hframe & Hlast).
    split_and!; [done| | |].
    + intros d. rewrite Hkeys, fmap_cons, elem_of_cons.
      destruct (decide (d = name g)) as [->|Hne].
      * rewrite lookup_insert_eq. split; [auto|by eauto].
      * rewrite lookup_insert_ne by (by apply child_ne). tauto.
    + intros d Hd. rewrite fmap_cons, not_elem_of_cons in Hd.
      destruct Hd as [Hne Hd]. rewrite Hframe by done.
      rewrite lookup_insert_ne by (by apply child_ne). done.
    + intros [|g' pre] f post.
      * intros [= <- <-] Hnot. exists x. split; [|done].
        rewrite Hframe by done. apply lookup_insert_eq.
      * intros [= <- ->] Hnot. by apply (Hlast pre f post).
Qed.

End Staging.

(** ** Files of the same name: one target *)

#[local] Set Warnings "-clear-no-such-hyp".

Lemma NoDup_omap_inj {A B} (f : A → option B) (l : list A) :
  (∀ x y z, f x = Some z → f y = Some z → x = y) →
  NoDup l → NoDup (omap f l).
Proof.
  intros Hinj. induction 1 as [|x l Hx Hl IH]; simpl; [constructor|].
  destruct (f x) as [z|] eqn:E; [|done].
  constructor; [|done]. rewrite list_elem_of_omap. intros (y & Hy & Ey).
  by rewrite (Hinj _ _ _ E Ey) in Hx.
Qed.

Lemma NoDup_children (t : fs) q : NoDup (children t q).
Proof.
  unfold children. apply NoDup_omap_inj; [|apply NoDup_fst_map_to_list].
  intros x y z Hx%child_of_Some Hy%child_of_Some. congruence.
Qed.

Lemma iterdir_inv t p entries :
  iterdir t p = Ok entries →
  ∃ q, resolve t true p = Ok q ∧ node_at t q = Some Dir
       ∧ entries = (λ c, p ++ [c]) <$> children t q.
Proof.
  unfold iterdir. destruct (stat t p) as [[q n]|] eqn:E; simpl; [|done].
  apply stat_Some_inv in E as [Hq ->].
  destruct (node_at t q) as [[| |]|] eqn:En; try done.
  intros [= <-]. by exists q.
Qed.

Lemma iterdir_intro t p q :
  resolve t true p = Ok q → node_at t q = Some Dir →
  iterdir t p = Ok ((λ c, p ++ [c]) <$> children t q).
Proof. intros Hq Hn. unfold iterdir. by rewrite (stat_intro _ _ _ Hq), Hn. Qed.

Lemma size_list_to_set_le (l : list string) :
  (size (list_to_set l : gset string) ≤ length l)%nat.
Proof.
  induction l as [|x l IH]; [done|].
  rewrite list_to_set_cons, size_union_alt, size_singleton, length_cons.
  pose proof (subseteq_size (list_to_set l ∖ {[x]}) (list_to_set l : gset string)
                ltac:(set_solver)).
  lia.
Qed.

(** A list in which a name occurs twice has fewer names than elements. *)
Lemma size_list_to_set_twice (pre mid post : list string) (n : string) :
  (size (list_to_set (pre ++ n :: mid ++ n :: post) : gset string)
   < length (pre ++ n :: mid ++ n :: post))%nat.
Proof.
  assert ((list_to_set (pre ++ n :: mid ++ n :: post) : gset string)
          = list_to_set (pre ++ n :: mid ++ post)) as -> by set_solver.
  pose proof (size_list_to_set_le (pre ++ n :: mid ++ post)) as H.
  rewrite !length_app in *. simpl in *. rewrite !length_app in *. simpl. lia.
Qed.

Lemma _get_image_files_is_file t directory f :
  f ∈ _get_image_files t directory → is_file t f = true.
Proof.
  unfold _get_image_files. intros [H _]%list_elem_of_filter.
  by apply andb_prop in H as [_ ?].
Qed.

(** C10, with the two conditions it needs.  [prepare_dataset] stages each
    matched file under its base name alone, so two files of the same
    base name have the same target path.  When the target directory is
    empty before the files are staged and the call returns [True], its
    entries are exactly the base names of the matched files, one entry
    per name: as many entries as there are distinct names, and fewer
    than matched files as soon as two files share a name.  Under each
    name lies what the last file of that name left: the link to it, or
    a copy of it. *)
Theorem staging_is_flat_by_base_name (self : DataProcessor) (t t1 t' : fs)
    (source_images : path) (method_name : string) (copy_mode : bool) :
  let target_dir := images_dir self ++ [method_name] in
  let image_files := _get_image_files t1 source_images in
  mkdir t target_dir = Ok t1 →
  iterdir t1 target_dir = Ok [] →
  prepare_dataset self t source_images method_name copy_mode = (t', Ok true) →
  ∃ entries, iterdir t' target_dir = Ok entries
    ∧ (∀ e, e ∈ entries ↔ ∃ f, f ∈ image_files ∧ e = target_dir ++ [name f])
    ∧ length entries = size (list_to_set (name <$> image_files) : gset string)
    ∧ (∀ pre f1 mid f2 post,
         image_files = pre ++ f1 :: mid ++ f2 :: post → name f1 = name f2 →
         target_dir ++ [name f1] = target_dir ++ [name f2]
         ∧ (length entries < length image_files)%nat)
    ∧ (∀ pre f post,
         image_files = pre ++ f :: post → name f ∉ name <$> post →
         if copy_mode
         then read_file t' (target_dir ++ [name f]) = read_file t1 f
         else ∃ q, lstat t' (target_dir ++ [name f]) = Ok (q, Some (Link f))).
Proof.
  intros target_dir image_files Hmk Hempty Hrun.
  destruct (iterdir_inv _ _ _ Hempty) as (Q & HQ & HQdir & Hnone).
  symmetry in Hnone. apply fmap_nil_inv in Hnone.
  assert (∀ d, t1 !! (Q ++ [d]) = None) as Hfresh.
  { intros d. apply eq_None_not_Some. rewrite <-elem_of_children, Hnone.
    apply not_elem_of_nil. }
  assert (stage_all copy_mode target_dir t1 image_files = (t', Ok ())) as Hloop.
  { unfold prepare_dataset in Hrun. fold target_dir in Hrun. rewrite Hmk in Hrun.
    destruct (exists_ t1 source_images); [|done].
    change (negb true) with false in Hrun. cbv iota zeta in Hrun.
    unfold image_files.
    destruct (_get_image_files t1 source_images) as [|g more]; [done|].
    by destruct (stage_all copy_mode target_dir t1 (g :: more)) as [t2 [[]|]];
      simplify_eq. }
  destruct (stage_all_staging t1 target_dir Q HQ HQdir Hfresh copy_mode
              image_files t1 t' (staging_start _ _)
              (λ _, files_only_start _ _ Hfresh) Hloop)
    as (Hst & Hkeys & _ & Hlast).
  destruct (staging_target t1 target_dir Q HQ HQdir t' Hst) as [HQ' HQdir'].
  assert (∀ c, c ∈ children t' Q ↔ c ∈ name <$> image_files) as Hchildren.
  { intros c. rewrite elem_of_children, Hkeys, Hfresh.
    split; [intros [[? [=]]|?]; done|auto]. }
  exists ((λ c, target_dir ++ [c]) <$> children t' Q).
  assert (length (children t' Q)
          = size (list_to_set (name <$> image_files) : gset string)) as Hsize.
  { unfold size, set_size. simpl. apply Permutation_length.
    apply NoDup_Permutation; [apply NoDup_children|apply NoDup_elements|].
    intros c. by rewrite Hchildren, elem_of_elements, elem_of_list_to_set. }
  split_and!.
  - by apply iterdir_intro.
  - intros e. rewrite list_elem_of_fmap. split.
    + intros (c & -> & Hc). apply Hchildren, list_elem_of_fmap in Hc as (f & -> & Hf).
      by exists f.
    + intros (f & Hf & ->). exists (name f). split; [done|].
      apply Hchildren, list_elem_of_fmap. by exists f.
  - by rewrite length_fmap.
  - intros pre f1 mid f2 post Hfiles Hname. split; [by rewrite Hname|].
    rewrite length_fmap, Hsize, <-(length_fmap name image_files), Hfiles.
    rewrite fmap_app, fmap_cons, fmap_app, fmap_cons, Hname.
    apply size_list_to_set_twice.
  - intros pre f post Hfiles Hnot.
    destruct (Hlast pre f post Hfiles Hnot) as (x & Hx & Hstaged).
    unfold staged in Hstaged. destruct copy_mode.
    + destruct Hstaged as (c & -> & Hc).
      rewrite Hc by (apply (_get_image_files_is_file _ source_images);
                     fold image_files; rewrite Hfiles; set_solver).
      unfold read_file. rewrite (stat_intro t' _ (Q ++ [name f])).
      * by rewrite node_at_cons, Hx by apply snoc_not_nil.
      * apply (staging_child_back t1 target_dir Q HQ HQdir); [done|].
        intros tgt. by rewrite Hx.
    + subst x. exists (Q ++ [name f]).
      rewrite (lstat_intro t' _ (Q ++ [name f])).
      * by rewrite node_at_cons, Hx by apply snoc_not_nil.
      * by apply (staging_child_back t1 target_dir Q HQ HQdir).
Qed.

(** Two cameras that number their images alike. *)
Definition same_names : fs :=
  list_to_map
    [ (["src"], Dir); (["src"; "day"], Dir); (["src"; "night"], Dir);
      (["src"; "day"; "0001.jpg"], File (CBytes "day-1"));
      (["src"; "night"; "0001.jpg"], File (CBytes "night-1"));
      (["src"; "night"; "0002.jpg"], File (CBytes "night-2")) ].

Definition same_names_made : fs :=
  <[["data"; "images"; "raw"] := Dir]>
    (<[["data"; "images"] := Dir]> (<[["data"] := Dir]> same_names)).

Definition same_names_linked : fs :=
  <[["data"; "images"; "raw"; "0001.jpg"] := Link ["src"; "night"; "0001.jpg"]]>
    (<[["data"; "images"; "raw"; "0002.jpg"] := Link ["src"; "night"; "0002.jpg"]]>
       same_names_made).

Definition same_names_copied : fs :=
  <[["data"; "images"; "raw"; "0001.jpg"] := File (CBytes "night-1")]>
    (<[["data"; "images"; "raw"; "0002.jpg"] := File (CBytes "night-2")]>
       same_names_made).

Example same_names_files :
  _get_image_files same_names_made ["src"] =
  [["src"; "night"; "0002.jpg"]; ["src"; "day"; "0001.jpg"];
   ["src"; "night"; "0001.jpg"]].
Proof. vm_refl. Qed.

Example link_same_names :
  prepare_dataset demo_processor same_names ["src"] "raw" false
  = (same_names_linked, Ok true).
Proof. vm_refl. Qed.

Example copy_same_names :
  prepare_dataset demo_processor same_names ["src"] "raw" true
  = (same_names_copied, Ok true).
Proof. vm_refl. Qed.

Example entries_same_names :
  iterdir same_names_linked ["data"; "images"; "raw"] =
  Ok [["data"; "images"; "raw"; "0002.jpg"]; ["data"; "images"; "raw"; "0001.jpg"]].
Proof. vm_refl. Qed.

Lemma staging_is_flat_by_base_name_witness :
  ∃ entries, iterdir same_names_linked ["data"; "images"; "raw"] = Ok entries
    ∧ (length entries < length (_get_image_files same_names_made ["src"]))%nat
    ∧ ∃ q, lstat same_names_linked ["data"; "images"; "raw"; "0001.jpg"]
           = Ok (q, Some (Link ["src"; "night"; "0001.jpg"])).
Proof.
  pose proof (staging_is_flat_by_base_name demo_processor same_names
    same_names_made same_names_linked ["src"] "raw" false) as H.
  cbv zeta in H.
  destruct H as (entries & Hit & _ & _ & Hdup & Hlast).
  - vm_refl.
  - vm_refl.
  - vm_refl.
  - exists entries. split; [exact Hit|]. split.
    + apply (Hdup [["src"; "night"; "0002.jpg"]] ["src"; "day"; "0001.jpg"] []
               ["src"; "night"; "0001.jpg"] []); [vm_refl|reflexivity].
    + apply (Hlast [["src"; "night"; "0002.jpg"]; ["src"; "day"; "0001.jpg"]]
               ["src"; "night"; "0001.jpg"] []); [vm_refl|apply not_elem_of_nil].
Defined.

(** C10 as stated fails: the claim has no condition on the target
    directory.  Here the directory holds two entries of an earlier run
    when [prepare_dataset] is called on [same_names]: two of the three
    matched files share a base name and the call returns [True], but the
    staged directory has four entries, not fewer than three. *)
Definition same_names_leftovers : fs :=
  <[["data"; "images"; "raw"; "x.jpg"] := File (CBytes "x")]>
    (<[["data"; "images"; "raw"; "y.jpg"] := File (CBytes "y")]>
       same_names_made).

Lemma leftovers_keep_the_directory_full :
  mkdir same_names_leftovers ["data"; "images"; "raw"] = Ok same_names_leftovers
  ∧ _get_image_files same_names_leftovers ["src"]
    = [["src"; "night"; "0002.jpg"]; ["src"; "day"; "0001.jpg"];
       ["src"; "night"; "0001.jpg"]]
  ∧ name ["src"; "day"; "0001.jpg"] = name ["src"; "night"; "0001.jpg"]
  ∧ (prepare_dataset demo_processor same_names_leftovers ["src"] "raw" false).2
    = Ok true
  ∧ iterdir
      (prepare_dataset demo_processor same_names_leftovers ["src"] "raw" false).1
      ["data"; "images"; "raw"]
    = Ok [["data"; "images"; "raw"; "y.jpg"];
          ["data"; "images"; "raw"; "x.jpg"];
          ["data"; "images"; "raw"; "0002.jpg"];
          ["data"; "images"; "raw"; "0001.jpg"]].
Proof. split_and!; vm_refl. Qed.

(** * Further properties *)

(** ** F1 with no precision or no recall *)

Lemma double_zero_cases (r : PrimFloat.float) :
  (0 <=? r)%float = true → (r <=? 1)%float = true →
  Prim2SF r = S754_zero false ∨ Prim2SF r = S754_zero true
  ∨ ∃ m e, Prim2SF r = S754_finite false m e.
Proof.
  rewrite !FloatAxioms.leb_spec. change (Prim2SF 0) with (S754_zero false).
  destruct (Prim2SF r) as [[]|[]| |[] m e]; intros H0 H1; try done; eauto.
Qed.

(** X2.  In double arithmetic, a detector with no precision or no recall
    scores nothing: for every double [r] in [[0,1]],
    [calculate_f1_score 0 r] and [calculate_f1_score r 0] are [0.0].
    (The converse does not hold in doubles: the product of two small
    positive numbers rounds to zero, see [f1_underflows].) *)
Theorem calculate_f1_score_zero (r : PrimFloat.float) :
  (0 <=? r)%float = true → (r <=? 1)%float = true →
  Double.calculate_f1_score 0 r = 0%float
  ∧ Double.calculate_f1_score r 0 = 0%float.
Proof.
  intros H0 H1.
  assert (Double.calculate_f1_score 0 r = 0%float) as H.
  { unfold Double.calculate_f1_score.
    destruct (double_zero_cases r H0 H1) as [Hr|[Hr|(m & e & Hr)]].
    - by rewrite (Prim2SF_inj r 0%float Hr).
    - by rewrite (Prim2SF_inj r (-0)%float Hr).
    - assert (0 + r = r)%float as ->.
      { apply Prim2SF_inj. by rewrite add_spec, Hr. }
      assert (0 * r = 0)%float as ->.
      { apply Prim2SF_inj. by rewrite mul_spec, Hr. }
      rewrite FloatAxioms.eqb_spec, Hr. change (SFeqb _ _) with false. simpl.
      apply Prim2SF_inj. rewrite div_spec, Hr.
      by change (Prim2SF (2 * 0)) with (S754_zero false). }
  split; [done|]. by rewrite double_f1_comm.
Qed.

Lemma calculate_f1_score_zero_witness :
  Double.calculate_f1_score 0 0.9 = 0%float
  ∧ Double.calculate_f1_score 0.9 0 = 0%float.
Proof. apply (calculate_f1_score_zero 0.9%float); reflexivity. Defined.

(** Two positive doubles whose F1 score is [0.0], and a pair in [[0,1]]
    whose score is above both. *)
Example f1_underflows :
  Double.calculate_f1_score 0x1p-600 0x1p-600 = 0%float
  ∧ Double.calculate_f1_score 0.1 0.1 = 0.10000000000000002%float
  ∧ (0.1 <? 0.10000000000000002)%float = true.
Proof. split_and!; reflexivity. Qed.

(** ** Extraction keeps all five values or none *)

Lemma metric_not_a_number metrics_obj b a :
  box metrics_obj = Present b → a b = Present PyOther →
  required_metric metrics_obj a = Raise TypeError
  ∧ optional_metric metrics_obj a = Raise TypeError.
Proof.
  intros Hb Ha. unfold optional_metric, required_metric.
  rewrite Hb. simpl. by rewrite Ha.
Qed.

Lemma required_metric_absent metrics_obj b a :
  box metrics_obj = Present b → a b = Absent →
  required_metric metrics_obj a = Raise AttributeError.
Proof. intros Hb Ha. unfold required_metric. rewrite Hb. simpl. by rewrite Ha. Qed.

(** X3.  The extraction is all or nothing.  When one of the five
    attributes of the box holds something [float()] rejects, or when
    [map50] or [map] is missing, the result is the all-zero dictionary
    and one warning: the values of the attributes that could be read are
    dropped with it. *)
Theorem extract_yolo_metrics_all_or_nothing (metrics_obj : metrics_object)
    (b : YoloBox.t) (a : YoloBox.t → attr pyval) :
  box metrics_obj = Present b →
  a ∈ [YoloBox.map50; YoloBox.map; YoloBox.map75; YoloBox.mp; YoloBox.mr] →
  a b = Present PyOther
  ∨ (a b = Absent ∧ (a = YoloBox.map50 ∨ a = YoloBox.map)) →
  ∃ e, extract_yolo_metrics metrics_obj = (zero_metrics, [ExtractWarning e]).
Proof.
  intros Hb Ha Hbad.
  assert (∃ e, extract_body metrics_obj = Raise e) as [e He].
  { unfold extract_body.
    destruct (required_metric metrics_obj YoloBox.map50) as [v50|e] eqn:E50;
      [|by exists e].
    destruct (required_metric metrics_obj YoloBox.map) as [v|e] eqn:E;
      [|by exists e].
    destruct (optional_metric metrics_obj YoloBox.map75) as [v75|e] eqn:E75;
      [|by exists e].
    destruct (optional_metric metrics_obj YoloBox.mp) as [p|e] eqn:Ep;
      [|by exists e].
    destruct (optional_metric metrics_obj YoloBox.mr) as [r|e] eqn:Er;
      [|by exists e].
    exfalso. destruct Hbad as [Hbad|[Hbad Hreq]].
    - destruct (metric_not_a_number metrics_obj b a Hb Hbad) as [H1 H2].
      repeat (apply elem_of_cons in Ha as [->|Ha]; [congruence|]).
      by apply elem_of_nil in Ha.
    - pose proof (required_metric_absent metrics_obj b a Hb Hbad) as H1.
      destruct Hreq as [-> | ->]; congruence. }
  exists e. unfold extract_yolo_metrics. by rewrite He.
Qed.

(** A box whose recall is not a number: the four good values are lost. *)
Definition broken_box : YoloBox.t :=
  YoloBox.Make (Present (PyNum (Q2Qc 0.654))) (Present (PyNum (Q2Qc 0.432)))
               (Present (PyNum (Q2Qc 0.5))) (Present (PyNum (Q2Qc 0.723)))
               (Present PyOther).

Lemma extract_yolo_metrics_all_or_nothing_witness :
  ∃ e, extract_yolo_metrics {| box := Present broken_box |}
       = (zero_metrics, [ExtractWarning e]).
Proof.
  apply (extract_yolo_metrics_all_or_nothing {| box := Present broken_box |}
           broken_box YoloBox.mr).
  - reflexivity.
  - repeat first [by left | right].
  - by left.
Defined.

(** ** Saving onto what is already there *)

(** What [stat] finds, [lstat] finds too: the thing itself or a link to it. *)
Lemma walk_nofollow_exists (t : fs) :
  ∀ fuel cur todo q,
    walk fuel t true cur todo = Ok q → is_Some (node_at t q) →
    ∃ q', walk fuel t false cur todo = Ok q' ∧ is_Some (node_at t q').
Proof.
  induction fuel as [|n IH]; intros cur [|c rest] q H Hq; try done.
  - injection H as <-. by exists cur.
  - rewrite walk_nil in H. injection H as <-. exists cur. by rewrite walk_nil.
  - rewrite walk_S_cons in *.
    destruct (t !! (cur ++ [c])) as [[c'| |tgt]|] eqn:E.
    + destruct rest; [|done]. injection H as <-. by exists (cur ++ [c]).
    + by eapply IH.
    + destruct rest as [|c2 rest]; [|by eapply IH].
      exists (cur ++ [c]). split; [done|].
      by rewrite node_at_cons, E by apply snoc_not_nil.
    + destruct rest; [|done]. injection H as <-. by exists (cur ++ [c]).
Qed.

Lemma os_mkdir_existing t p :
  exists_ t p = true → os_mkdir t p = Raise FileExistsError.
Proof.
  unfold exists_. destruct (stat t p) as [[q [n|]]|] eqn:E; try done. intros _.
  apply stat_Some_inv in E as [Hq Hn].
  destruct (walk_nofollow_exists t _ _ _ _ Hq) as (q' & Hq' & [n' Hn']).
  { by rewrite <-Hn. }
  unfold os_mkdir. rewrite (lstat_intro t p q') by done. simpl. by rewrite Hn'.
Qed.

(** [mkdir(parents=True, exist_ok=True)] on a directory that is already
    there changes nothing. *)
Lemma mkdir_existing t p : is_dir t p = true → mkdir t p = Ok t.
Proof.
  intros Hdir.
  assert (os_mkdir t p = Raise FileExistsError) as Hos.
  { apply os_mkdir_existing. unfold is_dir in Hdir. unfold exists_.
    by destruct (stat t p) as [[q [[| |]|]]|]. }
  unfold mkdir. destruct (length p); simpl; by rewrite Hos, Hdir.
Qed.

Lemma is_dir_root t : is_dir t [] = true.
Proof. unfold is_dir, stat, resolve. by rewrite walk_nil. Qed.

Lemma path_snoc_inv (p : path) : p = [] ∨ p = parent p ++ [name p].
Proof.
  destruct (decide (p = [])) as [|Hne]; [by left|right].
  by apply app_removelast_last.
Qed.

(** The parent of a directory is a directory. *)
Lemma is_dir_parent t p : is_dir t p = true → is_dir t (parent p) = true.
Proof.
  destruct (path_snoc_inv p) as [->|Hp]; [done|]. rewrite Hp at 1.
  intros [r Hr]%is_dir_stat. apply stat_Some_inv in Hr as [Hr Hn].
  destruct (resolve_split t _ _ r Hr) as (q & Hq & Hdir & _).
  { by rewrite <-Hn. }
  apply is_dir_stat. exists q. by rewrite (stat_intro _ _ _ Hq), Hdir.
Qed.

(** X4.  [save_metrics] towards a path that is a directory raises
    [IsADirectoryError]; the history is not extended and nothing on disk
    changes, but the caller's dictionary has received ['f1_score'] all
    the same: the dictionary is updated before the file is opened. *)
Theorem save_metrics_onto_directory (self : MetricsCalculator) (w : world)
    (metrics : loc) (d : gmap string Qc) (method_name model_name : string)
    (output_path : path) :
  w_store w !! metrics = Some d →
  is_dir (w_fs w) output_path = true →
  let f1 := calculate_f1_score (get d "precision" 0) (get d "recall" 0) in
  save_metrics self w metrics method_name model_name output_path
  = (self,
     World (w_fs w) (<[metrics := <["f1_score" := f1]> d]> (w_store w)),
     Raise IsADirectoryError).
Proof.
  intros Hd Hdir f1. unfold save_metrics.
  rewrite (mkdir_existing _ _ (is_dir_parent _ _ Hdir)), Hd. fold f1.
  apply is_dir_stat in Hdir as [q Hq]. unfold write_file. by rewrite Hq.
Qed.

(** The results directory of the first save, with a fresh dictionary. *)
Definition demo_world_again : world :=
  World (w_fs demo_saved.1.2) {[ 0%nat := demo_metrics ]}.

Lemma save_metrics_onto_directory_witness :
  save_metrics demo_calculator demo_world_again 0 "raw" "yolov8n" ["out"; "raw"]
  = (demo_calculator,
     World (w_fs demo_world_again)
       (<[0%nat := <["f1_score" :=
            calculate_f1_score (get demo_metrics "precision" 0)
                               (get demo_metrics "recall" 0)]> demo_metrics]>
          (w_store demo_world_again)),
     Raise IsADirectoryError).
Proof.
  apply (save_metrics_onto_directory demo_calculator demo_world_again 0
           demo_metrics "raw" "yolov8n" ["out"; "raw"]).
  - reflexivity.
  - vm_refl.
Defined.

(** X5.  Saving the same dictionary again under the same names and path
    changes neither the disk nor the dictionary: ['f1_score'] is computed
    from the same precision and recall, and the same document is written
    over itself.  Only the history grows, by a second entry that refers
    to the same dictionary as the first. *)
Theorem save_metrics_twice (self self1 : MetricsCalculator) (w w1 : world)
    (metrics : loc) (method_name model_name : string) (output_path : path) :
  save_metrics self w metrics method_name model_name output_path
    = (self1, w1, Ok ()) →
  let result := ResultObject model_name method_name metrics in
  metrics_history self1 = metrics_history self ++ [result]
  ∧ save_metrics self1 w1 metrics method_name model_name output_path
    = ({| metrics_history := metrics_history self ++ [result; result] |},
       w1, Ok ()).
Proof.
  intros Hsave result. unfold save_metrics in Hsave.
  destruct (mkdir (w_fs w) (parent output_path)) as [t1|] eqn:Hmk; [|done].
  destruct (w_store w !! metrics) as [d|] eqn:Hd; [|done].
  set (f1 := calculate_f1_score (get d "precision" 0) (get d "recall" 0)) in *.
  set (d' := <["f1_score" := f1]> d) in *.
  destruct (write_file t1 output_path _) as [t2|] eqn:Hwr; [|done].
  injection Hsave as <- <-. split; [done|].
  assert (is_dir t2 (parent output_path) = true) as Hdir.
  { eapply write_file_is_dir; [exact Hwr|]. by eapply mkdir_is_dir. }
  unfold save_metrics. simpl.
  rewrite (mkdir_existing _ _ Hdir), lookup_insert_eq.
  assert (calculate_f1_score (get d' "precision" 0) (get d' "recall" 0) = f1) as ->.
  { unfold get, d'. by rewrite !lookup_insert_ne. }
  assert (<["f1_score" := f1]> d' = d') as -> by apply insert_insert_eq.
  rewrite insert_insert_eq.
  apply write_file_inv in Hwr as (q & Hq & Hne & Hterm & ->).
  assert (resolve (<[q:=File (CJson (json_of model_name method_name d'))]> t1)
            true output_path = Ok q) as Hq'.
  { apply (resolve_update t1 _ q true true); [..|exact Hq].
    - intros p' Hp'. by rewrite lookup_insert_ne.
    - done.
    - done.
    - intros tgt. by rewrite lookup_insert_eq. }
  unfold write_file. rewrite (stat_intro _ _ _ Hq').
  rewrite node_at_cons, lookup_insert_eq by done. simpl.
  by rewrite insert_insert_eq, <-(assoc_L (++)).
Qed.

Lemma save_metrics_twice_witness :
  save_metrics demo_saved.1.1 demo_saved.1.2 0 "raw" "yolov8n"
    ["out"; "raw"; "metrics.json"]
  = ({| metrics_history := [ResultObject "yolov8n" "raw" 0;
                            ResultObject "yolov8n" "raw" 0] |},
     demo_saved.1.2, Ok ()).
Proof.
  apply (save_metrics_twice demo_calculator demo_saved.1.1 demo_world
           demo_saved.1.2 0 "raw" "yolov8n" ["out"; "raw"; "metrics.json"]).
  vm_refl.
Defined.

Lemma read_file_stat t p c :
  read_file t p = Ok c → ∃ q, stat t p = Ok (q, Some (File c)).
Proof.
  unfold read_file. destruct (stat t p) as [[q [[c'| |]|]]|]; try done.
  intros [= ->]. by exists q.
Qed.

Lemma read_file_exists t p c : read_file t p = Ok c → exists_ t p = true.
Proof. intros [q Hq]%read_file_stat. unfold exists_. by rewrite Hq. Qed.

(** Writing a file leaves every other file as it was. *)
Lemma write_file_frame t p c t' p0 c0 :
  write_file t p c = Ok t' → read_file t p0 = Ok c0 → samefile t p0 p = false →
  read_file t' p0 = Ok c0.
Proof.
  intros (q & Hq & Hne & Hterm & ->)%write_file_inv [q0 Hq0]%read_file_stat Hsame.
  assert (q0 ≠ q) as Hqq.
  { unfold samefile in Hsame. rewrite Hq0, (stat_intro _ _ _ Hq) in Hsame.
    apply stat_Some_inv in Hq0 as [_ Hn0].
    destruct (node_at t q) as [n|] eqn:En.
    - by apply bool_decide_eq_false in Hsame.
    - intros ->. by rewrite En in Hn0. }
  apply stat_Some_inv in Hq0 as [Hr0 Hn0].
  assert (resolve (<[q:=File c]> t) true p0 = Ok q0) as Hr'.
  { apply (resolve_frame t _ q true p0 q0); [|done..].
    intros p' Hp'. by rewrite lookup_insert_ne. }
  unfold read_file. rewrite (stat_intro _ _ _ Hr').
  destruct q0 as [|a q0]; [done|]. simpl in *.
  rewrite lookup_insert_ne by congruence. by rewrite <-Hn0.
Qed.

Lemma round_half_even_close (q : Q) :
  (inject_Z (round_half_even q) - q <= 1 # 2
   ∧ q - inject_Z (round_half_even q) <= 1 # 2)%Q.
Proof.
  unfold round_half_even. cbv zeta.
  pose proof (Qfloor_le q) as Hlo. pose proof (Qlt_floor q) as Hhi.
  rewrite inject_Z_plus in Hhi. change (inject_Z 1) with 1%Q in Hhi.
  destruct (Qcompare_spec (q - inject_Z (Qfloor q)) (1 # 2)) as [H|H|H].
  - destruct (Z.even _); rewrite ?inject_Z_plus;
      change (inject_Z 1) with 1%Q; split; lra.
  - split; lra.
  - rewrite inject_Z_plus. change (inject_Z 1) with 1%Q. split; lra.
Qed.

Lemma fixed4_close (v : Qc) :
  fixed4 v - v ≤ Q2Qc (1 # 20000) ∧ v - fixed4 v ≤ Q2Qc (1 # 20000).
Proof.
  destruct (round_half_even_close (v * 10000)) as [H1 H2].
  unfold fixed4, Qcle, Qcminus, Qcplus, Qcopp. simpl.
  rewrite !Qred_correct. unfold Qdiv. change (/ 10000)%Q with (1 # 10000)%Q.
  generalize dependent (inject_Z (round_half_even (v * 10000))).
  generalize (this v). intros x y H1 H2. split; lra.
Qed.

(** Four decimal places of some numbers; the third is a tie. *)
Example fixed4_examples :
  fixed4 (Q2Qc 0.70559065) = Q2Qc 0.7056 ∧ fixed4 (Q2Qc (2 # 3)) = Q2Qc 0.6667
  ∧ fixed4 (Q2Qc 0.00005) = 0 ∧ fixed4 (Q2Qc 0.00015) = Q2Qc 0.0002.
Proof. split_and!; qc_compute. Qed.

(** X6.  The two files of one evaluation agree up to the four decimal
    places of the report.  After [save_metrics] has written
    [metrics.json] and [save_metrics_summary] has written
    [metrics_summary.txt] beside it (the summary not being the same file
    as the JSON document), both can be read back; the JSON document
    holds the caller's dictionary with the number [f1] under
    ['f1_score']; the F1-Score line of the report holds [f1] as [:.4f]
    prints it, which is within [0.00005] of [f1]; and so does each other
    line for the metric it prints. *)
Theorem evaluation_files_agree (self self1 self2 : MetricsCalculator)
    (w w1 w2 : world) (metrics : loc) (d : gmap string Qc)
    (method_name model_name : string) (output_dir : path) :
  let json_path := output_dir ++ ["metrics.json"] in
  let summary_path := output_dir ++ ["metrics_summary.txt"] in
  w_store w !! metrics = Some d →
  save_metrics self w metrics method_name model_name json_path
    = (self1, w1, Ok ()) →
  samefile (w_fs w1) json_path summary_path = false →
  save_metrics_summary self1 w1 metrics method_name model_name summary_path
    = (self2, w2, Ok ()) →
  ∃ d' f1 report, w_store w2 !! metrics = Some d'
    ∧ d' !! "f1_score" = Some f1
    ∧ read_file (w_fs w2) json_path
      = Ok (CJson (json_of model_name method_name d'))
    ∧ read_file (w_fs w2) summary_path = Ok (CReport report)
    ∧ report
      = [ Label "Model" model_name; Label "Method" method_name;
          Value "mAP@0.5:0.95" (fixed4 (get d' "mAP@0.5:0.95" 0));
          Value "mAP@0.5" (fixed4 (get d' "mAP@0.5" 0));
          Value "mAP@0.75" (fixed4 (get d' "mAP@0.75" 0));
          Value "Precision" (fixed4 (get d' "precision" 0));
          Value "Recall" (fixed4 (get d' "recall" 0));
          Value "F1-Score" (fixed4 f1) ]
    ∧ fixed4 f1 - f1 ≤ Q2Qc (1 # 20000) ∧ f1 - fixed4 f1 ≤ Q2Qc (1 # 20000)
    ∧ self2 = self1.
Proof.
  intros json_path summary_path Hd Hsave Hsame Hsum.
  unfold save_metrics in Hsave. unfold json_path in Hsave at 1.
  rewrite parent_snoc, Hd in Hsave.
  set (f1 := calculate_f1_score (get d "precision" 0) (get d "recall" 0)) in *.
  set (d' := <["f1_score" := f1]> d) in *.
  destruct (mkdir (w_fs w) output_dir) as [t1|] eqn:Hmk; [|done].
  destruct (write_file t1 json_path _) as [t2|] eqn:Hwr; [|done].
  injection Hsave as <- <-. simpl in *.
  assert (is_dir t2 output_dir = true) as Hdir.
  { eapply write_file_is_dir; [exact Hwr|]. by eapply mkdir_is_dir. }
  destruct (write_file_read _ _ _ _ Hwr) as [Hread _].
  unfold save_metrics_summary in Hsum. unfold summary_path in Hsum at 1.
  rewrite parent_snoc in Hsum. simpl in Hsum.
  rewrite (mkdir_existing _ _ Hdir), lookup_insert_eq in Hsum.
  assert (calculate_f1_score (get d' "precision" 0) (get d' "recall" 0) = f1) as Hf1.
  { unfold get, d'. by rewrite !lookup_insert_ne. }
  rewrite Hf1 in Hsum.
  destruct (write_file t2 summary_path _) as [t3|] eqn:Hwr2; [|done].
  injection Hsum as <- <-. simpl.
  exists d', f1, (summary_text model_name method_name d' f1).
  destruct (fixed4_close f1) as [Hup Hdown]. split_and!; try done.
  - apply lookup_insert_eq.
  - apply lookup_insert_eq.
  - by eapply write_file_frame.
  - by destruct (write_file_read _ _ _ _ Hwr2).
Qed.

Definition demo_summarised : MetricsCalculator * world * res unit :=
  save_metrics_summary demo_saved.1.1 demo_saved.1.2 0 "raw" "yolov8n"
    ["out"; "raw"; "metrics_summary.txt"].

Lemma evaluation_files_agree_witness :
  ∃ d' f1 report, w_store demo_summarised.1.2 !! 0%nat = Some d'
    ∧ d' !! "f1_score" = Some f1
    ∧ read_file (w_fs demo_summarised.1.2) ["out"; "raw"; "metrics.json"]
      = Ok (CJson (json_of "yolov8n" "raw" d'))
    ∧ read_file (w_fs demo_summarised.1.2) ["out"; "raw"; "metrics_summary.txt"]
      = Ok (CReport report)
    ∧ report
      = [ Label "Model" "yolov8n"; Label "Method" "raw";
          Value "mAP@0.5:0.95" (fixed4 (get d' "mAP@0.5:0.95" 0));
          Value "mAP@0.5" (fixed4 (get d' "mAP@0.5" 0));
          Value "mAP@0.75" (fixed4 (get d' "mAP@0.75" 0));
          Value "Precision" (fixed4 (get d' "precision" 0));
          Value "Recall" (fixed4 (get d' "recall" 0));
          Value "F1-Score" (fixed4 f1) ]
    ∧ fixed4 f1 - f1 ≤ Q2Qc (1 # 20000) ∧ f1 - fixed4 f1 ≤ Q2Qc (1 # 20000)
    ∧ demo_summarised.1.1 = demo_saved.1.1.
Proof.
  apply (evaluation_files_agree demo_calculator demo_saved.1.1
           demo_summarised.1.1 demo_world demo_saved.1.2 demo_summarised.1.2
           0 demo_metrics "raw" "yolov8n" ["out"; "raw"]).
  - reflexivity.
  - vm_refl.
  - vm_refl.
  - vm_refl.
Defined.

(** ** Which directories make a row *)

Lemma load_row_Some t p x :
  load_row t p = Ok (Some x) →
  is_dir t p = true ∧ exists_ t (p ++ ["metrics.json"]) = true.
Proof.
  unfold load_row. destruct (is_dir t p); simpl; [|done].
  by destruct (exists_ t _).
Qed.

Lemma load_row_None t p :
  load_row t p = Ok None →
  is_dir t p = false ∨ exists_ t (p ++ ["metrics.json"]) = false.
Proof.
  unfold load_row. destruct (is_dir t p); simpl; [|by left].
  destruct (exists_ t _); simpl; [|by right].
  by destruct (read_file t _) as [[j| |]|].
Qed.

(** The entries that the loop of [create_comparison_table] does not skip. *)
Definition holds_metrics (t : fs) (method_dir : path) : Prop :=
  is_dir t method_dir = true ∧ exists_ t (method_dir ++ ["metrics.json"]) = true.

#[local] Instance holds_metrics_dec t p : Decision (holds_metrics t p).
Proof. unfold holds_metrics. apply _. Defined.

Lemma scan_length t dirs data :
  scan t dirs = Ok data →
  length data = length (filter (holds_metrics t) dirs).
Proof.
  revert data. induction dirs as [|p dirs IH]; intros data Hscan; simpl in *.
  - by injection Hscan as <-.
  - destruct (load_row t p) as [r|] eqn:Hr; simpl in Hscan; [|done].
    destruct (scan t dirs) as [data'|]; simpl in Hscan; [|done].
    injection Hscan as <-. specialize (IH _ eq_refl). destruct r as [x|].
    + rewrite filter_cons_True by (by eapply load_row_Some). simpl. by rewrite IH.
    + rewrite filter_cons_False; [done|].
      intros [H1 H2]. apply load_row_None in Hr as [?|?]; congruence.
Qed.

Lemma scan_Ok_inv t dirs data p :
  scan t dirs = Ok data → p ∈ dirs → ∃ r, load_row t p = Ok r.
Proof.
  revert data. induction dirs as [|p' dirs IH]; intros data Hscan Hp; simpl in *.
  - by apply elem_of_nil in Hp.
  - destruct (load_row t p') as [r|] eqn:Hr; simpl in Hscan; [|done].
    destruct (scan t dirs) as [data'|]; simpl in Hscan; [|done].
    apply elem_of_cons in Hp as [->|Hp]; [by exists r|by eapply IH].
Qed.

Lemma create_comparison_table_inv `{Pandas} t root df :
  create_comparison_table t root = Ok df →
  ∃ dirs data, iterdir t root = Ok dirs ∧ scan t dirs = Ok data
    ∧ Permutation df data.
Proof.
  unfold create_comparison_table, collect_rows. intros Hdf.
  destruct (iterdir t root) as [dirs|]; [|done]. simpl in Hdf.
  destruct (scan t dirs) as [data|] eqn:Hscan; [|done]. simpl in Hdf.
  injection Hdf as <-. exists dirs, data. split_and!; [done..|].
  destruct data; [done|apply sort_values_perm].
Qed.

(** X7.  The comparison table has exactly one row for each entry of the
    results directory that is a directory holding a [metrics.json];
    plain files and directories without one are passed over, and no
    entry is looked at twice. *)
Theorem create_comparison_table_rows `{Pandas} (t : fs) (results_dir : path)
    (df : DataFrame) :
  create_comparison_table t results_dir = Ok df →
  ∃ dirs, iterdir t results_dir = Ok dirs ∧ NoDup dirs
    ∧ length df = length (filter (holds_metrics t) dirs).
Proof.
  intros (dirs & data & Hdirs & Hscan & Hperm)%create_comparison_table_inv.
  exists dirs. split_and!; [done| |].
  - destruct (iterdir_inv _ _ _ Hdirs) as (q & _ & _ & ->).
    apply NoDup_fmap_2; [|apply NoDup_children].
    intros a b [= ?]%app_inv_head. done.
  - rewrite (Permutation_length Hperm). by apply scan_length.
Qed.

Lemma create_comparison_table_rows_witness :
  ∃ dirs, iterdir results_534 ["out"] = Ok dirs ∧ NoDup dirs
    ∧ length [scored "raw" (Q2Qc 0.5); scored "hsv" (Q2Qc 0.4);
              scored "pwgcm" (Q2Qc 0.3)]
      = length (filter (holds_metrics results_534) dirs).
Proof.
  apply (@create_comparison_table_rows stable_pandas results_534 ["out"]).
  apply table_534.
Defined.

(** X8.  One unreadable document aborts the whole comparison: if some
    method directory holds a [metrics.json] that cannot be read as a
    JSON document, [create_comparison_table] raises, and gives no table
    for the other methods either. *)
Theorem create_comparison_table_corrupt `{Pandas} (t : fs) (results_dir : path)
    (dirs : list path) (method_dir : path) :
  iterdir t results_dir = Ok dirs →
  method_dir ∈ dirs →
  is_dir t method_dir = true →
  exists_ t (method_dir ++ ["metrics.json"]) = true →
  (∀ j, read_file t (method_dir ++ ["metrics.json"]) ≠ Ok (CJson j)) →
  ∃ e, create_comparison_table t results_dir = Raise e.
Proof.
  intros Hdirs Hin Hdir Hex Hbad.
  destruct (create_comparison_table t results_dir) as [df|e] eqn:E;
    [exfalso|by exists e].
  apply create_comparison_table_inv in E as (dirs' & data & Hdirs' & Hscan & _).
  rewrite Hdirs in Hdirs'. injection Hdirs' as <-.
  destruct (scan_Ok_inv _ _ _ _ Hscan Hin) as [r Hr].
  unfold load_row in Hr. rewrite Hdir, Hex in Hr. simpl in Hr.
  destruct (read_file t _) as [[j| |]|] eqn:Hread; try done.
  by destruct (Hbad j).
Qed.

(** A results directory in which one document is not JSON. *)
Definition results_corrupt : fs :=
  <[["out"; "hsv"; "metrics.json"] := File (CBytes "{'method': ")]> results_534.

Lemma create_comparison_table_corrupt_witness :
  ∃ e, @create_comparison_table stable_pandas results_corrupt ["out"] = Raise e.
Proof.
  apply (@create_comparison_table_corrupt stable_pandas results_corrupt ["out"]
           ((λ c, ["out"] ++ [c]) <$> children results_corrupt ["out"])
           ["out"; "hsv"]).
  - vm_refl.
  - vm_compute. repeat first [by left | right].
  - vm_refl.
  - vm_refl.
  - intros j. vm_compute. discriminate.
Defined.

(** X9.  A results root that is not a directory (missing, or a plain
    file) makes [create_comparison_table] raise: the empty table is the
    answer for a directory without results, not for a missing one. *)
Theorem create_comparison_table_no_root `{Pandas} (t : fs) (results_dir : path) :
  is_dir t results_dir = false →
  ∃ e, create_comparison_table t results_dir = Raise e.
Proof.
  intros Hdir. unfold create_comparison_table, collect_rows, iterdir.
  unfold is_dir in Hdir.
  destruct (stat t results_dir) as [[q [[| |]|]]|]; simpl; try done; by eexists.
Qed.

Lemma create_comparison_table_no_root_witness :
  ∃ e, @create_comparison_table stable_pandas results_534 ["nowhere"] = Raise e.
Proof.
  apply (@create_comparison_table_no_root stable_pandas results_534 ["nowhere"]).
  vm_refl.
Defined.

(** X10.  A [metrics.json] that is the empty object still makes a row:
    the method is named after its directory, the model is ['Unknown']
    and every figure, the F1-Score included, is [0]. *)
Theorem create_comparison_table_defaults `{Pandas} (t : fs) (results_dir : path)
    (dirs : list path) (method_dir : path) (df : DataFrame) :
  iterdir t results_dir = Ok dirs →
  method_dir ∈ dirs →
  is_dir t method_dir = true →
  read_file t (method_dir ++ ["metrics.json"]) = Ok (CJson (JsonResult None None None)) →
  create_comparison_table t results_dir = Ok df →
  Row (name method_dir) "Unknown" 0 0 0 0 0 0 ∈ df.
Proof.
  intros Hdirs Hin Hdir Hread Hdf.
  apply create_comparison_table_inv in Hdf as (dirs' & data & Hdirs' & Hscan & Hperm).
  rewrite Hdirs in Hdirs'. injection Hdirs' as <-.
  rewrite Hperm. eapply scan_elem_of; [done..|].
  unfold load_row. rewrite Hdir, (read_file_exists _ _ _ Hread), Hread. simpl.
  do 2 f_equal.
Qed.

(** A results directory in which one document is [{}]. *)
Definition results_blank : fs :=
  <[["out"; "hsv"; "metrics.json"] := File (CJson (JsonResult None None None))]>
    results_534.

Lemma create_comparison_table_defaults_witness :
  Row "hsv" "Unknown" 0 0 0 0 0 0
  ∈ [scored "raw" (Q2Qc 0.5); scored "pwgcm" (Q2Qc 0.3);
     Row "hsv" "Unknown" 0 0 0 0 0 0].
Proof.
  apply (@create_comparison_table_defaults stable_pandas results_blank ["out"]
           ((λ c, ["out"] ++ [c]) <$> children results_blank ["out"])
           ["out"; "hsv"]).
  - vm_refl.
  - vm_compute. repeat first [by left | right].
  - vm_refl.
  - vm_refl.
  - qc_compute.
Defined.

(** ** The sign of the improvements *)

Lemma print_comparison_table_improvement (df : DataFrame) (d : row) m delta :
  Improvement m delta ∈ print_comparison_table df →
  Improvement m delta ∈ improvement_lines (mAP_50_95 (List.last df d)) df.
Proof.
  unfold print_comparison_table. destruct df as [|first rest].
  - intros H. apply list_elem_of_singleton in H. discriminate H.
  - rewrite (last_default_irrelevant (first :: rest) first d) by done.
    destruct (decide (1 < length (first :: rest))%nat);
      rewrite !elem_of_app, !elem_of_cons, !elem_of_nil, ?improvement_lines_spec;
      intros H; repeat (destruct H as [H|H]; try discriminate H); done.
Qed.




(** X23.  When the last row of the table has an mAP@0.5:0.95 of [0],
    as the all-zero dictionary of a failed extraction gives, no
    improvement that [print_comparison_table] prints is a number: every
    one of them divides by zero. *)
Theorem zero_baseline_gives_no_percentage (df : DataFrame) (d : row)
    (m : string) (delta : percent) :
  mAP_50_95 (List.last df d) = 0 →
  Improvement m delta ∈ print_comparison_table df →
  delta = NotFinite.
Proof.
  intros Hzero Hline.
  apply (print_comparison_table_improvement df d) in Hline.
  apply improvement_lines_spec in Hline as (r & Hr & Hne & [= -> ->]).
  unfold improvement. by rewrite decide_True.
Qed.

(** The weakest method reported nothing but zeros. *)
Definition table_50 : DataFrame :=
  [row_of "raw" (Q2Qc 0.5); row_of "hsv" 0].

Lemma zero_baseline_gives_no_percentage_witness :
  improvement (Q2Qc 0.5) 0 = NotFinite.
Proof.
  apply (zero_baseline_gives_no_percentage table_50 (row_of "" 0) "raw").
  - reflexivity.
  - unfold table_50, print_comparison_table. simpl.
    repeat first [by left | right].
Defined.

(** ** The counts of the pairing report *)

Lemma stems_size_le (files : list path) : (size (stems files) ≤ length files)%nat.
Proof.
  unfold stems. rewrite <-(length_fmap stem files). apply size_list_to_set_le.
Qed.

Lemma pairing_issues_nil (image_stems label_stems : gset string) :
  pairing_issues image_stems label_stems = [] ↔ image_stems = label_stems.
Proof.
  unfold pairing_issues. split.
  - intros H. apply app_eq_nil in H as [H1 H2].
    destruct (decide (image_stems ∖ label_stems = ∅)) as [E1|]; [|done].
    destruct (decide (label_stems ∖ image_stems = ∅)) as [E2|]; [|done].
    apply set_eq. intros x. split; intros Hx.
    + destruct (decide (x ∈ label_stems)); [done|].
      assert (x ∈ image_stems ∖ label_stems) as Hd by (by apply elem_of_difference).
      rewrite E1 in Hd. by apply elem_of_empty in Hd.
    + destruct (decide (x ∈ image_stems)); [done|].
      assert (x ∈ label_stems ∖ image_stems) as Hd by (by apply elem_of_difference).
      rewrite E2 in Hd. by apply elem_of_empty in Hd.
  - intros ->. rewrite difference_diag_L. by rewrite !decide_True.
Qed.

(** X12.  [verify_dataset] reports no issue exactly when the image
    directory and the label directory both exist and the image files and
    the label files have the same set of stems. *)
Theorem verify_dataset_clean (self : DataProcessor) (t : fs) (method_name : string) :
  issues (verify_dataset self t method_name) = [] ↔
  exists_ t (images_dir self ++ [method_name]) = true
  ∧ exists_ t (labels_dir self ++ ["val"]) = true
  ∧ stems (_get_image_files t (images_dir self ++ [method_name]))
    = stems (glob_txt t (labels_dir self ++ ["val"])).
Proof.
  unfold verify_dataset.
  destruct (exists_ t (images_dir self ++ [method_name])); simpl;
    [|split; [done|by intros [? _]]].
  destruct (exists_ t (labels_dir self ++ ["val"])); simpl;
    [|split; [done|by intros (_ & ? & _)]].
  rewrite pairing_issues_nil. split; [done|by intros (_ & _ & ?)].
Qed.

(** X13.  The counts of a verification result add up: the matched stems
    together with the stems reported as unmatched are no more than the
    files counted, on the image side and on the label side, so
    [matched_count] never exceeds [image_count] or [label_count]. *)
Theorem verify_dataset_counts (self : DataProcessor) (t : fs) (method_name : string) :
  let result := verify_dataset self t method_name in
  (matched_count result ≤ image_count result)%nat
  ∧ (matched_count result ≤ label_count result)%nat
  ∧ (∀ n, UnmatchedImages n ∈ issues result →
       (matched_count result + n ≤ image_count result)%nat)
  ∧ (∀ n, UnmatchedLabels n ∈ issues result →
       (matched_count result + n ≤ label_count result)%nat).
Proof.
  intros result. unfold result, verify_dataset.
  destruct (exists_ t (images_dir self ++ [method_name])); simpl.
  2: { split_and!; [done..| |]; intros n Hn;
         apply list_elem_of_singleton in Hn; discriminate Hn. }
  destruct (exists_ t (labels_dir self ++ ["val"])); simpl.
  2: { split_and!; [lia..| |]; intros n Hn;
         apply list_elem_of_singleton in Hn; discriminate Hn. }
  set (I := stems (_get_image_files t (images_dir self ++ [method_name]))).
  set (L := stems (glob_txt t (labels_dir self ++ ["val"]))).
  pose proof (stems_size_le (_get_image_files t (images_dir self ++ [method_name]))) as HI.
  pose proof (stems_size_le (glob_txt t (labels_dir self ++ ["val"]))) as HL.
  fold I in HI. fold L in HL.
  assert (size (I ∩ L) + size (I ∖ L) = size I)%nat as EI.
  { rewrite <-size_union by set_solver. f_equal. apply set_eq. intros x.
    rewrite elem_of_union, elem_of_intersection, elem_of_difference.
    destruct (decide (x ∈ L)); tauto. }
  assert (size (I ∩ L) + size (L ∖ I) = size L)%nat as EL.
  { rewrite <-size_union by set_solver. f_equal. apply set_eq. intros x.
    rewrite elem_of_union, elem_of_intersection, elem_of_difference.
    destruct (decide (x ∈ I)); tauto. }
  split_and!; [lia|lia| |]; intros n Hn; unfold pairing_issues in Hn;
    apply elem_of_app in Hn as [Hn|Hn];
    repeat case_decide; try (by apply elem_of_nil in Hn);
    apply list_elem_of_singleton in Hn; try discriminate Hn;
    injection Hn as ->; lia.
Qed.

(** ** What the recursive listing finds *)

Lemma below_Some (q k rel : path) : below q k = Some rel ↔ k = q ++ rel ∧ rel ≠ [].
Proof.
  revert k. induction q as [|a q IH]; intros [|b k]; simpl.
  - split; [done|]. by intros [<- ?].
  - split; [by intros [= <-]|]. by intros [<- _].
  - split; [done|by intros [? _]].
  - destruct (decide (a = b)) as [<-|Hne].
    + rewrite IH. split; intros [? ?]; split; congruence.
    + split; [done|]. intros [[= ? _] _]. done.
Qed.

Lemma elem_of_keys (t : fs) (k : path) : k ∈ (map_to_list t).*1 ↔ is_Some (t !! k).
Proof.
  rewrite list_elem_of_fmap. split.
  - intros ([k' n] & -> & Hk). apply elem_of_map_to_list in Hk. by exists n.
  - intros [n Hn]. exists (k, n). split; [done|by apply elem_of_map_to_list].
Qed.

Lemma elem_of_rglob t p f :
  f ∈ rglob t p ↔
  ∃ q rel, stat t p = Ok (q, Some Dir) ∧ f = p ++ rel ∧ rel ≠ []
           ∧ is_Some (t !! (q ++ rel)) ∧ reachable t q rel = true.
Proof.
  unfold rglob. split.
  - destruct (stat t p) as [[q [[| |]|]]|]; try (by intros ?%elem_of_nil).
    intros (rel & -> & Hrel)%list_elem_of_fmap.
    apply list_elem_of_filter in Hrel as [Hreach Hrel].
    apply list_elem_of_omap in Hrel as (k & Hk & [-> Hne]%below_Some).
    apply elem_of_keys in Hk. by exists q, rel.
  - intros (q & rel & -> & -> & Hne & Hk & Hreach).
    apply list_elem_of_fmap. exists rel. split; [done|].
    apply list_elem_of_filter. split; [done|].
    apply list_elem_of_omap. exists (q ++ rel).
    split; [by apply elem_of_keys|by apply below_Some].
Qed.

Lemma NoDup_rglob t p : NoDup (rglob t p).
Proof.
  unfold rglob. destruct (stat t p) as [[q [[| |]|]]|]; try apply NoDup_nil_2.
  apply NoDup_fmap_2; [intros a b; apply app_inv_head|].
  apply NoDup_filter, NoDup_omap_inj; [|apply NoDup_fst_map_to_list].
  intros x y z [-> _]%below_Some [-> _]%below_Some. done.
Qed.

Lemma suffix_name (p p' : path) : name p = name p' → suffix p = suffix p'.
Proof. unfold suffix. by intros ->. Qed.

Lemma stem_name (p p' : path) : name p = name p' → stem p = stem p'.
Proof. unfold stem. by intros ->. Qed.

Lemma NoDup_get_image_files (t : fs) (directory : path) :
  NoDup (_get_image_files t directory).
Proof. apply NoDup_filter, NoDup_rglob. Qed.

Lemma _get_image_files_inv (t : fs) (directory f : path) :
  f ∈ _get_image_files t directory →
  is_dir t directory = true
  ∧ (∃ rel, rel ≠ [] ∧ f = directory ++ rel)
  ∧ is_file t f = true
  ∧ lower (suffix f) ∈ image_extensions.
Proof.
  intros [Hf Hin]%list_elem_of_filter.
  apply andb_prop in Hf as [Hext%bool_decide_eq_true Hfile].
  apply elem_of_rglob in Hin as (q & rel & Hq & -> & Hne & _).
  split_and!; [|by exists rel|done..].
  apply is_dir_stat. by exists q.
Qed.

Lemma _get_image_files_child (t : fs) (directory : path) (c : string) :
  is_dir t directory = true →
  is_file t (directory ++ [c]) = true →
  lower (suffix [c]) ∈ image_extensions →
  directory ++ [c] ∈ _get_image_files t directory.
Proof.
  intros [q Hq]%is_dir_stat Hfile Hext.
  apply list_elem_of_filter. split.
  - apply andb_true_intro. split; [|done].
    apply bool_decide_eq_true. by rewrite (suffix_name _ [c]) by apply name_snoc.
  - apply elem_of_rglob. exists q, [c]. split_and!; try done.
    unfold is_file in Hfile.
    destruct (stat t (directory ++ [c])) as [[r [[c'| |]|]]|] eqn:E; try done.
    apply stat_Some_inv in E as [Hr Hn].
    destruct (resolve_split t _ _ r Hr) as (q' & Hq' & _ & Hc).
    { by rewrite <-Hn. }
    apply stat_Some_inv in Hq as [Hq _]. rewrite Hq in Hq'. by injection Hq' as <-.
Qed.

(** X14.  What [_get_image_files] returns.  Every path it lists lies
    strictly below the directory, is (or links to) a regular file, and
    has an image extension once its suffix is put in lower case; no path
    is listed twice; and every entry directly in the directory that is
    (or links to) a regular file and has such a suffix, in whatever
    letter case, is listed. *)
Theorem _get_image_files_spec (t : fs) (directory : path) :
  NoDup (_get_image_files t directory)
  ∧ (∀ f, f ∈ _get_image_files t directory →
       is_dir t directory = true
       ∧ (∃ rel, rel ≠ [] ∧ f = directory ++ rel)
       ∧ is_file t f = true
       ∧ lower (suffix f) ∈ image_extensions)
  ∧ (∀ c, is_dir t directory = true →
       is_file t (directory ++ [c]) = true →
       lower (suffix [c]) ∈ image_extensions →
       directory ++ [c] ∈ _get_image_files t directory).
Proof.
  split_and!.
  - apply NoDup_get_image_files.
  - apply _get_image_files_inv.
  - apply _get_image_files_child.
Qed.

(** ** Staging adds and never takes away *)

Lemma os_mkdir_subseteq t p t' : os_mkdir t p = Ok t' → t ⊆ t'.
Proof.
  unfold os_mkdir. destruct (lstat t p) as [[q n]|] eqn:E; simpl; [|done].
  apply lstat_Some_inv in E as [_ ->].
  destruct (node_at t q) eqn:En; [done|]. intros [= <-].
  apply insert_subseteq. by destruct q.
Qed.

Lemma mkdir_exist_ok_subseteq t p t' : mkdir_exist_ok t p = Ok t' → t ⊆ t'.
Proof.
  unfold mkdir_exist_ok. destruct (os_mkdir t p) as [t1|e] eqn:E.
  - intros [= <-]. by eapply os_mkdir_subseteq.
  - destruct e; try done; destruct (is_dir t p); try done; by intros [= <-].
Qed.

Lemma mkdir_parents_subseteq k : ∀ t p t', mkdir_parents k t p = Ok t' → t ⊆ t'.
Proof.
  induction k as [|k IH]; intros t p t'; simpl;
    (destruct (os_mkdir t p) as [t1|e] eqn:E;
      [intros [= <-]; by eapply os_mkdir_subseteq|]).
  - destruct e; try done; destruct (is_dir t p); try done; by intros [= <-].
  - destruct e; try done;
      try (destruct (is_dir t p); try done; by intros [= <-]).
    destruct p as [|a p]; [done|].
    destruct (mkdir_parents k t (parent (a :: p))) as [t1|] eqn:E1; simpl; [|done].
    intros H2. etrans; [by eapply IH|by eapply mkdir_exist_ok_subseteq].
Qed.

Lemma mkdir_subseteq t p t' : mkdir t p = Ok t' → t ⊆ t'.
Proof. apply mkdir_parents_subseteq. Qed.

(** A file that can be read still reads the same in a larger file system. *)
Lemma read_file_mono (t t' : fs) f c :
  t ⊆ t' → read_file t f = Ok c → read_file t' f = Ok c.
Proof.
  intros Hsub [q Hq]%read_file_stat. apply stat_Some_inv in Hq as [Hq Hn].
  unfold read_file. rewrite (stat_intro t' f q).
  - destruct q as [|a q]; [done|]. simpl in *.
    by rewrite (lookup_weaken t t' _ (File c)).
  - eapply resolve_mono; [done..|]. by rewrite <-Hn.
Qed.

Lemma is_dir_mono (t t' : fs) p : t ⊆ t' → is_dir t p = true → is_dir t' p = true.
Proof.
  intros Hsub [q Hq]%is_dir_stat. apply stat_Some_inv in Hq as [Hq Hn].
  apply is_dir_stat. exists q. rewrite (stat_intro t' p q).
  - destruct q as [|a q]; [done|]. simpl in *.
    by rewrite (lookup_weaken t t' _ Dir).
  - eapply resolve_mono; [done..|]. by rewrite <-Hn.
Qed.

(** The loop that a successful [prepare_dataset] has run. *)
Lemma prepare_dataset_true_inv self t t' source_images method_name copy_mode :
  prepare_dataset self t source_images method_name copy_mode = (t', Ok true) →
  ∃ t1, mkdir t (images_dir self ++ [method_name]) = Ok t1
    ∧ _get_image_files t1 source_images ≠ []
    ∧ stage_all copy_mode (images_dir self ++ [method_name]) t1
        (_get_image_files t1 source_images) = (t', Ok ()).
Proof.
  unfold prepare_dataset.
  destruct (mkdir t _) as [t1|] eqn:Hmk; [|done]. intros Hrun. exists t1.
  destruct (exists_ t1 source_images); [|done].
  change (negb true) with false in Hrun. cbv iota zeta in Hrun.
  destruct (_get_image_files t1 source_images) as [|g more]; [done|].
  by destruct (stage_all copy_mode _ t1 (g :: more)) as [t2 [[]|]]; simplify_eq.
Qed.

Lemma iterdir_nil_inv t p :
  iterdir t p = Ok [] →
  ∃ Q, resolve t true p = Ok Q ∧ node_at t Q = Some Dir
       ∧ ∀ d, t !! (Q ++ [d]) = None.
Proof.
  intros (Q & HQ & HQdir & Hnone)%iterdir_inv.
  symmetry in Hnone. apply fmap_nil_inv in Hnone.
  exists Q. split_and!; [done..|]. intros d.
  apply eq_None_not_Some. rewrite <-elem_of_children, Hnone. apply not_elem_of_nil.
Qed.

(** X15.  A successful [prepare_dataset] into a target directory that
    starts empty only adds to the file system: every entry that was
    there before the call is still there unchanged, so every file reads
    as before and every directory is still a directory (the source
    images are never moved, overwritten or removed); and each entry that
    is new is either a directory made for the target path or lies
    directly in the target directory. *)
Theorem prepare_dataset_only_adds (self : DataProcessor) (t t1 t' : fs)
    (source_images : path) (method_name : string) (copy_mode : bool) :
  let target_dir := images_dir self ++ [method_name] in
  mkdir t target_dir = Ok t1 →
  iterdir t1 target_dir = Ok [] →
  prepare_dataset self t source_images method_name copy_mode = (t', Ok true) →
  t ⊆ t'
  ∧ (∀ f c, read_file t f = Ok c → read_file t' f = Ok c)
  ∧ (∀ p, is_dir t p = true → is_dir t' p = true)
  ∧ ∃ Q, resolve t' true target_dir = Ok Q
      ∧ ∀ k, is_Some (t' !! k) → is_Some (t1 !! k) ∨ ∃ d, k = Q ++ [d].
Proof.
  intros target_dir Hmk Hempty Hrun.
  apply prepare_dataset_true_inv in Hrun as (t1' & Hmk' & _ & Hloop).
  fold target_dir in Hmk', Hloop. rewrite Hmk in Hmk'. injection Hmk' as <-.
  destruct (iterdir_nil_inv _ _ Hempty) as (Q & HQ & HQdir & Hfresh).
  destruct (stage_all_staging t1 target_dir Q HQ HQdir Hfresh copy_mode
              _ t1 t' (staging_start _ _)
              (λ _, files_only_start _ _ Hfresh) Hloop)
    as (Hst & _).
  assert (t ⊆ t') as Hsub.
  { etrans; [by eapply mkdir_subseteq|apply Hst]. }
  split_and!; [done| | |].
  - intros f c. by apply read_file_mono.
  - intros p. by apply is_dir_mono.
  - exists Q. split; [|apply Hst].
    by apply (staging_target t1 target_dir Q HQ HQdir t' Hst).
Qed.

Lemma prepare_dataset_only_adds_witness :
  read_file same_names_linked ["src"; "day"; "0001.jpg"] = Ok (CBytes "day-1").
Proof.
  destruct (prepare_dataset_only_adds demo_processor same_names
    same_names_made same_names_linked ["src"] "raw" false) as (_ & Hread & _).
  - vm_refl.
  - vm_refl.
  - vm_refl.
  - apply Hread. vm_refl.
Defined.

(** ** Verifying what has just been staged *)

(** The last file of a given base name. *)
Lemma last_of_name (files : list path) (d : string) :
  d ∈ name <$> files →
  ∃ pre f post, files = pre ++ f :: post ∧ name f = d ∧ name f ∉ name <$> post.
Proof.
  induction files as [|g files IH]; intros Hd; [by apply elem_of_nil in Hd|].
  destruct (decide (d ∈ name <$> files)) as [Hin|Hnot].
  - destruct (IH Hin) as (pre & f & post & -> & Hf & Hpost).
    by exists (g :: pre), f, post.
  - rewrite fmap_cons in Hd. apply elem_of_cons in Hd as [->|Hd]; [|done].
    by exists [], g, files.
Qed.

Lemma reachable_child (t : fs) (q : path) (c c2 : string) (rest : path) :
  reachable t q (c :: c2 :: rest) = true → t !! (q ++ [c]) = Some Dir.
Proof.
  unfold reachable. simpl. intros H. apply andb_prop in H as [H _].
  by destruct (t !! (q ++ [c])) as [[| |]|].
Qed.

Lemma NoDup_length_le {A} (l k : list A) :
  NoDup l → (∀ x, x ∈ l → x ∈ k) → (length l ≤ length k)%nat.
Proof. intros Hl Hsub. by apply submseteq_length, NoDup_submseteq. Qed.

(** X16.  Verifying right after staging.  When [prepare_dataset] has
    succeeded into a target directory that started empty, [verify_dataset]
    for that method finds the image directory, and the number of images
    it counts is at most the number of distinct base names among the
    files that were staged; after a staging by copy it is exactly that
    number.  So files sharing a base name show up as a shortfall of
    [image_count] against the number of source files. *)
Theorem verify_after_prepare (self : DataProcessor) (t t1 t' : fs)
    (source_images : path) (method_name : string) (copy_mode : bool) :
  let target_dir := images_dir self ++ [method_name] in
  let image_files := _get_image_files t1 source_images in
  let names : gset string := list_to_set (name <$> image_files) in
  mkdir t target_dir = Ok t1 →
  iterdir t1 target_dir = Ok [] →
  prepare_dataset self t source_images method_name copy_mode = (t', Ok true) →
  let result := verify_dataset self t' method_name in
  images_exist result = true
  ∧ (image_count result ≤ size names)%nat
  ∧ (size names ≤ length image_files)%nat
  ∧ (copy_mode = true → image_count result = size names).
Proof.
  intros target_dir image_files names Hmk Hempty Hrun result.
  apply prepare_dataset_true_inv in Hrun as (t1' & Hmk' & _ & Hloop).
  fold target_dir in Hmk', Hloop. rewrite Hmk in Hmk'. injection Hmk' as <-.
  fold image_files in Hloop.
  destruct (iterdir_nil_inv _ _ Hempty) as (Q & HQ & HQdir & Hfresh).
  destruct (stage_all_staging t1 target_dir Q HQ HQdir Hfresh copy_mode
              image_files t1 t' (staging_start _ _)
              (λ _, files_only_start _ _ Hfresh) Hloop)
    as (Hst & Hkeys & _ & Hlast).
  destruct (staging_target t1 target_dir Q HQ HQdir t' Hst) as [HQ' HQdir'].
  pose proof (stat_intro _ _ _ HQ') as Hstat. rewrite HQdir' in Hstat.
  (* what lies in the target directory *)
  assert (∀ d x, t' !! (Q ++ [d]) = Some x →
            d ∈ names ∧ ∃ f, f ∈ image_files ∧ name f = d ∧ staged t1 copy_mode f x)
    as Hentry.
  { intros d x Hx.
    assert (d ∈ name <$> image_files) as Hd.
    { destruct (proj1 (Hkeys d)) as [[? H]|H]; [by eexists| |done].
      by rewrite Hfresh in H. }
    split; [by apply elem_of_list_to_set|].
    destruct (last_of_name _ _ Hd) as (pre & f & post & Hfiles & Hname & Hpost).
    destruct (Hlast pre f post Hfiles Hpost) as (x' & Hx' & Hstaged).
    rewrite Hname, Hx in Hx'. injection Hx' as <-.
    exists f. split_and!; [|done..]. rewrite Hfiles. set_solver. }
  assert (∀ d, t' !! (Q ++ [d]) ≠ Some Dir) as Hnodir.
  { intros d Hd. destruct (Hentry d Dir Hd) as (_ & f & _ & _ & Hstaged).
    unfold staged in Hstaged. destruct copy_mode; [|done].
    by destruct Hstaged as (c & ? & _). }
  (* what the listing of the target directory finds *)
  assert (∀ g, g ∈ _get_image_files t' target_dir →
            ∃ d, d ∈ names ∧ g = target_dir ++ [d]) as Hfound.
  { intros g [_ Hg]%list_elem_of_filter.
    apply elem_of_rglob in Hg as (q & rel & Hq & -> & Hne & [x Hx] & Hreach).
    rewrite Hstat in Hq. injection Hq as <-.
    destruct rel as [|c [|c2 rest]]; [done| |].
    - exists c. split; [|done]. by destruct (Hentry c x Hx).
    - by destruct (Hnodir c (reachable_child _ _ _ _ _ Hreach)). }
  assert (NoDup (_get_image_files t' target_dir)) as Hnodup
    by apply NoDup_get_image_files.
  assert (images_exist result = true
          ∧ image_count result = length (_get_image_files t' target_dir))
    as [Hex Hcount].
  { unfold result, verify_dataset. fold target_dir.
    assert (exists_ t' target_dir = true) as ->.
    { unfold exists_. by rewrite Hstat. }
    simpl. by destruct (exists_ t' (labels_dir self ++ ["val"])). }
  rewrite Hcount. split_and!; [done| | |].
  - unfold size, set_size. simpl.
    rewrite <-(length_fmap (λ d, target_dir ++ [d]) (elements names)).
    apply NoDup_length_le; [done|]. intros g (d & Hd & ->)%Hfound.
    apply list_elem_of_fmap. exists d. split; [done|by apply elem_of_elements].
  - unfold names. rewrite <-(length_fmap name image_files).
    apply size_list_to_set_le.
  - intros ->. unfold size, set_size. simpl.
    rewrite <-(length_fmap (λ d, target_dir ++ [d]) (elements names)).
    apply Permutation_length, NoDup_Permutation; [done| |].
    { apply NoDup_fmap_2; [|apply NoDup_elements].
      intros a b [= ?]%app_inv_head. done. }
    intros g. rewrite list_elem_of_fmap. split.
    + intros (d & Hd & ->)%Hfound. exists d. split; [done|by apply elem_of_elements].
    + intros (d & -> & Hd%elem_of_elements).
      apply elem_of_list_to_set in Hd.
      destruct (proj2 (Hkeys d) (or_intror Hd)) as [x Hx].
      destruct (Hentry d x Hx) as (_ & f & Hf & Hname & (c & -> & _)).
      assert (stat t' (target_dir ++ [d]) = Ok (Q ++ [d], Some (File c))) as Hsd.
      { rewrite (stat_intro t' _ (Q ++ [d])).
        - by rewrite node_at_cons, Hx by apply snoc_not_nil.
        - apply (staging_child_back t1 target_dir Q HQ HQdir); [done|].
          intros tgt. by rewrite Hx. }
      apply _get_image_files_child.
      * apply is_dir_stat. by exists Q.
      * unfold is_file. by rewrite Hsd.
      * rewrite <-Hname, (suffix_name [name f] f) by done.
        by apply (_get_image_files_inv t1 source_images).
Qed.

Lemma verify_after_prepare_witness :
  image_count (verify_dataset demo_processor same_names_copied "raw")
  = size (list_to_set (name <$> _get_image_files same_names_made ["src"])
            : gset string).
Proof.
  destruct (verify_after_prepare demo_processor same_names
    same_names_made same_names_copied ["src"] "raw" true) as (_ & _ & _ & H).
  - vm_refl.
  - vm_refl.
  - vm_refl.
  - by apply H.
Defined.


(** ** The statistics of several runs *)

Lemma Qc_min_le_l a b : Qc_min a b ≤ a.
Proof.
  unfold Qc_min. case_decide; [apply Qcle_refl|by apply Qc_le_of_not_le].
Qed.

Lemma Qc_min_le_r a b : Qc_min a b ≤ b.
Proof. unfold Qc_min. case_decide; [done|apply Qcle_refl]. Qed.

Lemma Qc_max_ge_l a b : a ≤ Qc_max a b.
Proof. unfold Qc_max. case_decide; [done|apply Qcle_refl]. Qed.

Lemma Qc_max_ge_r a b : b ≤ Qc_max a b.
Proof.
  unfold Qc_max. case_decide; [apply Qcle_refl|by apply Qc_le_of_not_le].
Qed.

Lemma np_min_le (values : list Qc) (lo : Qc) :
  np_min values = Some lo → ∀ x, x ∈ values → lo ≤ x.
Proof.
  destruct values as [|y l]; [done|]. intros [= <-].
  induction l as [|z l IH]; intros x Hx; simpl.
  - apply list_elem_of_singleton in Hx as ->. apply Qcle_refl.
  - apply elem_of_cons in Hx as [->|Hx].
    + eapply Qcle_trans; [apply Qc_min_le_r|]. apply IH. by left.
    + apply elem_of_cons in Hx as [->|Hx]; [apply Qc_min_le_l|].
      eapply Qcle_trans; [apply Qc_min_le_r|]. apply IH. by right.
Qed.

Lemma np_max_ge (values : list Qc) (hi : Qc) :
  np_max values = Some hi → ∀ x, x ∈ values → x ≤ hi.
Proof.
  destruct values as [|y l]; [done|]. intros [= <-].
  induction l as [|z l IH]; intros x Hx; simpl.
  - apply list_elem_of_singleton in Hx as ->. apply Qcle_refl.
  - apply elem_of_cons in Hx as [->|Hx].
    + eapply Qcle_trans; [|apply Qc_max_ge_r]. apply IH. by left.
    + apply elem_of_cons in Hx as [->|Hx]; [apply Qc_max_ge_l|].
      eapply Qcle_trans; [|apply Qc_max_ge_r]. apply IH. by right.
Qed.

Lemma np_min_elem_of (values : list Qc) (lo : Qc) :
  np_min values = Some lo → lo ∈ values.
Proof.
  destruct values as [|y l]; [done|]. intros [= <-].
  induction l as [|z l IH]; simpl; [by left|].
  unfold Qc_min at 1. case_decide.
  - by right; left.
  - apply elem_of_cons in IH as [->|IH]; [by left|by right; right].
Qed.

Lemma np_max_elem_of (values : list Qc) (hi : Qc) :
  np_max values = Some hi → hi ∈ values.
Proof.
  destruct values as [|y l]; [done|]. intros [= <-].
  induction l as [|z l IH]; simpl; [by left|].
  unfold Qc_max at 1. case_decide.
  - apply elem_of_cons in IH as [->|IH]; [by left|by right; right].
  - by right; left.
Qed.

Lemma statistics_of_total sqrt (values : list Qc) :
  values ≠ [] → ∃ s, statistics_of sqrt values = Some s.
Proof.
  destruct values as [|y l]; [done|]. intros _.
  unfold statistics_of, np_std. simpl. by eexists.
Qed.

Lemma statistics_of_bounds sqrt (values : list Qc) (s : statistics) :
  statistics_of sqrt values = Some s →
  s_min s ∈ values ∧ s_max s ∈ values
  ∧ ∀ x, x ∈ values → s_min s ≤ x ∧ x ≤ s_max s.
Proof.
  unfold statistics_of. intros H.
  destruct (np_mean values) as [m|] eqn:Em; [|done]. simpl in H.
  destruct (np_std sqrt values) as [sd|]; [|done]. simpl in H.
  destruct (np_min values) as [lo|] eqn:Elo; [|done]. simpl in H.
  destruct (np_max values) as [hi|] eqn:Ehi; [|done]. simpl in H.
  injection H as <-. simpl.
  pose proof (np_min_le _ _ Elo) as Hlo. pose proof (np_max_ge _ _ Ehi) as Hhi.
  split_and!; [by apply np_min_elem_of|by apply np_max_elem_of|].
  intros x Hx. split; [by apply Hlo|by apply Hhi].
Qed.

(** The dictionary [stats] when the loop over the names ends. *)
Lemma add_statistics_foldl sqrt (metrics_list : list (gmap string Qc))
    (names : list string) :
  metrics_list ≠ [] →
  ∀ acc, ∃ stats,
    foldl (add_statistics sqrt metrics_list) (Some acc) names = Some stats
    ∧ dom stats = dom acc ∪ list_to_set names
    ∧ ∀ name s, stats !! name = Some s →
        acc !! name = Some s
        ∨ statistics_of sqrt ((λ m, get m name 0) <$> metrics_list) = Some s.
Proof.
  intros Hne. induction names as [|n names IH]; intros acc; simpl.
  - exists acc. split_and!; [done|set_solver|auto].
  - destruct (statistics_of_total sqrt ((λ m, get m n 0) <$> metrics_list))
      as [s Hs].
    { by destruct metrics_list. }
    rewrite Hs. simpl.
    destruct (IH (<[n := s]> acc)) as (stats & -> & Hdom & Hval).
    exists stats. split_and!; [done| |].
    + rewrite Hdom, dom_insert_L. set_solver.
    + intros name s' Hs'. destruct (Hval name s' Hs') as [Hacc|?]; [|by right].
      destruct (decide (name = n)) as [->|Hn].
      * rewrite lookup_insert_eq in Hacc. injection Hacc as <-. by right.
      * rewrite lookup_insert_ne in Hacc by done. by left.
Qed.

Lemma list_to_set_keys (m : gmap string Qc) :
  list_to_set (map_to_list m).*1 = dom m.
Proof.
  apply set_eq. intros k.
  rewrite elem_of_list_to_set, elem_of_dom, list_elem_of_fmap. split.
  - intros ([k' v] & -> & Hk). apply elem_of_map_to_list in Hk. by exists v.
  - intros [v Hv]. exists (k, v). split; [done|by apply elem_of_map_to_list].
Qed.

(** X17.  [calculate_statistics] gives an answer for every list of
    runs, whatever square root is used: the empty dictionary for no run,
    and otherwise a dictionary whose keys are exactly the metric names
    of the first run.  A metric that only later runs report is left out. *)
Theorem calculate_statistics_keys (sqrt : Qc → Qc)
    (metrics_list : list (gmap string Qc)) :
  ∃ stats, calculate_statistics sqrt metrics_list = Some stats
    ∧ (metrics_list = [] → stats = ∅)
    ∧ (∀ first more, metrics_list = first :: more → dom stats = dom first).
Proof.
  destruct metrics_list as [|first more]; simpl.
  - exists ∅. by split_and!.
  - destruct (add_statistics_foldl sqrt (first :: more) (map_to_list first).*1
                ltac:(done) ∅) as (stats & Hstats & Hdom & _).
    exists stats. split_and!; [done|done|].
    intros ? ? [= <- <-]. rewrite Hdom, dom_empty_L, list_to_set_keys. set_solver.
Qed.

(** X18.  For every metric of the result, the minimum and the maximum
    are the values of two of the runs, the minimum is at most the
    maximum, and the value of every run lies between them, a run that
    does not report the metric counting as [0.0]: such a run pulls the
    minimum down to [0] or below.  (The mean is left out: a mean that is
    rounded need not lie between them.) *)
Theorem calculate_statistics_bounds (sqrt : Qc → Qc)
    (metrics_list : list (gmap string Qc)) (stats : gmap string statistics)
    (name : string) (s : statistics) :
  calculate_statistics sqrt metrics_list = Some stats →
  stats !! name = Some s →
  s_min s ≤ s_max s
  ∧ (∃ m, m ∈ metrics_list ∧ s_min s = get m name 0)
  ∧ (∃ m, m ∈ metrics_list ∧ s_max s = get m name 0)
  ∧ (∀ m, m ∈ metrics_list → s_min s ≤ get m name 0 ∧ get m name 0 ≤ s_max s)
  ∧ (∀ m, m ∈ metrics_list → m !! name = None → s_min s ≤ 0).
Proof.
  intros Hstats Hs. destruct metrics_list as [|first more].
  { injection Hstats as <-. by rewrite lookup_empty in Hs. }
  simpl in Hstats.
  destruct (add_statistics_foldl sqrt (first :: more) (map_to_list first).*1
              ltac:(done) ∅) as (stats' & Hstats' & _ & Hval).
  rewrite Hstats in Hstats'. injection Hstats' as <-.
  destruct (Hval name s Hs) as [Hempty|Hof]; [by rewrite lookup_empty in Hempty|].
  destruct (statistics_of_bounds _ _ _ Hof) as (Hlo & Hhi & Hall).
  assert (∀ m, m ∈ first :: more →
            s_min s ≤ get m name 0 ∧ get m name 0 ≤ s_max s) as Hruns.
  { intros m Hm. apply Hall, list_elem_of_fmap. by exists m. }
  apply list_elem_of_fmap in Hlo as (mlo & Elo & Hmlo).
  apply list_elem_of_fmap in Hhi as (mhi & Ehi & Hmhi).
  split_and!; [|by exists mlo|by exists mhi|done|].
  - rewrite Elo. by apply Hruns.
  - intros m Hm Hnone. destruct (Hruns m Hm) as [H0 _].
    unfold get in H0. by rewrite Hnone in H0.
Qed.

(** Two runs; the second does not report the recall. *)
Definition two_runs : list (gmap string Qc) :=
  [ <["precision" := Q2Qc 0.8]> (<["recall" := Q2Qc 0.6]> ∅);
    <["precision" := Q2Qc 0.6]> (<["mAP@0.5" := Q2Qc 0.5]> ∅) ].

Definition two_runs_statistics (sqrt : Qc → Qc) : gmap string statistics :=
  <["precision" := Statistics (Q2Qc 0.7) (sqrt (Q2Qc 0.01)) (Q2Qc 0.6) (Q2Qc 0.8)]>
    (<["recall" := Statistics (Q2Qc 0.3) (sqrt (Q2Qc 0.09)) 0 (Q2Qc 0.6)]> ∅).

Example statistics_of_two_runs (sqrt : Qc → Qc) :
  calculate_statistics sqrt two_runs = Some (two_runs_statistics sqrt).
Proof.
  unfold calculate_statistics, two_runs.
  assert ((map_to_list (<["precision" := Q2Qc 0.8]>
             (<["recall" := Q2Qc 0.6]> (∅ : gmap string Qc)))).*1
          = ["recall"; "precision"]) as -> by vm_refl.
  unfold two_runs_statistics. simpl. unfold add_statistics, statistics_of, np_std.
  simpl. by do 2 f_equal.
Qed.

Lemma calculate_statistics_bounds_witness :
  s_min (Statistics (Q2Qc 0.3) (Q2Qc 0.09) 0 (Q2Qc 0.6)) ≤ 0.
Proof.
  destruct (calculate_statistics_bounds (λ x, x) two_runs
              (two_runs_statistics (λ x, x)) "recall"
              (Statistics (Q2Qc 0.3) (Q2Qc 0.09) 0 (Q2Qc 0.6)))
    as (_ & _ & _ & _ & H).
  - apply statistics_of_two_runs.
  - reflexivity.
  - apply (H (<["precision" := Q2Qc 0.6]> (<["mAP@0.5" := Q2Qc 0.5]> ∅)));
      [by right; left|reflexivity].
Defined.


(** ** The evaluation descriptor *)

(** A resolution that fails keeps failing when the entry at another
    place, where resolution can only end, changes. *)
Lemma walk_frame_raise (t t' : fs) (q : path) (f : bool) :
  (∀ p, p ≠ q → t' !! p = t !! p) →
  terminal (t !! q) → terminal (t' !! q) →
  ∀ fuel cur todo e,
    walk fuel t f cur todo = Raise e → ∃ e', walk fuel t' f cur todo = Raise e'.
Proof.
  intros Hsame Hterm Hterm'.
  induction fuel as [|n IH]; intros cur [|c rest] e H; simpl in *; try done.
  { by eexists. }
  destruct (decide (cur ++ [c] = q)) as [Heq|Hne].
  - rewrite Heq in *.
    destruct (t !! q) as [[c'| |tgt]|]; try done;
      (destruct rest; [done|]);
      destruct (t' !! q) as [[c''| |tgt]|]; try done; by eexists.
  - rewrite (Hsame _ Hne).
    destruct (t !! (cur ++ [c])) as [[c'| |tgt]|].
    + destruct rest; [done|]. by eexists.
    + by eapply IH.
    + destruct rest as [|c2 rest]; [destruct f; [|done]|]; by eapply IH.
    + destruct rest; [done|]. by eexists.
Qed.

(** Writing a file does not change whether another path exists. *)
Lemma write_file_exists_frame t p c t' p0 :
  write_file t p c = Ok t' →
  resolve t true p0 ≠ resolve t true p →
  exists_ t' p0 = exists_ t p0.
Proof.
  intros (q & Hq & Hne & Hterm & ->)%write_file_inv Hdiff. rewrite Hq in Hdiff.
  assert (∀ p', p' ≠ q → (<[q:=File c]> t) !! p' = t !! p') as Hsame.
  { intros p' Hp'. by rewrite lookup_insert_ne. }
  unfold exists_, stat.
  destruct (resolve t true p0) as [r|e] eqn:Hr; simpl.
  - assert (r ≠ q) as Hrq by congruence.
    rewrite (resolve_frame t _ q true p0 r Hsame Hterm Hr Hrq). simpl.
    destruct r as [|a r]; [done|]. simpl. by rewrite lookup_insert_ne.
  - unfold resolve in *.
    destruct (walk_frame_raise t _ q true Hsame Hterm
                ltac:(by rewrite lookup_insert_eq) _ _ _ _ Hr) as [e' ->].
    done.
Qed.

(** Writing over a file what it already holds changes nothing. *)
Lemma write_file_again t p c t' :
  write_file t p c = Ok t' → write_file t' p c = Ok t'.
Proof.
  intros (q & Hq & Hne & Hterm & ->)%write_file_inv.
  assert (resolve (<[q:=File c]> t) true p = Ok q) as Hq'.
  { apply (resolve_update t _ q true true); [..|exact Hq].
    - intros p' Hp'. by rewrite lookup_insert_ne.
    - done.
    - done.
    - intros tgt. by rewrite lookup_insert_eq. }
  unfold write_file. rewrite (stat_intro _ _ _ Hq').
  rewrite node_at_cons, lookup_insert_eq by done. simpl.
  by rewrite insert_insert_eq.
Qed.

(** X19.  [create_yaml_config] can be repeated.  Once it has written
    the descriptor of a method, a second call for the same method
    returns the same path and leaves the file system exactly as the
    first call left it, provided the [val] directory it probes is not
    the descriptor file itself. *)
Theorem create_yaml_config_again (package_dir : path)
    (yaml_dump : yaml_config → string) (self : YOLOEvaluator.t)
    (t t1 t2 : fs) (method_name : string) (config_path : path) :
  let config_dir := package_dir ++ ["config"; "yolo_configs"] in
  let val_dir := YOLOEvaluator.data_root self ++ ["images"; method_name] ++ ["val"] in
  mkdir t config_dir = Ok t1 →
  create_yaml_config package_dir yaml_dump self t method_name
    = (t2, Ok config_path) →
  resolve t1 true val_dir ≠ resolve t1 true config_path →
  create_yaml_config package_dir yaml_dump self t2 method_name
    = (t2, Ok config_path).
Proof.
  intros config_dir val_dir Hmk Hrun Hdiff.
  unfold create_yaml_config in *. fold config_dir in Hrun |- *.
  rewrite Hmk in Hrun.
  rewrite <-(assoc_L (++)) in Hrun. fold val_dir in Hrun.
  destruct (write_file t1 _ _) as [t2'|] eqn:Hwr; [|done].
  injection Hrun as <- <-.
  assert (is_dir t2' config_dir = true) as Hdir.
  { eapply write_file_is_dir; [exact Hwr|]. by eapply mkdir_is_dir. }
  rewrite (mkdir_existing _ _ Hdir).
  rewrite <-(assoc_L (++)). fold val_dir.
  rewrite (write_file_exists_frame _ _ _ _ _ Hwr Hdiff).
  by rewrite (write_file_again _ _ _ _ Hwr).
Qed.

Definition demo_evaluator : YOLOEvaluator.t :=
  YOLOEvaluator.Make ["weights"; "yolov8n.pt"] ["data"] ["out"].

Definition demo_descriptor : fs * res path :=
  create_yaml_config ["pkg"] (λ _, "yaml"%string) demo_evaluator staged_abc "raw".

Lemma create_yaml_config_again_witness :
  create_yaml_config ["pkg"] (λ _, "yaml"%string) demo_evaluator
    demo_descriptor.1 "raw"
  = (demo_descriptor.1, Ok ["pkg"; "config"; "yolo_configs"; "bdd100k_raw.yaml"]).
Proof.
  apply (create_yaml_config_again ["pkg"] (λ _, "yaml"%string) demo_evaluator
           staged_abc
           (<[["pkg"; "config"; "yolo_configs"] := Dir]>
              (<[["pkg"; "config"] := Dir]> (<[["pkg"] := Dir]> staged_abc)))).
  - vm_refl.
  - vm_refl.
  - vm_compute. discriminate.
Defined.

(** ** One evaluation *)

Lemma extract_yolo_metrics_dom (metrics_obj : metrics_object) :
  dom (extract_yolo_metrics metrics_obj).1 = five_keys.
Proof.
  unfold extract_yolo_metrics.
  destruct (extract_body metrics_obj) as [d|e] eqn:E; simpl;
    [by eapply extract_body_dom|apply dom_five].
Qed.

#[local] Instance res_eq_dec {A} `{EqDecision A} : EqDecision (res A).
Proof. solve_decision. Defined.

(** Writing a file does not make another path disappear. *)
Lemma write_file_exists_mono t p c t' p0 :
  write_file t p c = Ok t' → exists_ t p0 = true → exists_ t' p0 = true.
Proof.
  intros Hwr Hex.
  destruct (decide (resolve t true p0 = resolve t true p)) as [Heq|Hne].
  - destruct (write_file_read _ _ _ _ Hwr) as [_ Hp].
    apply write_file_inv in Hwr as (q & Hq & Hqne & Hterm & ->).
    rewrite Hq in Heq. unfold exists_, stat in *.
    assert (resolve (<[q:=File c]> t) true p0 = Ok q) as ->.
    { apply (resolve_update t _ q true true); [..|exact Heq].
      - intros p' Hp'. by rewrite lookup_insert_ne.
      - done.
      - done.
      - intros tgt. by rewrite lookup_insert_eq. }
    simpl. by rewrite node_at_cons, lookup_insert_eq.
  - by rewrite (write_file_exists_frame _ _ _ _ _ Hwr Hne).
Qed.

(** X20.  Once the descriptor is written and the output directory
    made, [evaluate] returns a dictionary whatever the engine does, and
    raises nothing.  The dictionary is either empty (something failed
    inside the [try]) or has exactly six keys, the five metrics and
    ['f1_score'], the latter computed from its precision and recall; in
    that case the history has gained one entry that refers to this very
    dictionary, and [metrics.json] and [metrics_summary.txt] both exist
    in the output directory. *)
Theorem evaluate_returns (package_dir : path)
    (yaml_dump : yaml_config → string)
    (val : fs → path → path → fs * res metrics_object)
    (self : YOLOEvaluator.t) (calc : MetricsCalculator) (w : world)
    (method_name : string) (t1 t2 : fs) (yaml_path : path) :
  let output_dir := YOLOEvaluator.output_root self ++ [method_name] in
  create_yaml_config package_dir yaml_dump self (w_fs w) method_name
    = (t1, Ok yaml_path) →
  mkdir t1 output_dir = Ok t2 →
  ∃ calc' w' l d,
    evaluate package_dir yaml_dump val self calc w method_name = (calc', w', Ok l)
    ∧ (l ∉ dom (w_store w))
    ∧ w_store w' !! l = Some d
    ∧ (d = ∅
       ∨ (dom d = five_keys ∪ {["f1_score"]}
          ∧ d !! "f1_score"
            = Some (calculate_f1_score (get d "precision" 0) (get d "recall" 0))
          ∧ metrics_history calc'
            = metrics_history calc
              ++ [ResultObject (stem (YOLOEvaluator.model_path self)) method_name l]
          ∧ exists_ (w_fs w') (output_dir ++ ["metrics.json"]) = true
          ∧ exists_ (w_fs w') (output_dir ++ ["metrics_summary.txt"]) = true)).
Proof.
  intros output_dir Hcfg Hmk. unfold evaluate. rewrite Hcfg. fold output_dir.
  rewrite Hmk.
  assert (∀ calc0 w0, dom (w_store w) ⊆ dom (w_store w0) →
    ∃ calc' w' l d, evaluation_failed calc0 w0 = (calc', w', Ok l)
      ∧ (l ∉ dom (w_store w)) ∧ w_store w' !! l = Some d ∧ d = ∅) as Hfailed.
  { intros calc0 w0 Hsub. unfold evaluation_failed.
    eexists _, _, _, ∅. split_and!; [done| |by apply lookup_insert_eq|done].
    intros Hin. by apply (is_fresh (dom (w_store w0))), Hsub. }
  destruct (val t2 yaml_path output_dir) as [t3 [metrics|e]].
  2: { destruct (Hfailed calc (World t3 (w_store w)) ltac:(done))
         as (calc' & w' & l & d & -> & ? & ? & ?).
       exists calc', w', l, d. split_and!; [done..|by left]. }
  set (l := fresh (dom (w_store w))).
  assert (l ∉ dom (w_store w)) as Hl by apply is_fresh.
  set (extracted := (extract_yolo_metrics metrics).1).
  set (model_name := stem (YOLOEvaluator.model_path self)).
  unfold save_metrics. simpl. rewrite parent_snoc, lookup_insert_eq.
  set (f1 := calculate_f1_score (get extracted "precision" 0)
                                (get extracted "recall" 0)).
  set (d := <["f1_score" := f1]> extracted).
  rewrite insert_insert_eq.
  destruct (mkdir t3 output_dir) as [t4|] eqn:Hmk4.
  2: { destruct (Hfailed calc (World t3 (<[l := extracted]> (w_store w))))
         as (calc' & w' & l' & d' & -> & ? & ? & ?).
       { simpl. rewrite dom_insert_L. set_solver. }
       exists calc', w', l', d'. split_and!; [done..|by left]. }
  destruct (write_file t4 (output_dir ++ ["metrics.json"]) _) as [t5|] eqn:Hwr5.
  2: { destruct (Hfailed calc (World t4 (<[l := d]> (w_store w))))
         as (calc' & w' & l' & d' & -> & ? & ? & ?).
       { simpl. rewrite dom_insert_L. set_solver. }
       exists calc', w', l', d'. split_and!; [done..|by left]. }
  assert (is_dir t5 output_dir = true) as Hdir5.
  { eapply write_file_is_dir; [exact Hwr5|]. by eapply mkdir_is_dir. }
  unfold save_metrics_summary. simpl.
  rewrite parent_snoc, (mkdir_existing _ _ Hdir5), lookup_insert_eq.
  destruct (write_file t5 (output_dir ++ ["metrics_summary.txt"]) _)
    as [t6|] eqn:Hwr6.
  2: { destruct (Hfailed {| metrics_history := metrics_history calc
                              ++ [ResultObject model_name method_name l] |}
                   (World t5 (<[l := d]> (w_store w))))
         as (calc' & w' & l' & d' & -> & ? & ? & ?).
       { simpl. rewrite dom_insert_L. set_solver. }
       exists calc', w', l', d'. split_and!; [done..|by left]. }
  eexists _, _, l, d. split_and!; [done|done|by apply lookup_insert_eq|].
  right. simpl. split_and!.
  - unfold d. rewrite dom_insert_L. unfold extracted.
    rewrite extract_yolo_metrics_dom. set_solver.
  - unfold d at 1. rewrite lookup_insert_eq. unfold get, d.
    by rewrite !lookup_insert_ne.
  - done.
  - eapply write_file_exists_mono; [exact Hwr6|].
    by destruct (write_file_read _ _ _ _ Hwr5).
  - by destruct (write_file_read _ _ _ _ Hwr6).
Qed.

(** An engine that reports the box of [full_box] and writes nothing,
    and one that always fails. *)
Definition demo_engine (t : fs) (data project : path) : fs * res metrics_object :=
  (t, Ok {| box := Present full_box |}).

Definition failing_engine (t : fs) (data project : path) : fs * res metrics_object :=
  (t, Raise RuntimeError).

Definition demo_dump (config : yaml_config) : string := "yaml".

Definition demo_evaluation : MetricsCalculator * world * res loc :=
  evaluate ["pkg"] demo_dump demo_engine demo_evaluator demo_calculator
    (World staged_abc ∅) "raw".

Definition failed_evaluation : MetricsCalculator * world * res loc :=
  evaluate ["pkg"] demo_dump failing_engine demo_evaluator demo_calculator
    (World staged_abc ∅) "raw".

Example demo_evaluation_history :
  demo_evaluation.1.1
  = {| metrics_history := [ResultObject "yolov8n" "raw" 0] |}
  ∧ demo_evaluation.2 = Ok 0%nat
  ∧ dom <$> (w_store demo_evaluation.1.2 !! 0%nat)
    = Some (five_keys ∪ {["f1_score"]}).
Proof. split_and!; vm_refl. Qed.

Example failed_evaluation_empty :
  failed_evaluation.1.1 = demo_calculator
  ∧ failed_evaluation.2 = Ok 0%nat
  ∧ w_store failed_evaluation.1.2 !! 0%nat = Some ∅
  ∧ exists_ (w_fs failed_evaluation.1.2) ["out"; "raw"; "metrics.json"] = false.
Proof. split_and!; vm_refl. Qed.

Lemma evaluate_returns_witness :
  ∃ calc' w' l d,
    failed_evaluation = (calc', w', Ok l)
    ∧ (l ∉ dom (∅ : gmap loc (gmap string Qc)))
    ∧ w_store w' !! l = Some d
    ∧ (d = ∅
       ∨ (dom d = five_keys ∪ {["f1_score"]}
          ∧ d !! "f1_score"
            = Some (calculate_f1_score (get d "precision" 0) (get d "recall" 0))
          ∧ metrics_history calc'
            = metrics_history demo_calculator ++ [ResultObject "yolov8n" "raw" l]
          ∧ exists_ (w_fs w') (["out"; "raw"] ++ ["metrics.json"]) = true
          ∧ exists_ (w_fs w') (["out"; "raw"] ++ ["metrics_summary.txt"]) = true)).
Proof.
  apply (evaluate_returns ["pkg"] demo_dump failing_engine demo_evaluator
           demo_calculator (World staged_abc ∅) "raw"
           (create_yaml_config ["pkg"] demo_dump demo_evaluator staged_abc "raw").1
           (<[["out"; "raw"] := Dir]> (<[["out"] := Dir]>
              (create_yaml_config ["pkg"] demo_dump demo_evaluator
                 staged_abc "raw").1))
           ["pkg"; "config"; "yolo_configs"; "bdd100k_raw.yaml"]).
  - vm_refl.
  - vm_refl.
Defined.

(** ** The label listing *)

(** [glob('*.txt')] lists exactly the entries directly in the directory
    whose names end in [.txt], each once. *)
Lemma glob_txt_spec (t : fs) (directory f : path) :
  NoDup (glob_txt t directory)
  ∧ (f ∈ glob_txt t directory ↔
     ∃ q c, stat t directory = Ok (q, Some Dir) ∧ f = directory ++ [c]
            ∧ is_Some (t !! (q ++ [c])) ∧ matches_star_txt c = true).
Proof.
  unfold glob_txt. split.
  - destruct (stat t directory) as [[q [[| |]|]]|]; try apply NoDup_nil_2.
    apply NoDup_fmap_2; [|apply NoDup_filter, NoDup_children].
    intros a b [= ?]%app_inv_head. done.
  - split.
    + destruct (stat t directory) as [[q [[| |]|]]|]; try (by intros ?%elem_of_nil).
      intros (c & -> & Hc)%list_elem_of_fmap.
      apply list_elem_of_filter in Hc as [Hm Hc%elem_of_children].
      by exists q, c.
    + intros (q & c & -> & -> & Hc & Hm).
      apply list_elem_of_fmap. exists c. split; [done|].
      apply list_elem_of_filter. split; [done|by apply elem_of_children].
Qed.

(** X21.  What [verify_dataset] counts as labels.  When the image
    directory exists and [labels/val] is a directory, [label_count] is
    the number of entries directly in [labels/val] whose names end in
    [.txt]: the listing does not descend into subdirectories and does
    not ask what an entry is, so a directory or a dangling link of such a
    name is counted like a label file; and such an entry whose stem is
    the stem of an image pairs with it, so that [matched_count] is
    positive. *)
Theorem verify_dataset_label_entries (self : DataProcessor) (t : fs)
    (method_name : string) (q : path) :
  exists_ t (images_dir self ++ [method_name]) = true →
  stat t (labels_dir self ++ ["val"]) = Ok (q, Some Dir) →
  ∃ names : list string,
    NoDup names
    ∧ (∀ c, c ∈ names ↔ is_Some (t !! (q ++ [c])) ∧ matches_star_txt c = true)
    ∧ label_count (verify_dataset self t method_name) = length names
    ∧ (∀ c f, c ∈ names →
         f ∈ _get_image_files t (images_dir self ++ [method_name]) →
         stem f = stem [c] →
         (0 < matched_count (verify_dataset self t method_name))%nat).
Proof.
  intros Himg Hstat.
  assert (exists_ t (labels_dir self ++ ["val"]) = true) as Hlab.
  { unfold exists_. by rewrite Hstat. }
  unfold verify_dataset. rewrite Himg, Hlab. simpl.
  unfold glob_txt. rewrite Hstat.
  exists (filter (λ c, matches_star_txt c = true) (children t q)).
  split_and!.
  - apply NoDup_filter, NoDup_children.
  - intros c. rewrite list_elem_of_filter, elem_of_children. tauto.
  - by rewrite length_fmap.
  - intros c f Hc Hf Hstem.
    assert (stem f ∈ stems (_get_image_files t (images_dir self ++ [method_name]))
                     ∩ stems ((λ c, (labels_dir self ++ ["val"]) ++ [c]) <$>
                        filter (λ c, matches_star_txt c = true) (children t q)))
      as Hin.
    { apply elem_of_intersection. split.
      - apply elem_of_list_to_set, list_elem_of_fmap. by exists f.
      - apply elem_of_list_to_set, list_elem_of_fmap.
        exists ((labels_dir self ++ ["val"]) ++ [c]). split.
        + rewrite Hstem. apply stem_name. by rewrite name_snoc.
        + apply list_elem_of_fmap. by exists c. }
    destruct (size _) eqn:E; [|lia].
    apply size_empty_iff in E. by apply E in Hin.
Qed.

(** An image [old.jpg]; a label directory that holds one label file, a
    directory named like a label file, and label files one level down. *)
Definition labels_with_folder : fs :=
  list_to_map
    [ (["data"], Dir); (["data"; "images"], Dir); (["data"; "images"; "raw"], Dir);
      (["data"; "images"; "raw"; "old.jpg"], empty_file);
      (["data"; "labels"], Dir); (["data"; "labels"; "val"], Dir);
      (["data"; "labels"; "val"; "a.txt"], empty_file);
      (["data"; "labels"; "val"; "old.txt"], Dir);
      (["data"; "labels"; "val"; "old.txt"; "b.txt"], empty_file);
      (["data"; "labels"; "val"; "A.TXT"], empty_file) ].

Example glob_txt_counts_a_directory :
  glob_txt labels_with_folder ["data"; "labels"; "val"]
  = [["data"; "labels"; "val"; "old.txt"]; ["data"; "labels"; "val"; "a.txt"]].
Proof. vm_refl. Qed.

Example verify_dataset_counts_a_directory :
  verify_dataset demo_processor labels_with_folder "raw"
  = VerifyResult "raw" true true 1 2 1 [UnmatchedLabels 1].
Proof. vm_refl. Qed.

Lemma verify_dataset_label_entries_witness :
  (0 < matched_count (verify_dataset demo_processor labels_with_folder "raw"))%nat.
Proof.
  destruct (verify_dataset_label_entries demo_processor labels_with_folder "raw"
              ["data"; "labels"; "val"]) as (names & _ & Hnames & _ & Hmatched).
  - vm_refl.
  - vm_refl.
  - apply (Hmatched "old.txt" ["data"; "images"; "raw"; "old.jpg"]).
    + apply Hnames. split; [exists Dir; vm_refl|reflexivity].
    + assert (_get_image_files labels_with_folder
                (images_dir demo_processor ++ ["raw"])
              = [["data"; "images"; "raw"; "old.jpg"]]) as -> by vm_refl.
      by left.
    + reflexivity.
Defined.

(** ** The radar chart stays inside its axis *)

Lemma normalised_range (df : DataFrame) (col : row → Qc) (r : row) :
  r ∈ df → (∀ x, x ∈ df → 0 ≤ col x) →
  0 ≤ normalised df col r ∧ normalised df col r ≤ 1.
Proof.
  intros Hr Hpos. unfold normalised, column_max.
  destruct (np_max (col <$> df)) as [mx|] eqn:Emx.
  - pose proof (np_max_ge _ _ Emx (col r)) as Hle.
    assert (col r ≤ mx) as Hrm.
    { apply Hle, list_elem_of_fmap. by exists r. }
    case_decide as Hmx.
    + assert (col r / mx * mx = col r) as E.
      { field. intros E0. rewrite E0 in Hmx. by apply Qclt_not_eq in Hmx. }
      split; apply (Qcmult_lt_0_le_reg_r _ _ mx Hmx); rewrite E.
      * rewrite Qcmult_0_l. by apply Hpos.
      * by rewrite Qcmult_1_l.
    + split; [by apply Hpos|].
      apply Qcnot_lt_le in Hmx. eapply Qcle_trans; [exact Hrm|].
      eapply Qcle_trans; [exact Hmx|by vm_compute].
  - destruct df; [by apply elem_of_nil in Hr|done].
Qed.

(** X22.  The radar chart draws every method inside the axis it sets,
    [0] to [1]: for a table of at least two rows whose figures are not
    negative, each polygon has six points, closes on its first point,
    and all its values lie between [0] and [1]; and in every column
    whose largest figure is positive, some method reaches [1]. *)
Theorem radar_polygons_in_range (df : DataFrame)
    (polygons : list (string * list Qc)) :
  radar_polygons df = Some polygons →
  (∀ r col, r ∈ df → col ∈ radar_metrics → 0 ≤ col r) →
  (∀ label values, (label, values) ∈ polygons →
     length values = 6%nat
     ∧ values !! 5%nat = values !! 0%nat
     ∧ ∀ v, v ∈ values → 0 ≤ v ∧ v ≤ 1)
  ∧ (∀ col max_val, col ∈ radar_metrics → column_max df col = Some max_val →
       0 < max_val → ∃ r, r ∈ df ∧ normalised df col r = 1).
Proof.
  unfold radar_polygons. case_decide as Hlen; [done|]. intros [= <-] Hpos. split.
  - intros label values (r & [= -> ->] & Hr)%list_elem_of_fmap.
    split_and!; [done..|].
    intros v Hv.
    repeat (apply elem_of_cons in Hv as [->|Hv]); [..|by apply elem_of_nil in Hv];
      (apply normalised_range; [done|]); intros x Hx; (apply Hpos; [done|]);
      unfold radar_metrics; repeat first [by left | right].
  - intros col mx Hcol Hmx Hgt.
    pose proof (np_max_elem_of _ _ Hmx) as Hin.
    apply list_elem_of_fmap in Hin as (r & Hr & Hin).
    exists r. split; [done|]. unfold normalised. rewrite Hmx, decide_True by done.
    rewrite <-Hr. field. intros E0. rewrite E0 in Hgt.
    by apply Qclt_not_eq in Hgt.
Qed.

Lemma radar_polygons_in_range_witness :
  ∃ r, r ∈ table_543 ∧ normalised table_543 mAP_50_95 r = 1.
Proof.
  destruct (radar_polygons_in_range table_543
              ((λ r, let values := (λ col, normalised table_543 col r)
                                     <$> radar_metrics in
                     (Method r, values ++ take 1 values)) <$> table_543))
    as [_ H].
  - reflexivity.
  - intros r col Hr Hcol.
    repeat (apply elem_of_cons in Hr as [->|Hr]);
      [..|by apply elem_of_nil in Hr];
      (repeat (apply elem_of_cons in Hcol as [->|Hcol]);
        [..|by apply elem_of_nil in Hcol]); by vm_compute.
  - apply (H mAP_50_95 (Q2Qc 0.5)); [by right; left| |by vm_compute].
    qc_compute.
Defined.

(** ** Two methods in one results directory *)

(** X24.  Saving the results of a second method keeps the first.  When
    [save_metrics] has written [{root}/{a}/metrics.json] and then, for
    another method, [{root}/{b}/metrics.json] (the two not being the same
    file), and every entry of the results root loads,
    [create_comparison_table] returns a table that has a row for each of
    the two methods, with the mAP@0.5:0.95 each dictionary held when it
    was saved; and the history lists the two saves in order. *)
Theorem two_methods_both_in_table `{Pandas} (self self1 self2 : MetricsCalculator)
    (w w1 w2 : world) (metrics_a metrics_b : loc) (da db : gmap string Qc)
    (method_a method_b model_name : string) (root : path) (a b : string)
    (t2 : fs) :
  w_store w !! metrics_a = Some da →
  save_metrics self w metrics_a method_a model_name
    (root ++ [a; "metrics.json"]) = (self1, w1, Ok ()) →
  w_store w1 !! metrics_b = Some db →
  mkdir (w_fs w1) (root ++ [b]) = Ok t2 →
  samefile t2 (root ++ [a; "metrics.json"]) (root ++ [b; "metrics.json"]) = false →
  save_metrics self1 w1 metrics_b method_b model_name
    (root ++ [b; "metrics.json"]) = (self2, w2, Ok ()) →
  (∀ dirs p, iterdir (w_fs w2) root = Ok dirs → p ∈ dirs →
     ∃ r, load_row (w_fs w2) p = Ok r) →
  ∃ df xa xb, create_comparison_table (w_fs w2) root = Ok df
    ∧ xa ∈ df ∧ Method xa = method_a
    ∧ mAP_50_95 xa = get da "mAP@0.5:0.95" 0
    ∧ xb ∈ df ∧ Method xb = method_b
    ∧ mAP_50_95 xb = get db "mAP@0.5:0.95" 0
    ∧ metrics_history self2
      = metrics_history self
        ++ [ResultObject model_name method_a metrics_a;
            ResultObject model_name method_b metrics_b].
Proof.
  intros Hda Hsa Hdb Hmk Hsame Hsb Hloads.
  destruct (save_metrics_on_disk _ _ _ _ _ _ _ _ _ _ Hda Hsa) as (Hdira & _ & Hreada).
  destruct (save_metrics_on_disk _ _ _ _ _ _ _ _ _ _ Hdb Hsb) as (Hdirb & Hexb & Hreadb).
  assert (metrics_history self1
          = metrics_history self ++ [ResultObject model_name method_a metrics_a])
    as Hhist1.
  { unfold save_metrics in Hsa.
    destruct (mkdir _ _); [|done]. rewrite Hda in Hsa.
    destruct (write_file _ _ _); [|done]. by injection Hsa as <- _. }
  rewrite !metrics_path in Hsame. rewrite metrics_path in Hsb.
  unfold save_metrics in Hsb. rewrite parent_snoc, Hmk, Hdb in Hsb.
  destruct (write_file t2 _ _) as [t3|] eqn:Hwr; [|done].
  injection Hsb as <- <-. simpl in *.
  pose proof (mkdir_subseteq _ _ _ Hmk) as Hsub.
  assert (is_dir t3 (root ++ [a]) = true) as Hdira3.
  { eapply write_file_is_dir; [exact Hwr|]. by eapply is_dir_mono. }
  eapply read_file_mono in Hreada; [|exact Hsub].
  eapply write_file_frame in Hreada; [|exact Hwr|done].
  destruct (iterdir_lists_subdir _ _ _ Hdira3) as (dirs & Hdirs & Hina).
  destruct (iterdir_lists_subdir _ _ _ Hdirb) as (dirs' & Hdirs' & Hinb).
  rewrite Hdirs in Hdirs'. injection Hdirs' as <-.
  destruct (scan_total t3 dirs) as [data Hscan]; [by eauto|].
  assert (collect_rows t3 root = Ok data) as Hc.
  { unfold collect_rows. by rewrite Hdirs. }
  destruct (table_elem_of _ _ _ Hc) as (df & Hdf & Hmem).
  assert (∃ xa, load_row t3 (root ++ [a]) = Ok (Some xa)
            ∧ Method xa = method_a
            ∧ mAP_50_95 xa = get da "mAP@0.5:0.95" 0) as (xa & Hxa & Hma & Hva).
  { unfold load_row. rewrite Hdira3, (read_file_exists _ _ _ Hreada), Hreada.
    simpl. eexists. split_and!; [done..|].
    simpl. unfold get. by rewrite lookup_insert_ne. }
  assert (∃ xb, load_row t3 (root ++ [b]) = Ok (Some xb)
            ∧ Method xb = method_b
            ∧ mAP_50_95 xb = get db "mAP@0.5:0.95" 0) as (xb & Hxb & Hmb & Hvb).
  { unfold load_row. rewrite Hdirb, Hexb, Hreadb.
    simpl. eexists. split_and!; [done..|].
    simpl. unfold get. by rewrite lookup_insert_ne. }
  exists df, xa, xb. split_and!; try done.
  - apply Hmem, (scan_elem_of _ _ _ _ _ Hscan Hina Hxa).
  - apply Hmem, (scan_elem_of _ _ _ _ _ Hscan Hinb Hxb).
  - by rewrite Hhist1, <-(assoc_L (++)).
Qed.

(** Two dictionaries, saved under [out/raw] and then under [out/hsv]. *)
Definition demo_metrics_hsv : gmap string Qc :=
  <["mAP@0.5:0.95" := Q2Qc 0.5]> (<["precision" := Q2Qc 0.8]>
    (<["recall" := Q2Qc 0.7]> ∅)).

Definition demo_world_two : world :=
  World ∅ (<[1%nat := demo_metrics_hsv]> {[ 0%nat := demo_metrics ]}).

Definition demo_saved_raw : MetricsCalculator * world * res unit :=
  save_metrics demo_calculator demo_world_two 0 "raw" "yolov8n"
    ["out"; "raw"; "metrics.json"].

Definition demo_saved_hsv : MetricsCalculator * world * res unit :=
  save_metrics demo_saved_raw.1.1 demo_saved_raw.1.2 1 "hsv" "yolov8n"
    ["out"; "hsv"; "metrics.json"].

Lemma demo_saved_hsv_loads dirs p :
  iterdir (w_fs demo_saved_hsv.1.2) ["out"] = Ok dirs → p ∈ dirs →
  ∃ r, load_row (w_fs demo_saved_hsv.1.2) p = Ok r.
Proof.
  assert (iterdir (w_fs demo_saved_hsv.1.2) ["out"]
          = Ok [["out"; "raw"]; ["out"; "hsv"]]) as -> by vm_refl.
  intros [= <-] Hp.
  repeat (apply elem_of_cons in Hp as [->|Hp]); [..|by apply elem_of_nil in Hp].
  - destruct (load_row (w_fs demo_saved_hsv.1.2) ["out"; "raw"]) eqn:E;
      [by eexists|]. vm_compute in E. discriminate E.
  - destruct (load_row (w_fs demo_saved_hsv.1.2) ["out"; "hsv"]) eqn:E;
      [by eexists|]. vm_compute in E. discriminate E.
Qed.

Lemma two_methods_both_in_table_witness :
  ∃ df xa xb,
    @create_comparison_table stable_pandas (w_fs demo_saved_hsv.1.2) ["out"] = Ok df
    ∧ xa ∈ df ∧ Method xa = "raw"
    ∧ mAP_50_95 xa = get demo_metrics "mAP@0.5:0.95" 0
    ∧ xb ∈ df ∧ Method xb = "hsv"
    ∧ mAP_50_95 xb = get demo_metrics_hsv "mAP@0.5:0.95" 0
    ∧ metrics_history demo_saved_hsv.1.1
      = metrics_history demo_calculator
        ++ [ResultObject "yolov8n" "raw" 0; ResultObject "yolov8n" "hsv" 1].
Proof.
  apply (@two_methods_both_in_table stable_pandas demo_calculator demo_saved_raw.1.1
           demo_saved_hsv.1.1 demo_world_two demo_saved_raw.1.2 demo_saved_hsv.1.2
           0 1 demo_metrics demo_metrics_hsv "raw" "hsv" "yolov8n" ["out"]
           "raw" "hsv"
           (<[["out"; "hsv"] := Dir]> (w_fs demo_saved_raw.1.2))).
  - reflexivity.
  - vm_refl.
  - vm_refl.
  - vm_refl.
  - vm_refl.
  - vm_refl.
  - apply demo_saved_hsv_loads.
Defined.

(** ** The statistics of a single run *)

Lemma Qc_of_nat_1 : Qc_of_nat 1 = 1.
Proof. qc_compute. Qed.

(** X25.  For a single run the statistics collapse: the mean, the
    minimum and the maximum of every metric are the value the run
    reports, and the standard deviation is the square root of [0]. *)
Theorem calculate_statistics_single_run (sqrt : Qc → Qc)
    (run : gmap string Qc) (stats : gmap string statistics) (name : string)
    (v : Qc) :
  calculate_statistics sqrt [run] = Some stats →
  run !! name = Some v →
  stats !! name = Some (Statistics v (sqrt 0) v v).
Proof.
  intros Hstats Hv. simpl in Hstats.
  destruct (add_statistics_foldl sqrt [run] (map_to_list run).*1
              ltac:(done) ∅) as (stats' & Hstats' & Hdom & Hval).
  rewrite Hstats in Hstats'. injection Hstats' as <-.
  assert (is_Some (stats !! name)) as [s Hs].
  { apply elem_of_dom. rewrite Hdom, dom_empty_L, list_to_set_keys.
    apply elem_of_union_r, elem_of_dom. by eexists. }
  rewrite Hs. f_equal.
  destruct (Hval name s Hs) as [Hempty|Hof]; [by rewrite lookup_empty in Hempty|].
  assert ((λ m, get m name 0) <$> [run] = [v]) as Hvalues.
  { simpl. unfold get. by rewrite Hv. }
  rewrite Hvalues in Hof.
  unfold statistics_of, np_std, np_mean, np_min, np_max in Hof.
  simpl in Hof. rewrite Qc_of_nat_1 in Hof.
  injection Hof as <-.
  assert ((v + 0) / 1 = v) as -> by (by field).
  assert (((v - v) * (v - v) + 0) / 1 = 0) as -> by (by field).
  done.
Qed.

Lemma calculate_statistics_single_run_witness :
  <["precision" := Statistics (Q2Qc 0.8) (Q2Qc 0) (Q2Qc 0.8) (Q2Qc 0.8)]>
    (∅ : gmap string statistics) !! "precision"
  = Some (Statistics (Q2Qc 0.8) (Q2Qc 0) (Q2Qc 0.8) (Q2Qc 0.8)).
Proof.
  apply (calculate_statistics_single_run (λ x, x)
           (<["precision" := Q2Qc 0.8]> ∅)).
  - unfold calculate_statistics.
    assert ((map_to_list (<["precision" := Q2Qc 0.8]> (∅ : gmap string Qc))).*1
            = ["precision"]) as -> by vm_refl.
    simpl. unfold add_statistics, statistics_of, np_std. simpl.
    do 3 f_equal; qc_compute.
  - reflexivity.
Defined.
